(** * MIPS32 static stack analyzer: a shallow embedding of
    [staticStackAnalyzer.c] and the properties of its call-graph builder,
    depth resolver and ranking.

    Conventions of the embedding.
    - A [uint32_t] is a [Z] in [0, 2^32); every operation that can leave the
      range is followed by [wrap32].
    - The linked list that starts at [firstFunctionInfo] is a Rocq list in
      link order; a [functionInfo_t *] into it is the position of the
      record in that list; the [next] field is the list structure itself.
    - [jumpsTo]/[numJumpsTo] are one list; the capacities of the two C
      arrays that hold it are tested where the C code stores into them.
    - What the C standard leaves undefined (a store past the end of an
      array, a read through a null pointer, a negative length) is an
      outcome of its own: [None] for the functions on records and lists,
      [UndefinedBehaviour] and [Undefined] for the loop of [main] and for
      [main]. A result [None] of a function with [fuel] means that the fuel
      ran out.
    - [printf] appends an event to the standard output; the events keep the
      arguments of the format and drop its layout.
    - The text of the disassembly is a [string]; the stream that [popen]
      returns is that text and the end-of-file indicator; [popen] itself is
      a function from the command to the text the command writes.
    - [clock()] is a function from the number of the reading to the value
      read.

    Part I follows the source file function by function; Part II names what
    the statements need; Part III holds the statements, those of the
    specification marked with its numbers (C1 to C10) and further properties
    of the code marked X1 to X30. *)

From Stdlib Require Import ZArith Lia List String Ascii Permutation Sorted.
From stdpp Require Import base option list relations.

Open Scope Z_scope.

(** * Part I: the program *)

(** ** Machine integers *)

Definition wrap32 (z : Z) : Z := z mod 2 ^ 32.

Definition uint32 (z : Z) : Prop := 0 <= z < 2 ^ 32.

(** ** Data model *)

(** [functionInfo_t]. The field [end] is spelled [end_]. *)
Record functionInfo := mkFunctionInfo {
  name : string;
  start : Z;
  end_ : Z;
  ownStack : Z;
  deepest : Z;
  jumpsTo : list Z;
  usesFunctionPointers : bool;
  isProcessed : bool
}.

(** What the program writes to standard output, one event per [printf]. *)
Inductive printed :=
| JumpTargetNotFound (function : string) (address : Z)
| SomethingWentWrong
| TableHeader
| TableRule
| TableRow (rowName : string) (own deep : Z) (indirect : bool)
| Done.

(** The part of the process state the analysis works on. *)
Record state := mkState {
  functions : list functionInfo;
  stdout : list printed
}.

Definition set_isProcessed (b : bool) (f : functionInfo) : functionInfo :=
  mkFunctionInfo (name f) (start f) (end_ f) (ownStack f) (deepest f)
    (jumpsTo f) (usesFunctionPointers f) b.

Definition set_deepest (d : Z) (f : functionInfo) : functionInfo :=
  mkFunctionInfo (name f) (start f) (end_ f) (ownStack f) d
    (jumpsTo f) (usesFunctionPointers f) (isProcessed f).

Definition update (target : nat) (g : functionInfo -> functionInfo) (s : state) : state :=
  mkState (alter g target (functions s)) (stdout s).

Definition printf (p : printed) (s : state) : state :=
  mkState (functions s) (stdout s ++ [p]).

Arguments update : simpl never.
Arguments printf : simpl never.

(** ** Depth resolver *)

(** [findFunctionByAddress]: the first record of the list whose inclusive
    range holds [address]; [idx] is the position of [current]. *)
Fixpoint findFrom (current : list functionInfo) (idx : nat) (address : Z) : option nat :=
  match current with
  | [] => None
  | c :: next =>
      if (start c <=? address) && (end_ c >=? address) then Some idx
      else findFrom next (S idx) address
  end.

Definition findFunctionByAddress (s : state) (address : Z) : option nat :=
  findFrom (functions s) 0 address.

(** The [for] loop of [getDeepestStackUsage] over [target->jumpsTo];
    [rec] is the recursive call. *)
Fixpoint forEachJump (rec : nat -> state -> option (Z * state))
    (target : nat) (jumps : list Z) (s : state) : option state :=
  match jumps with
  | [] => Some s
  | address :: rest =>
      match findFunctionByAddress s address with
      | None =>
          t ← functions s !! target;
          forEachJump rec target rest (printf (JumpTargetNotFound (name t) address) s)
      | Some jumpTarget =>
          '(thisBranch, s') ← rec jumpTarget s;
          t ← functions s' !! target;
          forEachJump rec target rest
            (if thisBranch >? deepest t
             then update target (set_deepest thisBranch) s'
             else s')
      end
  end.

(** [getDeepestStackUsage]; [fuel] bounds the depth of the C recursion. *)
Fixpoint getDeepestStackUsage (fuel : nat) (target : nat) (s : state) : option (Z * state) :=
  match fuel with
  | O => None
  | S fuel' =>
      t ← functions s !! target;
      if isProcessed t then Some (deepest t, s)
      else
        s2 ← forEachJump (getDeepestStackUsage fuel') target (jumpsTo t)
               (update target (set_isProcessed true) s);
        let s3 := update target (fun f => set_deepest (wrap32 (deepest f + ownStack f)) f) s2 in
        t3 ← functions s3 !! target;
        Some (deepest t3, s3)
  end.

(** The number of records not yet marked [isProcessed]. *)
Fixpoint unprocessed (l : list functionInfo) : nat :=
  match l with
  | [] => 0
  | f :: next => (if isProcessed f then 0 else 1) + unprocessed next
  end.

(** The resolution pass of [main]: every record of the list in link order.
    The recursion of one call is never deeper than the number of
    unmarked records plus one. *)
Fixpoint resolveFrom (todo : nat) (current : nat) (s : state) : option state :=
  match todo with
  | O => Some s
  | S todo' =>
      '(_, s') ← getDeepestStackUsage (S (unprocessed (functions s))) current s;
      resolveFrom todo' (S current) s'
  end.

Definition resolveAll (s : state) : option state :=
  resolveFrom (length (functions s)) 0%nat s.

(** ** Ranking *)

(** The comparison of the first two records of the list, which moves
    [firstFunctionInfo]; a null [firstFunctionInfo] or [next] is
    dereferenced when the list has fewer than two records. *)
Definition swapFirst (key : functionInfo -> Z) (l : list functionInfo)
    : option (list functionInfo) :=
  match l with
  | x :: y :: rest => if key x <? key y then Some (y :: x :: rest) else Some l
  | _ => None
  end.

(** The inner [for] loop: [l] starts at [current]; each of the [n]
    iterations compares [current->next] with [current->next->next], swaps
    them when the first is smaller, and advances [current]. *)
Fixpoint innerLoop (key : functionInfo -> Z) (n : nat) (l : list functionInfo)
    : option (list functionInfo) :=
  match n with
  | O => Some l
  | S n' =>
      match l with
      | current :: x :: y :: rest =>
          if key x <? key y
          then cons current <$> innerLoop key n' (y :: x :: rest)
          else cons current <$> innerLoop key n' (x :: y :: rest)
      | _ => None
      end
  end.

(** The body of the outer loop for one value of [i] (at least 1). *)
Definition pass (key : functionInfo -> Z) (i : nat) (l : list functionInfo)
    : option (list functionInfo) :=
  l1 ← swapFirst key l; innerLoop key (i - 1) l1.

(** The outer loop, from [i] down to 1. *)
Fixpoint passes (key : functionInfo -> Z) (i : nat) (l : list functionInfo)
    : option (list functionInfo) :=
  match i with
  | O => Some l
  | S i' => l1 ← pass key i l; passes key i' l1
  end.

(** [count] is a [uint32_t], and so is [i = count - 1]. *)
Definition sortBy (key : functionInfo -> Z) (l : list functionInfo)
    : option (list functionInfo) :=
  let count := wrap32 (Z.of_nat (length l)) in
  passes key (Z.to_nat (wrap32 (count - 1))) l.

Definition sortForDeepest : list functionInfo -> option (list functionInfo) := sortBy deepest.
Definition sortForOwn : list functionInfo -> option (list functionInfo) := sortBy ownStack.

(** ** C library *)

Open Scope string_scope.
Open Scope Z_scope.

(** [unsigned long] and [long] have 32 bits on the platform the program is
    written for (it runs the Windows build of [xc32-objdump]). *)
Definition ULONG_MAX : Z := 2 ^ 32 - 1.
Definition LONG_MAX : Z := 2 ^ 31 - 1.
Definition LONG_MIN : Z := - 2 ^ 31.

Definition tab : ascii := ascii_of_nat 9.
Definition newline : ascii := ascii_of_nat 10.

Definition isspace (c : ascii) : bool :=
  let n := nat_of_ascii c in (n =? 32)%nat || ((9 <=? n)%nat && (n <=? 13)%nat).

(** The value of [c] as a digit, when it is one in base 36. *)
Definition digitValue (c : ascii) : option Z :=
  let n := Z.of_nat (nat_of_ascii c) in
  if (48 <=? n) && (n <=? 57) then Some (n - 48)
  else if (97 <=? n) && (n <=? 122) then Some (n - 87)
  else if (65 <=? n) && (n <=? 90) then Some (n - 55)
  else None.

Definition digitIn (base : Z) (c : ascii) : option Z :=
  match digitValue c with
  | Some d => if d <? base then Some d else None
  | None => None
  end.

Fixpoint skipSpace (s : string) : string :=
  match s with
  | String c rest => if isspace c then skipSpace rest else s
  | EmptyString => s
  end.

(** The digits at the head of [s], read in [base] after [acc]. *)
Fixpoint readDigits (base : Z) (s : string) (acc : Z) : Z :=
  match s with
  | String c rest =>
      match digitIn base c with
      | Some d => readDigits base rest (acc * base + d)
      | None => acc
      end
  | EmptyString => acc
  end.

(** The sign at the head of [s] ([true] for [-]) and what follows it. *)
Definition readSign (s : string) : bool * string :=
  match s with
  | String "-" rest => (true, rest)
  | String "+" rest => (false, rest)
  | _ => (false, s)
  end.

(** ["0x"] or ["0X"] before a hexadecimal digit is skipped. *)
Definition skipHexPrefix (s : string) : string :=
  match s with
  | String "0" (String x (String d rest)) =>
      if (Ascii.eqb x "x" || Ascii.eqb x "X") && bool_decide (is_Some (digitIn 16 d))
      then String d rest else s
  | _ => s
  end.

(** [strtoul(s, NULL, 16)]. *)
Definition strtoul16 (s : string) : Z :=
  let '(negative, s1) := readSign (skipSpace s) in
  let v := readDigits 16 (skipHexPrefix s1) 0 in
  if v >? ULONG_MAX then ULONG_MAX
  else if negative then (- v) mod (ULONG_MAX + 1) else v.

(** [strtol(s, NULL, 10)]. *)
Definition strtol10 (s : string) : Z :=
  let '(negative, s1) := readSign (skipSpace s) in
  let v := readDigits 10 s1 0 in
  if negative then Z.max LONG_MIN (- v) else Z.min LONG_MAX v.

(** [strstr]: the part of [haystack] from the first occurrence of [needle]
    on. *)
Fixpoint strstr (haystack needle : string) : option string :=
  if String.prefix needle haystack then Some haystack
  else match haystack with
       | String _ rest => strstr rest needle
       | EmptyString => None
       end.

(** [strchr]: the part of [s] from the first [c] on. *)
Fixpoint strchr (s : string) (c : ascii) : option string :=
  match s with
  | String a rest => if Ascii.eqb a c then Some s else strchr rest c
  | EmptyString => None
  end.

(** [strrchr]: the part of [s] from the last [c] on. *)
Fixpoint strrchr (s : string) (c : ascii) : option string :=
  match s with
  | String a rest =>
      match strrchr rest c with
      | Some r => Some r
      | None => if Ascii.eqb a c then Some s else None
      end
  | EmptyString => None
  end.

(** [p + 1] for a pointer [p] into a string. *)
Definition next (p : string) : string :=
  match p with String _ rest => rest | EmptyString => EmptyString end.

(** The stream [popen] returns: what is left to read, and the end-of-file
    indicator. *)
Record FILE := mkFILE { content : string; feof : bool }.

(** At most [n] characters of [s], up to and with the first newline: the
    characters, what is left of [s], and whether the end of [s] was hit. *)
Fixpoint readLine (n : nat) (s : string) : string * string * bool :=
  match n with
  | O => (EmptyString, s, false)
  | S n' =>
      match s with
      | EmptyString => (EmptyString, EmptyString, true)
      | String c rest =>
          if Ascii.eqb c newline then (String c EmptyString, rest, false)
          else let '(line, remaining, hit) := readLine n' rest in (String c line, remaining, hit)
      end
  end.

(** [fgets(buffer, size, stream)]: [None] for a null result, which leaves
    the buffer as it was. *)
Definition fgets (size : nat) (stream : FILE) : option string * FILE :=
  match content stream with
  | EmptyString => (None, mkFILE EmptyString true)
  | _ =>
      let '(line, remaining, hit) := readLine (size - 1) (content stream) in
      (Some line, mkFILE remaining (feof stream || hit))
  end.

(** The buffer after [fgets]. *)
Definition filled (buffer : string) (read : option string) : string :=
  match read with Some line => line | None => buffer end.

(** ** Call-graph builder *)

(** The staging array [jumpsTo[1000]] of [cleanupFunctionInfo]. *)
Definition STAGING_CAPACITY : Z := 1000.
(** The array of [10000] targets that [createNewFunctionInfo] allocates. *)
Definition JUMPS_CAPACITY : Z := 10000.

(** The loop of [cleanupFunctionInfo]: [staged] is the local array up to
    [numJumpsTo]. Storing at an index past its end is undefined. *)
Fixpoint cleanupLoop (first last : Z) (jumps staged : list Z) : option (list Z) :=
  match jumps with
  | [] => Some staged
  | target :: rest =>
      if (target >? last) || (target <? first)
      then if Z.of_nat (length staged) <? STAGING_CAPACITY
           then cleanupLoop first last rest (staged ++ [target])
           else None
      else cleanupLoop first last rest staged
  end.

Definition set_jumpsTo (jumps : list Z) (f : functionInfo) : functionInfo :=
  mkFunctionInfo (name f) (start f) (end_ f) (ownStack f) (deepest f)
    jumps (usesFunctionPointers f) (isProcessed f).

Definition cleanupFunctionInfo (f : functionInfo) : option functionInfo :=
  staged ← cleanupLoop (start f) (end_ f) (jumpsTo f) [];
  Some (set_jumpsTo staged f).

(** The characters of [from] before the suffix [upto] of it. *)
Definition before (from upto : string) : string :=
  String.substring 0 (String.length from - String.length upto) from.

(** What [createNewFunctionInfo] does. *)
Inductive created :=
| Record_ (f : functionInfo)
| Null
| UndefinedName.

(** [createNewFunctionInfo]. With [>] before [<] the length
    [nameEnd - name] is negative, and the allocation and the copy of the
    name are undefined. *)
Definition createNewFunctionInfo (label : string) : created :=
  let address := wrap32 (strtoul16 label) in
  match strchr label "<", strchr label ">" with
  | Some name_, Some nameEnd =>
      if (String.length nameEnd <? String.length name_)%nat
      then Record_ (mkFunctionInfo (before (next name_) nameEnd) address address 0 0 []
                      false false)
      else UndefinedName
  | _, _ => Null
  end.

Definition expectedString : string := "Disassembly of section .text".

(** The [while] loop of [findNextTextSection]. *)
Fixpoint skipSections (fuel : nat) (stream : FILE) (inputBuffer : string) : FILE :=
  match fuel with
  | O => stream
  | S fuel' =>
      if negb (feof stream) && negb (String.prefix expectedString inputBuffer)
      then let '(read, stream') := fgets 500 stream in
           skipSections fuel' stream' (filled inputBuffer read)
      else stream
  end.

(** [findNextTextSection]. Its buffer is only looked at after a successful
    [fgets]. Every iteration of the loop takes a character from the stream
    or sets the end-of-file indicator. *)
Definition findNextTextSection (stream : FILE) : FILE :=
  let '(read, stream1) := fgets 500 stream in
  let stream2 := skipSections (2 + String.length (content stream1)) stream1
                   (filled EmptyString read) in
  (fgets 500 stream2).2.

Definition set_end (address : Z) (f : functionInfo) : functionInfo :=
  mkFunctionInfo (name f) (start f) address (ownStack f) (deepest f)
    (jumpsTo f) (usesFunctionPointers f) (isProcessed f).

Definition set_ownStack (own : Z) (f : functionInfo) : functionInfo :=
  mkFunctionInfo (name f) (start f) (end_ f) own (deepest f)
    (jumpsTo f) (usesFunctionPointers f) (isProcessed f).

Definition set_usesFunctionPointers (b : bool) (f : functionInfo) : functionInfo :=
  mkFunctionInfo (name f) (start f) (end_ f) (ownStack f) (deepest f)
    (jumpsTo f) b (isProcessed f).

Definition sectionString : string := "Disassembly of section ".
Definition textSectionString : string := "Disassembly of section .text".
Definition labelEndString : string := ">:".
Definition stackPointerString : string :=
  " " ++ String tab ("addiu" ++ String tab "sp,sp,").
Definition branchString : string := " " ++ String tab "b".
Definition jumpString : string := " " ++ String tab "j".
Definition returnString : string := " " ++ String tab ("jr" ++ String tab "ra").
Definition indirectCallString : string := " " ++ String tab ("jalr" ++ String tab "").
Definition indirectJumpString : string := " " ++ String tab ("jr" ++ String tab "").

Definition found (haystack needle : string) : bool :=
  bool_decide (is_Some (strstr haystack needle)).

(** [p[0] == c]. *)
Definition firstIs (c : ascii) (p : string) : bool :=
  match p with String a _ => Ascii.eqb a c | EmptyString => false end.

(** [p + n] for a pointer [p] into a string. *)
Fixpoint advance (n : nat) (p : string) : string :=
  match n with O => p | S n' => advance n' (next p) end.

(** The end of the loop body of [main], from "remember current address" on,
    for a line that opens neither a section nor a function. [None]: a store
    past the end of [jumpsTo], or [strrchr] finding no tab. *)
Definition instruction (inputBuffer : string) (f : functionInfo) : option functionInfo :=
  let address := wrap32 (strtoul16 inputBuffer) in
  let f := if address >? end_ f then set_end address f else f in
  match strstr inputBuffer stackPointerString with
  | Some position =>
      let movement := strtol10 (advance (String.length stackPointerString) position) in
      Some (if movement <? 0 then set_ownStack (wrap32 (ownStack f - movement)) f else f)
  | None =>
      if found inputBuffer branchString || found inputBuffer jumpString then
        if found inputBuffer returnString then Some f
        else if found inputBuffer indirectCallString then Some (set_usesFunctionPointers true f)
        else if found inputBuffer indirectJumpString then Some f
        else
          addressPosition ← match strrchr inputBuffer "," with
                            | Some position => Some position
                            | None => strrchr inputBuffer tab
                            end;
          if Z.of_nat (length (jumpsTo f)) <? JUMPS_CAPACITY
          then Some (set_jumpsTo (jumpsTo f ++ [wrap32 (strtoul16 (next addressPosition))]) f)
          else None
      else Some f
  end.

(** The variables of [main] while it reads the disassembly: the records
    before [currentFunctionInfo] in list order, and [currentFunctionInfo]
    itself, which is the last record of the list or null. *)
Record builder := mkBuilder {
  stream : FILE;
  inputBuffer : string;
  closed : list functionInfo;
  currentFunctionInfo : option functionInfo;
  console : list printed
}.

Inductive run :=
| Finished (b : builder)
| Aborted (out : list printed)
| UndefinedBehaviour.

(** [cleanupFunctionInfo(currentFunctionInfo)], then
    [currentFunctionInfo->next = createNewFunctionInfo(inputBuffer)] and the
    step to it. *)
Definition openNext (label : string) (f : functionInfo) (b : builder) (stream' : FILE)
    : option builder :=
  f' ← cleanupFunctionInfo f;
  match createNewFunctionInfo label with
  | UndefinedName => None
  | Null => Some (mkBuilder stream' label (closed b ++ [f']) None (console b))
  | Record_ new => Some (mkBuilder stream' label (closed b ++ [f']) (Some new) (console b))
  end.

(** The [while (feof(disassemblyInput) == 0)] loop of [main]. The buffer
    keeps its content from one iteration to the next. *)
Fixpoint buildLoop (fuel : nat) (b : builder) : option run :=
  match fuel with
  | O => None
  | S fuel' =>
      if feof (stream b) then Some (Finished b)
      else
        match currentFunctionInfo b with
        | None => Some (Aborted (console b ++ [SomethingWentWrong]))
        | Some f =>
            let '(read, stream1) := fgets 500 (stream b) in
            let line := filled (inputBuffer b) read in
            if found line sectionString then
              let stream2 := if found line textSectionString then stream1
                             else findNextTextSection stream1 in
              let '(read2, stream3) := fgets 500 stream2 in
              match openNext (filled line read2) f b stream3 with
              | Some b' => buildLoop fuel' b'
              | None => Some UndefinedBehaviour
              end
            else
              let plain :=
                match instruction line f with
                | Some f' =>
                    buildLoop fuel'
                      (mkBuilder stream1 line (closed b) (Some f') (console b))
                | None => Some UndefinedBehaviour
                end in
              if found line labelEndString then
                match strchr line "<" with
                | None => Some UndefinedBehaviour
                | Some position =>
                    if firstIs "." (next position) then plain
                    else match openNext line f b stream1 with
                         | Some b' => buildLoop fuel' b'
                         | None => Some UndefinedBehaviour
                         end
                end
              else plain
        end
  end.

Inductive outcome :=
| Returned (code : Z) (records : list functionInfo) (out : list printed)
| Undefined.

(** The rows of [printStackInfo]. *)
Fixpoint printRows (current : list functionInfo) (i num : Z) : list printed :=
  match current with
  | [] => []
  | f :: rest =>
      if i <? num
      then TableRow (name f) (ownStack f) (deepest f) (usesFunctionPointers f)
             :: printRows rest (i + 1) num
      else []
  end.

(** [main] once the options are read: [sorting] and [printcount] are its
    variables of these names, [disassembly] is what the disassembler writes,
    and [uninitialised] is what an [inputBuffer] holds before the first
    [fgets] into it. *)
Definition analyze (sorting : ascii) (printcount : Z) (uninitialised disassembly : string)
    : option outcome :=
  let stream0 := findNextTextSection (mkFILE disassembly false) in
  let '(read, stream1) := fgets 500 stream0 in
  match createNewFunctionInfo (filled uninitialised read) with
  | UndefinedName => Some Undefined
  | first =>
      let firstFunctionInfo := match first with Record_ f => Some f | _ => None end in
      r ← buildLoop (2 + String.length (content stream1))
            (mkBuilder stream1 uninitialised [] firstFunctionInfo []);
      match r with
      | UndefinedBehaviour => Some Undefined
      | Aborted out => Some (Returned (-1) [] out)
      | Finished b =>
          let records := (closed b ++ option_list (currentFunctionInfo b))%list in
          s ← resolveAll (mkState records (console b));
          match (if Ascii.eqb sorting "o" then sortForOwn (functions s)
                 else if Ascii.eqb sorting "d" then sortForDeepest (functions s)
                 else Some (functions s)) with
          | None => Some Undefined
          | Some sorted =>
              Some (Returned 0 sorted
                      (stdout s ++ TableHeader :: TableRule :: printRows sorted 0 printcount
                         ++ [Done])%list)
          end
      end
  end.

(** ** Command line *)

(** [strtol(s, 0, 0)]: base 16 after ["0x"], base 8 after ["0"], else base
    10. *)
Definition strtol0 (s : string) : Z :=
  let '(negative, s1) := readSign (skipSpace s) in
  let hexadecimal :=
    match s1 with
    | String "0" (String x (String d _)) =>
        (Ascii.eqb x "x" || Ascii.eqb x "X") && bool_decide (is_Some (digitIn 16 d))
    | _ => false
    end in
  let v := if hexadecimal then readDigits 16 (skipHexPrefix s1) 0
           else if firstIs "0" s1 then readDigits 8 s1 0
           else readDigits 10 s1 0 in
  if negative then Z.max LONG_MIN (- v) else Z.min LONG_MAX v.

(** The variables [sorting], [printcount] and [filename] of [main]. *)
Record options := mkOptions {
  sorting : ascii;
  printcount : Z;
  filename : option string
}.

(** [argv[i][2]] of an argument of at least two characters; the character
    after them is the terminating null when there are only two. *)
Definition third (argument : string) : ascii :=
  match String.get 2 argument with Some c => c | None => Ascii.zero end.

(** The body of the loop over [argv]. *)
Definition readOption (o : options) (argument : string) : options :=
  if String.prefix "-s" argument
  then mkOptions (third argument) (printcount o) (filename o)
  else if String.prefix "-n" argument
  then mkOptions (sorting o) (wrap32 (strtol0 (advance 2 argument))) (filename o)
  else mkOptions (sorting o) (printcount o) (Some argument).

(** The loop over [argv[1]] to [argv[argc - 1]]. *)
Definition readOptions (arguments : list string) : options :=
  foldl readOption (mkOptions "d" 10 None) arguments.

(** ** Disassembler *)

Definition quote : ascii := ascii_of_nat 34.

(** The format of the command, up to the file name. *)
Definition objdump : string :=
  String quote ("C:\Program Files (x86)\Microchip\xc32\v2.30\bin\xc32-objdump.exe"
                ++ String quote " -d ").

(** [sprintf(command, ...)] in [openDisassembly]: the array [command[500]]
    holds the characters and the null after them. *)
Definition command (file : string) : option string :=
  if (String.length (objdump ++ file) <? 500)%nat then Some (objdump ++ file) else None.

(** [busywait]. [clock] gives the readings of the processor time in the
    order [clock()] returns them, the first one for [start]; the result is
    the reading that ends the wait. [clock_t] is a [long] of 32 bits, so
    the difference and the product are taken in [unsigned long]. *)
Fixpoint busywaitLoop (CLOCKS_PER_SEC : Z) (clock : nat -> Z) (start milliseconds : Z)
    (fuel reading : nat) : option nat :=
  match fuel with
  | O => None
  | S fuel' =>
      if wrap32 (wrap32 (clock reading - start) * (1000 ÷ CLOCKS_PER_SEC)) <? milliseconds
      then busywaitLoop CLOCKS_PER_SEC clock start milliseconds fuel' (S reading)
      else Some reading
  end.

Definition busywait (CLOCKS_PER_SEC : Z) (clock : nat -> Z) (fuel : nat) (milliseconds : Z)
    : option nat :=
  busywaitLoop CLOCKS_PER_SEC clock (wrap32 (clock 0%nat)) milliseconds fuel 1.

(** What [openDisassembly] does: the text the command writes, or a store
    past the end of [command]. *)
Inductive opened :=
| Opened (disassembly : string)
| CommandOverflow.

(** [openDisassembly]; [popen] gives what a command writes to its standard
    output. *)
Definition openDisassembly (CLOCKS_PER_SEC : Z) (clock : nat -> Z) (fuel : nat)
    (popen : string -> string) (file : string) : option opened :=
  match command file with
  | None => Some CommandOverflow
  | Some c =>
      _ ← busywait CLOCKS_PER_SEC clock fuel 100;
      Some (Opened (popen c))
  end.

(** ** Table *)

(** [printStackInfo]. *)
Definition printStackInfo (num : Z) (s : state) : state :=
  mkState (functions s)
    (stdout s ++ TableHeader :: TableRule :: printRows (functions s) 0 num)%list.

(** ** Entry point *)

(** How [main] ends: with the usage text for [argv[0]] and the value [-1],
    or as the analysis does. *)
Inductive ended :=
| Usage (program : string)
| Analysed (o : outcome).

(** [main]; [argv] is [program :: arguments]. *)
Definition main (CLOCKS_PER_SEC : Z) (clock : nat -> Z) (fuel : nat)
    (popen : string -> string) (uninitialised program : string) (arguments : list string)
    : option ended :=
  let o := readOptions arguments in
  match filename o with
  | None => Some (Usage program)
  | Some file =>
      handle ← openDisassembly CLOCKS_PER_SEC clock fuel popen file;
      match handle with
      | CommandOverflow => Some (Analysed Undefined)
      | Opened disassembly =>
          Analysed <$> analyze (sorting o) (printcount o) uninitialised disassembly
      end
  end.

Close Scope string_scope.

(** * Part II: vocabulary of the properties *)

(** ** Records and rankings *)

(** A record as [createNewFunctionInfo] and the builder leave it. *)
Definition unresolved (f : functionInfo) : Prop :=
  isProcessed f = false /\ deepest f = 0.

(** [A] calls [B] and [B] calls [A]; both frames are 16 bytes. *)
Definition mutualAB : state :=
  mkState
    [ mkFunctionInfo "A" 256 268 16 0 [512] false false;
      mkFunctionInfo "B" 512 524 16 0 [256] false false ]
    [].

(** The targets outside the inclusive range of the record, in their order. *)
Definition outsideOwnRange (f : functionInfo) : list Z :=
  List.filter (fun target => (target >? end_ f) || (target <? start f)) (jumpsTo f).

(** [n] comparisons of neighbours from the head of the list on: what one
    pass does, without the special case for the head. *)
Fixpoint bubble (key : functionInfo -> Z) (n : nat) (l : list functionInfo)
    : option (list functionInfo) :=
  match n with
  | O => Some l
  | S n' =>
      match l with
      | x :: y :: rest =>
          if key x <? key y
          then cons y <$> bubble key n' (x :: rest)
          else cons x <$> bubble key n' (y :: rest)
      | _ => None
      end
  end.

(** The records with key [k], in list order. *)
Definition withKey (key : functionInfo -> Z) (k : Z) (l : list functionInfo) : list functionInfo :=
  List.filter (fun f => key f =? k) l.

(** No record has a smaller key than the record after it. *)
Definition descending (key : functionInfo -> Z) (l : list functionInfo) : Prop :=
  Sorted (fun a b => key a >= key b) l.

(** Five records with ties in both keys. *)
Definition ranking : list functionInfo :=
  [ mkFunctionInfo "a" 0 0 8 8 [] false true;
    mkFunctionInfo "b" 0 0 24 24 [] false true;
    mkFunctionInfo "c" 0 0 8 40 [] false true;
    mkFunctionInfo "d" 0 0 24 24 [] false true;
    mkFunctionInfo "e" 0 0 16 40 [] false true ].

(** ** How one call changes the list *)

(** The fields the resolver never writes. *)
Definition static_eq (f f' : functionInfo) : Prop :=
  name f = name f' /\ start f = start f' /\ end_ f = end_ f' /\
  ownStack f = ownStack f' /\ jumpsTo f = jumpsTo f' /\
  usesFunctionPointers f = usesFunctionPointers f'.

(** A record keeps everything but [deepest] and [isProcessed]; a marked
    record is not touched, and a record that is unmarked afterwards was not
    touched either. *)
Definition step_rel (f f' : functionInfo) : Prop :=
  static_eq f f' /\ (isProcessed f = true -> f' = f) /\ (isProcessed f' = false -> f' = f).

(** The list before and after a call of the resolver. *)
Definition evolves (l l' : list functionInfo) : Prop := Forall2 step_rel l l'.

(** What a call establishes: the values it leaves, in terms of the entry
    state [s] and the exit state [s']. *)
Definition call_post (t : nat) (s : state) (v : Z) (s' : state) : Prop :=
  evolves (functions s) (functions s') /\
  (exists f', functions s' !! t = Some f' /\ isProcessed f' = true /\ deepest f' = v) /\
  stdout s `prefix_of` stdout s'.

Ltac bind_in H := cbn [mbind option_bind] in H.

(** ** No wrap-around below [2^32] *)

(** The frames of the records that are not marked yet. *)
Fixpoint pendingStack (l : list functionInfo) : Z :=
  match l with
  | [] => 0
  | f :: next => (if isProcessed f then 0 else ownStack f) + pendingStack next
  end.

(** Frames are not negative, and every [deepest] is in [0, K]. *)
Definition bounded (K : Z) (l : list functionInfo) : Prop :=
  Forall (fun f => 0 <= ownStack f /\ 0 <= deepest f <= K) l.

(** A record that a call has marked holds at least its own frame. *)
Definition finished_ge (l l' : list functionInfo) : Prop :=
  forall i f f', l !! i = Some f -> isProcessed f = false ->
    l' !! i = Some f' -> isProcessed f' = true -> ownStack f' <= deepest f'.

(** What a call keeps of [bounded]: [deepest] grows by at most the frames
    the call has marked. *)
Definition bound_post (K : Z) (s s' : state) : Prop :=
  bounded (K + pendingStack (functions s) - pendingStack (functions s')) (functions s') /\
  pendingStack (functions s') <= pendingStack (functions s) /\
  finished_ge (functions s) (functions s').

(** The invariant of the loop of the activation of [t], entered in [s0]
    with every [deepest] at most [K]. *)
Definition bound_inv (t : nat) (s0 : state) (f0 : functionInfo) (K : Z) (s : state) : Prop :=
  evolves (functions s0) (functions s) /\
  (exists f, functions s !! t = Some f /\ isProcessed f = true) /\
  bounded (K + pendingStack (functions s0) - ownStack f0 - pendingStack (functions s))
    (functions s) /\
  pendingStack (functions s) <= pendingStack (functions s0) - ownStack f0 /\
  (forall i f f', i <> t -> functions s0 !! i = Some f -> isProcessed f = false ->
     functions s !! i = Some f' -> isProcessed f' = true -> ownStack f' <= deepest f').

(** ** The resolution pass *)

(** The sum of all frames. *)
Definition totalStack (l : list functionInfo) : Z :=
  foldr (fun f acc => ownStack f + acc) 0 l.

(** Two frames of [2^31] bytes, the first function calling the second. *)
Definition overflowAB : state :=
  mkState
    [ mkFunctionInfo "A" 256 268 2147483648 0 [512] false false;
      mkFunctionInfo "B" 512 524 2147483648 0 [] false false ]
    [].

(** ** Acyclic call graphs *)

(** [j] is the record an edge of the record at [i] resolves to. *)
Definition calleeOf (l : list functionInfo) (i j : nat) : Prop :=
  exists f a, l !! i = Some f /\ a ∈ jumpsTo f /\ findFrom l 0 a = Some j.

(** No cycle: no record reaches itself along one or more edges. *)
Definition acyclic (l : list functionInfo) : Prop := forall i, ~ tc (calleeOf l) i i.

(** The callee relation goes down along [rank]; then there is no cycle. *)
Definition ranked (rank : nat -> nat) (l : list functionInfo) : Prop :=
  forall i j, calleeOf l i j -> (rank j < rank i)%nat.

(** [deepest] of the record an edge resolves to; [0] for an edge that
    resolves to no record, which is what such an edge contributes. *)
Definition deepestOfTarget (l : list functionInfo) (a : Z) : Z :=
  match findFrom l 0 a with
  | Some j => from_option deepest 0 (l !! j)
  | None => 0
  end.

Definition maximum (l : list Z) : Z := foldr Z.max 0 l.

Definition settled (X : nat -> Prop) (l : list functionInfo) (f : functionInfo) : Prop :=
  deepest f = wrap32 (maximum (map (deepestOfTarget l) (jumpsTo f)) + ownStack f) /\
  forall a j, a ∈ jumpsTo f -> findFrom l 0 a = Some j ->
    ~ X j /\ exists g, l !! j = Some g /\ isProcessed g = true.

(** [X] holds the activations in progress. *)
Definition acyclic_inv (X : nat -> Prop) (l : list functionInfo) : Prop :=
  (forall i f, l !! i = Some f -> isProcessed f = false -> deepest f = 0) /\
  (forall i f, l !! i = Some f -> isProcessed f = true -> ~ X i -> settled X l f).

(** The invariant of the loop of the activation of [t] in an acyclic graph:
    [done] holds the edges already visited. *)
Definition acyclic_loop_inv (t : nat) (s0 : state) (X : nat -> Prop)
    (done : list Z) (s : state) : Prop :=
  evolves (functions s0) (functions s) /\
  (exists ft, functions s !! t = Some ft /\ isProcessed ft = true /\
     deepest ft = maximum (map (deepestOfTarget (functions s)) done)) /\
  acyclic_inv (fun x => X x \/ x = t) (functions s) /\
  (forall a j, a ∈ done -> findFrom (functions s) 0 a = Some j ->
     j <> t /\ ~ X j /\ exists g, functions s !! j = Some g /\ isProcessed g = true).

(** [A] (frame 16) calls [B] (frame 8). *)
Definition chainAB : state :=
  mkState
    [ mkFunctionInfo "A" 256 268 16 0 [512] false false;
      mkFunctionInfo "B" 512 524 8 0 [] false false ]
    [].

(** ** Edges that resolve to no record *)

Definition resolvable (ranges : list functionInfo) (a : Z) : bool :=
  match findFrom ranges 0 a with Some _ => true | None => false end.

(** The record without the edges that resolve to no record of [ranges]. *)
Definition dropEdges (ranges : list functionInfo) (f : functionInfo) : functionInfo :=
  mkFunctionInfo (name f) (start f) (end_ f) (ownStack f) (deepest f)
    (List.filter (resolvable ranges) (jumpsTo f)) (usesFunctionPointers f) (isProcessed f).

(** The state with those edges absent from every record, and with [out] on
    standard output. *)
Definition withoutEdges (ranges : list functionInfo) (out : list printed) (s : state) : state :=
  mkState (map (dropEdges ranges) (functions s)) out.

Definition withoutUnresolvable (s : state) : state :=
  withoutEdges (functions s) (stdout s) s.

Definition same_ranges (l l' : list functionInfo) : Prop :=
  Forall2 (fun f f' => start f = start f' /\ end_ f = end_ f') l l'.

(** One function of frame 16 whose only call goes to an address that no
    record holds. *)
Definition callsNowhere : state :=
  mkState [ mkFunctionInfo "A" 256 268 16 0 [4096] false false ] [].

(** ** Re-entering an activation in progress *)






(** ** Sample inputs *)

(** [|] stands for a tab. *)
Fixpoint withTabs (s : string) : string :=
  match s with
  | String c rest => String (if Ascii.eqb c "|" then tab else c) (withTabs rest)
  | EmptyString => EmptyString
  end.

(** The lines, each ended by a newline. *)
Definition text (lines : list string) : string :=
  foldr (fun l acc => append (withTabs l) (String newline acc)) EmptyString lines.

Definition sampleDisassembly : string :=
  text [ ""; "a.elf:     file format elf32-tradlittlemips"; ""; "";
         "Disassembly of section .text:"; "";
         "9d000000 <main>:";
         "9d000000:|27bdffe8 |addiu|sp,sp,-24";
         "9d000004:|0f400010 |jal|9d000040 <helper>";
         "9d000008:|00000000 |nop";
         "9d00000c:|1000ffff |b|9d00000c <main+0xc>";
         "9d000010:|03e00008 |jr|ra";
         "9d000014:|27bd0018 |addiu|sp,sp,24";
         "";
         "9d000040 <helper>:";
         "9d000040:|27bdfff8 |addiu|sp,sp,-8";
         "9d000044:|0320f809 |jalr|t9";
         "9d000048:|03e00008 |jr|ra";
         "9d00004c:|27bd0008 |addiu|sp,sp,8";
         "";
         "Disassembly of section .rodata:"; "";
         "9d000100 <table>:";
         "9d000100:|00000001 |0x1" ]%string.

(** ** Closing a record *)

(** A record with [n] calls to the address [4096], outside its range. *)
Definition manyCalls (n : Z) : functionInfo :=
  mkFunctionInfo "big" 256 268 0 0 (repeat 4096 (Z.to_nat n)) false false.

(** ** Labels that cannot be parsed *)

Definition unparsableFirstLabel : string :=
  text [ "Disassembly of section .text:"; ""; "garbage"; "9d000000:|27bdffe8 |addiu|sp,sp,-24" ]%string.

(** A function, then a section header, then a last line that is no label
    and has no newline after it. *)
Definition unparsableLastLabel : string :=
  (text [ "Disassembly of section .text:"; "";
          "9d000000 <main>:";
          "9d000000:|27bdffe8 |addiu|sp,sp,-24";
          "Disassembly of section .text.startup:" ] ++ "garbage")%string.

(** A label inside a text section that ends in [>:] and has no [<]. *)
Definition labelWithoutOpening : string :=
  text [ "Disassembly of section .text:"; "";
         "9d000000 <main>:";
         "9d000000:|27bdffe8 |addiu|sp,sp,-24";
         "9d000040 oops>:";
         "9d000040:|03e00008 |jr|ra" ]%string.

(** A label inside a text section whose first [>] stands before its first
    [<]. *)
Definition labelClosedBeforeOpened : string :=
  text [ "Disassembly of section .text:"; "";
         "9d000000 <main>:";
         "9d000000:|27bdffe8 |addiu|sp,sp,-24";
         "9d000040 >helper<x>:";
         "9d000040:|03e00008 |jr|ra" ]%string.

(** The same in the label of the first function. *)
Definition firstLabelClosedBeforeOpened : string :=
  text [ "Disassembly of section .text:"; "";
         "9d000000 >main<:";
         "9d000000:|27bdffe8 |addiu|sp,sp,-24" ]%string.

(** ** Transfers without a literal target *)

(** No hexadecimal digit where [strtoul] starts to read. *)
Definition noHexLiteral (s : string) : Prop :=
  match skipHexPrefix (readSign (skipSpace s)).2 with
  | String c _ => digitIn 16 c = None
  | EmptyString => True
  end.

(** The record with [end] moved up to the address of the line. *)
Definition extended (line : string) (f : functionInfo) : functionInfo :=
  if wrap32 (strtoul16 line) >? end_ f then set_end (wrap32 (strtoul16 line)) f else f.

Definition branchNowhere : string := withTabs "9d000004:|1000ffff |b|somewhere".

Definition sampleMain : functionInfo :=
  mkFunctionInfo "main" 2634022912 2634022912 24 0 [] false false.

Definition branchNowhereDisassembly : string :=
  (text [ "Disassembly of section .text:"; "";
          "9d000000 <main>:";
          "9d000000:|27bdffe8 |addiu|sp,sp,-24";
          "9d000004:|1000ffff |b|somewhere" ] ++ withTabs "9d000008:|03e00008 |jr|ra")%string.

(** ** Inputs that reach the defects *)

(** A text section whose first line is no label and ends the input. *)
Definition noFunction : string :=
  (text [ "Disassembly of section .text:"; "" ] ++ "garbage")%string.

(** A function with [n] calls to the address [0x1000], and a second
    function after it. *)
Definition manyCallsDisassembly (n : Z) : string :=
  text ([ "Disassembly of section .text:"; "";
          "9d000000 <big>:" ]%string
        ++ repeat "9d000004:|0f400400 |jal|1000 <far>"%string (Z.to_nat n)
        ++ [ ""; "9d000040 <next>:"; "9d000040:|03e00008 |jr|ra" ]%string).

(** Two functions with frames of [2^31] bytes, the first calling the second. *)
Definition overflowDisassembly : string :=
  (text [ "Disassembly of section .text:"; "";
          "9d000000 <a>:";
          "9d000000:|27bd0000 |addiu|sp,sp,-2147483648";
          "9d000004:|0f400010 |jal|9d000040 <b>";
          "";
          "9d000040 <b>:";
          "9d000040:|27bd0000 |addiu|sp,sp,-2147483648" ]
   ++ withTabs "9d000044:|03e00008 |jr|ra")%string.

(** Two functions that call each other, with frames of [2^32 - 1] bytes
    and of one byte. *)
Definition wrapCycleDisassembly : string :=
  (text [ "Disassembly of section .text:"; "";
          "9d000000 <a>:";
          "9d000000:|27bd0000 |addiu|sp,sp,-2147483648";
          "9d000004:|27bd0000 |addiu|sp,sp,-2147483647";
          "9d000008:|0f400010 |jal|9d000040 <b>";
          "";
          "9d000040 <b>:";
          "9d000040:|27bdffff |addiu|sp,sp,-1";
          "9d000044:|0f400000 |jal|9d000000 <a>" ]
   ++ withTabs "9d000048:|03e00008 |jr|ra")%string.

(** ** The builder returns *)

(** What is left to read, plus one while the end-of-file indicator is not
    set. *)
Definition unread (f : FILE) : nat :=
  if feof f then 0%nat else S (String.length (content f)).

(** A record as the builder hands it to the resolver. *)
Definition asBuilt (f : functionInfo) : Prop :=
  unresolved f /\ uint32 (ownStack f).

(** ** Looking a record up *)

(** The inclusive range of the record holds the address. *)
Definition holds (f : functionInfo) (address : Z) : Prop := start f <= address <= end_ f.

(** ** What the resolver writes *)

(** The edges that resolve to no record of [ranges]. *)
Definition unresolvedEdges (ranges : list functionInfo) (edges : list Z) : list Z :=
  List.filter (fun a => negb (resolvable ranges a)) edges.

(** What the resolver prints for such edges of a function called
    [function]. *)
Definition diagnosticsOf (ranges : list functionInfo) (function : string) (edges : list Z)
    : list printed :=
  map (JumpTargetNotFound function) (unresolvedEdges ranges edges).

Definition diagnostics (ranges : list functionInfo) (f : functionInfo) : list printed :=
  diagnosticsOf ranges (name f) (jumpsTo f).

(** The diagnostics of the records that are not marked yet. *)
Fixpoint pendingDiagnostics (ranges l : list functionInfo) : list printed :=
  match l with
  | [] => []
  | f :: next =>
      (if isProcessed f then [] else diagnostics ranges f) ++ pendingDiagnostics ranges next
  end.

(** ** The table and the command line *)

(** The row of the table for a record. *)
Definition row (f : functionInfo) : printed :=
  TableRow (name f) (ownStack f) (deepest f) (usesFunctionPointers f).

(** The kinds of argument [main] tells apart. *)
Definition isSortingOption (argument : string) : bool := String.prefix "-s" argument.

Definition isCountOption (argument : string) : bool := String.prefix "-n" argument.

Definition isFileName (argument : string) : bool :=
  negb (isSortingOption argument) && negb (isCountOption argument).

(** ** The clock *)

(** What [busywait] compares with [milliseconds] at the reading [n] of the
    clock. *)
Definition waited (CLOCKS_PER_SEC : Z) (clock : nat -> Z) (n : nat) : Z :=
  wrap32 (wrap32 (clock n - wrap32 (clock 0%nat)) * (1000 ÷ CLOCKS_PER_SEC)).

(** A clock of 1000 ticks per second that advances by one tick from one
    reading to the next. *)
Definition tickingClock (n : nat) : Z := 5000 + Z.of_nat n.

(** ** Lines of a listing *)

(** A line that [fgets] reads in one piece into a buffer of 500 characters:
    it holds no newline and fewer than 499 characters before its newline. *)
Definition shortLine (l : string) : Prop :=
  strchr l newline = None /\ (String.length l < 499)%nat.

(** The line with its newline, as [fgets] stores it. *)
Definition withNewline (l : string) : string := append l (String newline EmptyString).

(** The lines, each ended by a newline. *)
Definition unlines (lines : list string) : string :=
  foldr (fun l acc => append l (String newline acc)) EmptyString lines.

(** A stream on which [fgets] has set the end-of-file indicator is empty. *)
Definition drained (f : FILE) : Prop := feof f = true -> content f = EmptyString.

(** The buffer after the lines have been read into it one by one. *)
Definition lastRead (buffer : string) (lines : list string) : string :=
  from_option withNewline buffer (last lines).

(** A line, with its newline, that opens neither a section nor a function:
    the loop of [main] takes it as an instruction of the function it is
    reading. A label whose name begins with a dot is such a line. *)
Definition plainLine (line : string) : Prop :=
  found line sectionString = false /\
  (found line labelEndString = false \/
   exists position, strchr line "<" = Some position /\ firstIs "." (next position) = true).

(** A line, with its newline, that opens a function. *)
Definition labelLine (line : string) : Prop :=
  found line sectionString = false /\ found line labelEndString = true /\
  exists position, strchr line "<" = Some position /\ firstIs "." (next position) = false.

(** ** Records of the builder *)

(** A record as the builder keeps it while it reads the function: the
    fields are in the range of [uint32_t], the range is not empty, and the
    edges fit the array of [createNewFunctionInfo]. *)
Definition wellFormed (f : functionInfo) : Prop :=
  uint32 (start f) /\ uint32 (end_ f) /\ start f <= end_ f /\ uint32 (ownStack f) /\
  Forall uint32 (jumpsTo f) /\ Z.of_nat (length (jumpsTo f)) <= JUMPS_CAPACITY.

(** A record that [cleanupFunctionInfo] has closed: no edge into its own
    range, and no more edges than the staging array holds. *)
Definition closedRecord (f : functionInfo) : Prop :=
  wellFormed f /\ Z.of_nat (length (jumpsTo f)) <= STAGING_CAPACITY /\
  Forall (fun a => ~ holds f a) (jumpsTo f).

(** The loop of [main] over lines that open neither a section nor a
    function: [instruction] on each line in turn. *)
Fixpoint instructions (lines : list string) (f : functionInfo) : option functionInfo :=
  match lines with
  | [] => Some f
  | line :: rest => f' ← instruction line f; instructions rest f'
  end.

(** The bytes by which a line grows the stack: the amount of a negative
    adjustment of the stack pointer, and [0] for every other line. *)
Definition growth (line : string) : Z :=
  match strstr line stackPointerString with
  | Some position =>
      let movement := strtol10 (advance (String.length stackPointerString) position) in
      if movement <? 0 then - movement else 0
  | None => 0
  end.

(** The address at the head of a line. *)
Definition addressOf (line : string) : Z := wrap32 (strtoul16 line).

Definition sumOf (l : list Z) : Z := foldr Z.add 0 l.

(** The body of [main] from the sample listing. *)
Definition sampleBody : list string :=
  map withTabs
    [ "9d000000:|27bdffe8 |addiu|sp,sp,-24";
      "9d000004:|0f400010 |jal|9d000040 <helper>";
      "9d000008:|27bdfff0 |addiu|sp,sp,-16";
      "9d00000c:|27bd0010 |addiu|sp,sp,16";
      "9d000010:|03e00008 |jr|ra";
      "9d000014:|27bd0018 |addiu|sp,sp,24" ]%string.

(** A listing that ends with the newline of a stack pointer adjustment. *)
Definition endsWithReservation : string :=
  text [ "Disassembly of section .text:"; "";
         "9d000000 <main>:";
         "9d000000:|27bdffe8 |addiu|sp,sp,-24" ]%string.

(** ** Listings with several sections *)

(** A listing with two text sections, one right after the other. *)
Definition twoTextSections : string :=
  text [ "Disassembly of section .text:"; "";
         "9d000000 <main>:";
         "9d000000:|27bdffe8 |addiu|sp,sp,-24";
         "";
         "Disassembly of section .text.startup:"; "";
         "9d001000 <foo>:";
         "9d001000:|03e00008 |jr|ra" ]%string.

(** A listing with a data section between its two text sections. *)
Definition dataBetweenTextSections : string :=
  text [ "Disassembly of section .text:"; "";
         "9d000000 <main>:";
         "9d000000:|27bdffe8 |addiu|sp,sp,-24";
         "";
         "Disassembly of section .rodata:"; "";
         "9d000800 <tab>:";
         "9d000800:|00000001 |0x1";
         "";
         "Disassembly of section .text.startup:"; "";
         "9d001000 <foo>:";
         "9d001000:|03e00008 |jr|ra" ]%string.

(** ** The marker of indirect calls *)

(** The state with the indirect-call marker of every record set to
    [marker]. *)
Definition withMarker (marker : bool) (s : state) : state :=
  mkState (map (set_usesFunctionPointers marker) (functions s)) (stdout s).

(** ** Buffers that were never written *)

(** Two runs of the loop of [main] that end alike: with the same records
    and the same output. *)
Definition sameRecords (r r' : option run) : Prop :=
  match r, r' with
  | Some (Finished b), Some (Finished b') =>
      closed b = closed b' /\ currentFunctionInfo b = currentFunctionInfo b' /\
      console b = console b'
  | Some (Aborted out), Some (Aborted out') => out = out'
  | Some UndefinedBehaviour, Some UndefinedBehaviour => True
  | None, None => True
  | _, _ => False
  end.

(** ** Call chains *)

(** [callChain l i w]: a chain of calls that starts at the record at [i]
    and follows resolved edges uses [w] bytes of stack, the frames of its
    functions added up. *)
Inductive callChain (l : list functionInfo) : nat -> Z -> Prop :=
| callChain_end i f : l !! i = Some f -> callChain l i (ownStack f)
| callChain_call i j f w :
    l !! i = Some f -> calleeOf l i j -> callChain l j w -> callChain l i (ownStack f + w).

(** * Part III: properties *)

(** ** Depth resolver *)

Example mutual_try : (λ s, deepest <$> functions s) <$> resolveAll mutualAB = Some [32; 16].
Proof. vm_compute. reflexivity. Qed.

(** ** How one call changes the list *)

Lemma static_eq_refl f : static_eq f f.
Proof. repeat split. Qed.

Lemma static_eq_trans f g h : static_eq f g -> static_eq g h -> static_eq f h.
Proof. unfold static_eq. intuition congruence. Qed.

Lemma step_rel_refl f : step_rel f f.
Proof. split; [apply static_eq_refl | tauto]. Qed.

Lemma step_rel_trans f g h : step_rel f g -> step_rel g h -> step_rel f h.
Proof.
  intros (S1 & P1 & U1) (S2 & P2 & U2). split; [eauto using static_eq_trans|]. split.
  - intros Hp. pose proof (P1 Hp) as E. subst g. auto.
  - intros Hu. pose proof (U2 Hu) as E. subst h. auto.
Qed.

Lemma evolves_refl l : evolves l l.
Proof. induction l; constructor; auto using step_rel_refl. Qed.

Lemma evolves_trans l1 l2 l3 : evolves l1 l2 -> evolves l2 l3 -> evolves l1 l3.
Proof.
  intros H. revert l3. induction H as [|f g l l' Hfg _ IH]; intros l3 H3;
    inversion H3; subst; constructor; [eauto using step_rel_trans|].
  apply IH. assumption.
Qed.

Lemma evolves_length l l' : evolves l l' -> length l = length l'.
Proof. apply Forall2_length. Qed.

Lemma evolves_findFrom l l' : evolves l l' -> forall i a, findFrom l i a = findFrom l' i a.
Proof.
  induction 1 as [|f f' l l' (S & _) _ IH]; intros i a; simpl; [reflexivity|].
  destruct S as (_ & -> & -> & _). rewrite IH. reflexivity.
Qed.

Lemma evolves_unprocessed l l' : evolves l l' -> (unprocessed l' <= unprocessed l)%nat.
Proof.
  induction 1 as [|f f' l l' (_ & P & U) _ IH]; simpl; [lia|].
  destruct (isProcessed f') eqn:E'; [destruct (isProcessed f); lia|].
  rewrite (U eq_refl) in E'. rewrite E'. lia.
Qed.

(** Writing [deepest] or the mark of a record that was unmarked at the start. *)
Lemma evolves_update l x t f y g :
  evolves l x -> l !! t = Some f -> isProcessed f = false ->
  x !! t = Some y -> static_eq y (g y) -> isProcessed (g y) = true ->
  evolves l (alter g t x).
Proof.
  intros H Hl Hf Hx Sg Pg. apply Forall2_alter_r; [exact H|].
  intros a y' Ha Hy (S & P & U). rewrite Hl in Ha. injection Ha as <-.
  rewrite Hx in Hy. injection Hy as <-.
  split; [eauto using static_eq_trans|]. split; congruence.
Qed.

Lemma static_set_deepest d y : static_eq y (set_deepest d y).
Proof. repeat split. Qed.

Lemma static_set_isProcessed b y : static_eq y (set_isProcessed b y).
Proof. repeat split. Qed.

Lemma lookup_update_eq t g s f :
  functions s !! t = Some f -> functions (update t g s) !! t = Some (g f).
Proof. intros H. unfold update. simpl. rewrite list_lookup_alter_eq, H. reflexivity. Qed.

Lemma functions_update t g s : functions (update t g s) = alter g t (functions s).
Proof. reflexivity. Qed.

Lemma stdout_update t g s : stdout (update t g s) = stdout s.
Proof. reflexivity. Qed.

Lemma functions_printf p s : functions (printf p s) = functions s.
Proof. reflexivity. Qed.

Lemma stdout_printf p s : stdout (printf p s) = stdout s ++ [p].
Proof. reflexivity. Qed.

Lemma lookup_update_ne t i g s :
  t <> i -> functions (update t g s) !! i = functions s !! i.
Proof. intros H. unfold update. simpl. apply list_lookup_alter_ne. exact H. Qed.

(** The record a marked position holds is the same after a call. *)
Lemma evolves_processed l l' i f :
  evolves l l' -> l !! i = Some f -> isProcessed f = true -> l' !! i = Some f.
Proof.
  intros H Hl Hp. destruct (Forall2_lookup_l _ _ _ _ _ H Hl) as (f' & Hl' & _ & P & _).
  rewrite Hl'. f_equal. auto.
Qed.

Section Frame.
Variable rec : nat -> state -> option (Z * state).
Hypothesis rec_post : forall j s v s', rec j s = Some (v, s') -> call_post j s v s'.

Lemma forEachJump_frame t l0 f0 jumps : forall s s2,
  forEachJump rec t jumps s = Some s2 ->
  l0 !! t = Some f0 -> isProcessed f0 = false ->
  evolves l0 (functions s) ->
  (exists f, functions s !! t = Some f /\ isProcessed f = true) ->
  evolves l0 (functions s2) /\
  (exists f, functions s2 !! t = Some f /\ isProcessed f = true) /\
  stdout s `prefix_of` stdout s2.
Proof.
  induction jumps as [|a rest IH]; intros s s2 Hrun Hl0 Hf0 Hev (f & Hf & Hp); simpl in Hrun.
  - injection Hrun as <-. eauto.
  - destruct (findFunctionByAddress s a) as [j|] eqn:Hfind.
    + destruct (rec j s) as [[v s']|] eqn:Hrec; simpl in Hrun; [|discriminate].
      destruct (rec_post _ _ _ _ Hrec) as (Hev' & _ & Hout).
      pose proof (evolves_processed _ _ _ _ Hev' Hf Hp) as Hf'.
      rewrite Hf' in Hrun. simpl in Hrun.
      apply IH in Hrun; auto.
      * destruct Hrun as (? & ? & Hout2). split; [assumption|]. split; [assumption|].
        etrans; [exact Hout|]. destruct (v >? deepest f); exact Hout2.
      * destruct (v >? deepest f); [|eauto using evolves_trans].
        simpl. eapply evolves_update; eauto using evolves_trans, static_set_deepest.
      * destruct (v >? deepest f); [|eauto].
        erewrite lookup_update_eq by eassumption. eauto.
    + rewrite Hf in Hrun. simpl in Hrun. apply IH in Hrun; eauto.
      destruct Hrun as (? & ? & Hout2). split; [assumption|]. split; [assumption|].
      etrans; [|exact Hout2]. simpl. apply prefix_app_r. reflexivity.
Qed.
End Frame.

Lemma getDeepestStackUsage_S fuel t s :
  getDeepestStackUsage (S fuel) t s =
  f ← functions s !! t;
  if isProcessed f then Some (deepest f, s)
  else
    s2 ← forEachJump (getDeepestStackUsage fuel) t (jumpsTo f)
           (update t (set_isProcessed true) s);
    t3 ← functions (update t (fun f => set_deepest (wrap32 (deepest f + ownStack f)) f) s2) !! t;
    Some (deepest t3, update t (fun f => set_deepest (wrap32 (deepest f + ownStack f)) f) s2).
Proof. reflexivity. Qed.

Lemma getDeepestStackUsage_post fuel : forall t s v s',
  getDeepestStackUsage fuel t s = Some (v, s') -> call_post t s v s'.
Proof.
  induction fuel as [|fuel IH]; intros t s v s' Hrun; [discriminate|].
  rewrite getDeepestStackUsage_S in Hrun.
  destruct (functions s !! t) as [f|] eqn:Hf; bind_in Hrun; [|discriminate].
  destruct (isProcessed f) eqn:Hp.
  - injection Hrun as <- <-. split; [apply evolves_refl|]. split; [eauto|reflexivity].
  - destruct (forEachJump _ _ _ _) as [s2|] eqn:Hloop; bind_in Hrun; [|discriminate].
    eapply (forEachJump_frame _ IH) in Hloop; try eassumption.
    + destruct Hloop as (Hev & (f2 & Hf2 & Hp2) & Hout).
      erewrite lookup_update_eq in Hrun by eassumption. bind_in Hrun.
      injection Hrun as <- <-. split.
      * eapply evolves_update; eauto using static_set_deepest.
      * split; [|exact Hout]. erewrite lookup_update_eq by eassumption. eauto.
    + eapply evolves_update; eauto using evolves_refl, static_set_isProcessed.
    + erewrite lookup_update_eq by eassumption. eauto.
Qed.

(** ** Termination *)

Lemma findFrom_lt l : forall i a j, findFrom l i a = Some j -> (i <= j < i + length l)%nat.
Proof.
  induction l as [|c l IH]; intros i a j H; simpl in H; [discriminate|].
  destruct ((start c <=? a) && (end_ c >=? a)).
  - injection H as <-. simpl. lia.
  - apply IH in H. simpl. lia.
Qed.

Lemma findFunctionByAddress_lt s a j :
  findFunctionByAddress s a = Some j -> (j < length (functions s))%nat.
Proof. intros H. apply findFrom_lt in H. lia. Qed.

Lemma unprocessed_alter_same g t l :
  (forall y, isProcessed (g y) = isProcessed y) ->
  unprocessed (alter g t l) = unprocessed l.
Proof.
  intros Hg. revert t. induction l as [|c l IH]; intros [|t]; simpl; auto.
  - rewrite Hg. reflexivity.
  - f_equal. apply IH.
Qed.

Lemma unprocessed_mark t l f :
  l !! t = Some f -> isProcessed f = false ->
  S (unprocessed (alter (set_isProcessed true) t l)) = unprocessed l.
Proof.
  revert t. induction l as [|c l IH]; intros [|t] Hl Hf; simpl in *; try discriminate.
  - injection Hl as ->. rewrite Hf. reflexivity.
  - specialize (IH t Hl Hf). change (list_alter (set_isProcessed true) t l)
      with (alter (set_isProcessed true) t l). destruct (isProcessed c); lia.
Qed.

Section Total.
Variable rec : nat -> state -> option (Z * state).
Variable n : nat.
Hypothesis rec_post : forall j s v s', rec j s = Some (v, s') -> call_post j s v s'.
Hypothesis rec_total : forall j s,
  (j < length (functions s))%nat -> (unprocessed (functions s) <= n)%nat -> is_Some (rec j s).

Lemma forEachJump_total t jumps : forall s,
  (t < length (functions s))%nat -> (unprocessed (functions s) <= n)%nat ->
  is_Some (forEachJump rec t jumps s).
Proof.
  induction jumps as [|a rest IH]; intros s Ht Hn; simpl; [eauto|].
  destruct (findFunctionByAddress s a) as [j|] eqn:Hfind.
  - destruct (rec_total j s) as [[v s'] Hrec]; [eauto using findFunctionByAddress_lt|assumption|].
    rewrite Hrec. cbn [mbind option_bind].
    destruct (rec_post _ _ _ _ Hrec) as (Hev & _ & _).
    pose proof (evolves_length _ _ Hev) as Hlen.
    pose proof (evolves_unprocessed _ _ Hev) as Hun.
    destruct (lookup_lt_is_Some_2 (functions s') t) as [f' Hf']; [lia|].
    rewrite Hf'. cbn [mbind option_bind].
    apply IH; destruct (v >? deepest f'); try lia;
      rewrite functions_update; [rewrite length_alter; lia|].
    rewrite unprocessed_alter_same by reflexivity. lia.
  - destruct (lookup_lt_is_Some_2 (functions s) t) as [f Hf]; [lia|].
    rewrite Hf. cbn [mbind option_bind]. apply IH; rewrite functions_printf; assumption.
Qed.
End Total.

Lemma getDeepestStackUsage_total fuel : forall t s,
  (t < length (functions s))%nat -> (unprocessed (functions s) < fuel)%nat ->
  is_Some (getDeepestStackUsage fuel t s).
Proof.
  induction fuel as [|fuel IH]; intros t s Ht Hfuel; [lia|].
  rewrite getDeepestStackUsage_S.
  destruct (lookup_lt_is_Some_2 (functions s) t) as [f Hf]; [lia|].
  rewrite Hf. cbn [mbind option_bind].
  destruct (isProcessed f) eqn:Hp; [eauto|].
  pose proof (unprocessed_mark _ _ _ Hf Hp) as Hmark.
  destruct (forEachJump_total (getDeepestStackUsage fuel) (fuel - 1)
              (getDeepestStackUsage_post fuel)) with (t := t) (jumps := jumpsTo f)
              (s := update t (set_isProcessed true) s) as [s2 Hloop].
  - intros j s0 Hj Hn. apply IH; [assumption|lia].
  - rewrite functions_update, length_alter. assumption.
  - rewrite functions_update. lia.
  - rewrite Hloop. cbn [mbind option_bind].
    eapply (forEachJump_frame _ (getDeepestStackUsage_post fuel)) in Hloop.
    + destruct Hloop as (_ & (f2 & Hf2 & _) & _).
      erewrite lookup_update_eq by eassumption. cbn [mbind option_bind]. eauto.
    + exact Hf.
    + exact Hp.
    + eapply evolves_update; eauto using evolves_refl, static_set_isProcessed.
    + erewrite lookup_update_eq by eassumption. eauto.
Qed.

(** Fuel beyond what a call needs does not change its result. *)
Lemma forEachJump_more rec rec' t jumps :
  (forall j s r, rec j s = Some r -> rec' j s = Some r) ->
  forall s s2, forEachJump rec t jumps s = Some s2 -> forEachJump rec' t jumps s = Some s2.
Proof.
  intros Hrec. induction jumps as [|a rest IH]; intros s s2 Hrun; [exact Hrun|].
  cbn [forEachJump] in *. destruct (findFunctionByAddress s a) as [j|].
  - destruct (rec j s) as [[v s']|] eqn:Hj; bind_in Hrun; [|discriminate].
    rewrite (Hrec _ _ _ Hj). cbn [mbind option_bind].
    destruct (functions s' !! t); bind_in Hrun; [|discriminate].
    cbn [mbind option_bind]. apply IH. exact Hrun.
  - destruct (functions s !! t); bind_in Hrun; [|discriminate].
    cbn [mbind option_bind]. apply IH. exact Hrun.
Qed.

Lemma getDeepestStackUsage_more_fuel fuel : forall fuel' t s r,
  (fuel <= fuel')%nat ->
  getDeepestStackUsage fuel t s = Some r -> getDeepestStackUsage fuel' t s = Some r.
Proof.
  induction fuel as [|fuel IH]; intros fuel' t s r Hle Hrun; [discriminate|].
  destruct fuel' as [|fuel']; [lia|].
  rewrite getDeepestStackUsage_S in *.
  destruct (functions s !! t) as [f|]; bind_in Hrun; [|discriminate].
  cbn [mbind option_bind]. destruct (isProcessed f); [exact Hrun|].
  destruct (forEachJump _ t (jumpsTo f) _) as [s2|] eqn:Hloop; bind_in Hrun; [|discriminate].
  rewrite (forEachJump_more _ (getDeepestStackUsage fuel') _ _
             (fun j s0 r0 => IH fuel' j s0 r0 ltac:(lia)) _ _ Hloop).
  exact Hrun.
Qed.

(** A loop invariant of [forEachJump] is kept by the whole loop when each
    of its two branches keeps it. *)
Lemma forEachJump_invariant (I : state -> Prop) rec t jumps :
  (forall s a f, I s -> a ∈ jumps -> findFunctionByAddress s a = None ->
     functions s !! t = Some f -> I (printf (JumpTargetNotFound (name f) a) s)) ->
  (forall s a j v s' f', I s -> a ∈ jumps -> findFunctionByAddress s a = Some j ->
     rec j s = Some (v, s') -> functions s' !! t = Some f' ->
     I (if v >? deepest f' then update t (set_deepest v) s' else s')) ->
  forall s s2, I s -> forEachJump rec t jumps s = Some s2 -> I s2.
Proof.
  induction jumps as [|a rest IH]; intros Hnone Hsome s s2 HI Hrun; simpl in Hrun.
  - injection Hrun as <-. exact HI.
  - assert (Hin : a ∈ a :: rest) by constructor.
    assert (Hsub : forall b, b ∈ rest -> b ∈ a :: rest) by (intros; constructor; assumption).
    destruct (findFunctionByAddress s a) as [j|] eqn:Hfind.
    + destruct (rec j s) as [[v s']|] eqn:Hrec; bind_in Hrun; [|discriminate].
      destruct (functions s' !! t) as [f'|] eqn:Hf'; bind_in Hrun; [|discriminate].
      eapply IH; [| |eapply (Hsome s a j v s' f')|exact Hrun]; eauto.
    + destruct (functions s !! t) as [f|] eqn:Hf; bind_in Hrun; [|discriminate].
      eapply IH; [| |eapply (Hnone s a f)|exact Hrun]; eauto.
Qed.

(** ** No wrap-around below [2^32] *)

Lemma pendingStack_nonneg K l : bounded K l -> 0 <= pendingStack l.
Proof.
  induction 1 as [|f l (Ho & _) _ IH]; simpl; [lia|]. destruct (isProcessed f); lia.
Qed.

Lemma pendingStack_mark t l f :
  l !! t = Some f -> isProcessed f = false ->
  pendingStack (alter (set_isProcessed true) t l) = pendingStack l - ownStack f.
Proof.
  revert t. induction l as [|c l IH]; intros [|t] Hl Hf; simpl in *; try discriminate.
  - injection Hl as ->. rewrite Hf. lia.
  - specialize (IH t Hl Hf). change (list_alter (set_isProcessed true) t l)
      with (alter (set_isProcessed true) t l). lia.
Qed.

Lemma pendingStack_alter_same g t l :
  (forall y, isProcessed (g y) = isProcessed y /\ ownStack (g y) = ownStack y) ->
  pendingStack (alter g t l) = pendingStack l.
Proof.
  intros Hg. revert t. induction l as [|c l IH]; intros [|t]; simpl; auto.
  - destruct (Hg c) as (-> & ->). reflexivity.
  - f_equal. apply IH.
Qed.

Lemma bounded_mono K K' l : bounded K l -> K <= K' -> bounded K' l.
Proof. intros H HK. eapply Forall_impl; [exact H|]. simpl. intros f ?. lia. Qed.

Lemma bounded_lookup K l i f :
  bounded K l -> l !! i = Some f -> 0 <= ownStack f /\ 0 <= deepest f <= K.
Proof. intros H Hl. exact (Forall_lookup_1 _ _ _ _ H Hl). Qed.

Lemma bounded_set_deepest K l t d :
  bounded K l -> 0 <= d <= K -> bounded K (alter (set_deepest d) t l).
Proof.
  intros H Hd. apply Forall_alter; [exact H|]. intros f _ (Ho & _). simpl. auto.
Qed.

Lemma evolves_lookup l l' i f :
  evolves l l' -> l !! i = Some f -> exists f', l' !! i = Some f' /\ step_rel f f'.
Proof. intros H Hl. exact (Forall2_lookup_l _ _ _ _ _ H Hl). Qed.

(** One iteration of the loop that makes a recursive call. *)
Lemma bound_inv_step t s0 f0 K s1 j v s' f' :
  functions s0 !! t = Some f0 -> isProcessed f0 = false ->
  bounded K (functions s0) -> K + pendingStack (functions s0) < 2 ^ 32 ->
  bound_inv t s0 f0 K s1 ->
  call_post j s1 v s' ->
  (forall K1, bounded K1 (functions s1) -> K1 + pendingStack (functions s1) < 2 ^ 32 ->
     bound_post K1 s1 s') ->
  functions s' !! t = Some f' ->
  bound_inv t s0 f0 K (if v >? deepest f' then update t (set_deepest v) s' else s').
Proof.
  intros Hf0 Hp0 HK Hlt (Hev & (f & Hf & Hp) & Hb & Hle & Hfin) Hpost Hbound Hf'.
  destruct Hpost as (Hev' & (fj & Hfj & _ & Hv) & _).
  pose proof (bounded_lookup _ _ _ _ HK Hf0) as (Hown0 & _).
  destruct (Hbound _ Hb) as (Hb' & Hle' & Hfin'); [lia|].
  pose proof (evolves_processed _ _ _ _ Hev' Hf Hp) as Hft. rewrite Hft in Hf'.
  injection Hf' as <-.
  assert (Hev2 : evolves (functions s0) (functions s')) by eauto using evolves_trans.
  assert (Hfin2 : forall i f1 f1', i <> t -> functions s0 !! i = Some f1 ->
            isProcessed f1 = false -> functions s' !! i = Some f1' ->
            isProcessed f1' = true -> ownStack f1' <= deepest f1').
  { intros i f1 f1' Hi H1 Hp1 H1' Hp1'.
    destruct (evolves_lookup _ _ _ _ Hev H1) as (fm & Hm & _).
    destruct (isProcessed fm) eqn:Hpm.
    - pose proof (evolves_processed _ _ _ _ Hev' Hm Hpm) as E. rewrite E in H1'.
      injection H1' as <-. eauto.
    - eauto. }
  replace (K + pendingStack (functions s0) - ownStack f0 - pendingStack (functions s1) +
           pendingStack (functions s1) - pendingStack (functions s'))
    with (K + pendingStack (functions s0) - ownStack f0 - pendingStack (functions s'))
    in Hb' by lia.
  destruct (v >? deepest f) eqn:Hgt.
  - unfold bound_inv. rewrite functions_update.
    rewrite (pendingStack_alter_same (set_deepest v)) by (intros; split; reflexivity).
    split; [eapply evolves_update; eauto using static_set_deepest|].
    split; [rewrite list_lookup_alter_eq, Hft; simpl; eauto|].
    split; [apply bounded_set_deepest; [exact Hb'|]|].
    { pose proof (bounded_lookup _ _ _ _ Hb' Hfj). lia. }
    split; [lia|].
    intros i f1 f1' Hi H1 Hp1 H1'. rewrite list_lookup_alter_ne in H1' by auto. eauto.
  - split; [exact Hev2|]. split; [eauto|]. split; [exact Hb'|]. split; [lia|]. exact Hfin2.
Qed.



Section Bound.
Variable rec : nat -> state -> option (Z * state).
Hypothesis rec_post : forall j s v s', rec j s = Some (v, s') -> call_post j s v s'.
Hypothesis rec_bound : forall j s v s' K, rec j s = Some (v, s') ->
  bounded K (functions s) -> K + pendingStack (functions s) < 2 ^ 32 -> bound_post K s s'.

Lemma forEachJump_bound t s0 f0 K jumps s s2 :
  functions s0 !! t = Some f0 -> isProcessed f0 = false ->
  bounded K (functions s0) -> K + pendingStack (functions s0) < 2 ^ 32 ->
  bound_inv t s0 f0 K s -> forEachJump rec t jumps s = Some s2 -> bound_inv t s0 f0 K s2.
Proof.
  intros Hf0 Hp0 HK Hlt. apply forEachJump_invariant.
  - intros s1 a f HI _ _ _. exact HI.
  - intros s1 a j v s' f' HI _ _ Hrec Hf'.
    eapply bound_inv_step; eauto.
Qed.
End Bound.

Lemma getDeepestStackUsage_bound fuel : forall t s v s' K,
  getDeepestStackUsage fuel t s = Some (v, s') ->
  bounded K (functions s) -> K + pendingStack (functions s) < 2 ^ 32 -> bound_post K s s'.
Proof.
  induction fuel as [|fuel IH]; intros t s v s' K Hrun HK Hlt; [discriminate|].
  rewrite getDeepestStackUsage_S in Hrun.
  destruct (functions s !! t) as [f|] eqn:Hf; bind_in Hrun; [|discriminate].
  destruct (isProcessed f) eqn:Hp.
  - injection Hrun as <- <-. split; [|split; [lia|]].
    + eapply bounded_mono; [exact HK|lia].
    + intros i f1 f1' H1 Hp1 H1' Hp1'. congruence.
  - destruct (forEachJump _ _ _ _) as [s2|] eqn:Hloop; bind_in Hrun; [|discriminate].
    pose proof (bounded_lookup _ _ _ _ HK Hf) as (Hown & Hd).
    pose proof (pendingStack_nonneg _ _ HK) as Hnn.
    eapply (forEachJump_bound _ (getDeepestStackUsage_post fuel) IH t s f K) in Hloop;
      try eassumption.
    + destruct Hloop as (Hev & (f2 & Hf2 & Hp2) & Hb & Hle & Hfin).
      erewrite lookup_update_eq in Hrun by eassumption. bind_in Hrun.
      injection Hrun as <- <-.
      pose proof (bounded_lookup _ _ _ _ Hb Hf2) as (Hown2 & Hd2).
      pose proof (pendingStack_nonneg _ _ Hb) as Hnn2.
      assert (Hsame : ownStack f = ownStack f2).
      { destruct (evolves_lookup _ _ _ _ Hev Hf) as (x & Hx & (_ & _ & _ & E & _) & _).
        congruence. }
      assert (Hsmall : wrap32 (deepest f2 + ownStack f2) = deepest f2 + ownStack f2).
      { unfold wrap32. apply Z.mod_small. lia. }
      unfold bound_post. rewrite functions_update.
      rewrite pendingStack_alter_same by (intros; split; reflexivity).
      split; [|split; [lia|]].
      * apply Forall_alter.
        -- eapply bounded_mono; [exact Hb|lia].
        -- intros x Hx _. rewrite Hf2 in Hx. injection Hx as <-. simpl.
           rewrite Hsmall. lia.
      * intros i f1 f1' H1 Hp1 H1' Hp1'. destruct (decide (i = t)) as [->|Hne].
        -- rewrite list_lookup_alter_eq, Hf2 in H1'. injection H1' as <-. simpl.
           rewrite Hsmall. lia.
        -- rewrite list_lookup_alter_ne in H1' by auto. eauto.
    + split; [eapply evolves_update; eauto using evolves_refl, static_set_isProcessed|].
      split; [erewrite lookup_update_eq by eassumption; eauto|].
      rewrite functions_update, (pendingStack_mark _ _ _ Hf Hp).
      split; [|split; [lia|]].
      * apply Forall_alter; [eapply bounded_mono; [exact HK|lia]|].
        intros x _ Hx. simpl. exact Hx.
      * intros i f1 f1' Hi H1 Hp1 H1'. rewrite list_lookup_alter_ne in H1' by auto. congruence.
Qed.

(** The same with the edges already visited. *)
Lemma forEachJump_invariant_prefix (I : list Z -> state -> Prop) rec t jumps :
  (forall done s a f, I done s -> a ∈ jumps -> findFunctionByAddress s a = None ->
     functions s !! t = Some f -> I (done ++ [a]) (printf (JumpTargetNotFound (name f) a) s)) ->
  (forall done s a j v s' f', I done s -> a ∈ jumps -> findFunctionByAddress s a = Some j ->
     rec j s = Some (v, s') -> functions s' !! t = Some f' ->
     I (done ++ [a]) (if v >? deepest f' then update t (set_deepest v) s' else s')) ->
  forall done s s2, I done s -> forEachJump rec t jumps s = Some s2 -> I (done ++ jumps) s2.
Proof.
  induction jumps as [|a rest IH]; intros Hnone Hsome done s s2 HI Hrun; simpl in Hrun.
  - injection Hrun as <-. rewrite app_nil_r. exact HI.
  - assert (Hin : a ∈ a :: rest) by constructor.
    assert (Hsub : forall b, b ∈ rest -> b ∈ a :: rest) by (intros; constructor; assumption).
    replace (done ++ a :: rest) with ((done ++ [a]) ++ rest) by (rewrite <- app_assoc; reflexivity).
    destruct (findFunctionByAddress s a) as [j|] eqn:Hfind.
    + destruct (rec j s) as [[v s']|] eqn:Hrec; bind_in Hrun; [|discriminate].
      destruct (functions s' !! t) as [f'|] eqn:Hf'; bind_in Hrun; [|discriminate].
      eapply IH; [| |eapply (Hsome done s a j v s' f')|exact Hrun]; eauto.
    + destruct (functions s !! t) as [f|] eqn:Hf; bind_in Hrun; [|discriminate].
      eapply IH; [| |eapply (Hnone done s a f)|exact Hrun]; eauto.
Qed.

(** ** The resolution pass *)

Lemma pendingStack_unresolved l : Forall unresolved l -> pendingStack l = totalStack l.
Proof.
  induction 1 as [|f l (Hp & _) _ IH]; simpl; [reflexivity|]. rewrite Hp, IH. reflexivity.
Qed.

Lemma bounded_unresolved l :
  Forall unresolved l -> Forall (fun f => 0 <= ownStack f) l -> bounded 0 l.
Proof.
  intros H1 H2. unfold bounded. rewrite Forall_forall in *. intros f Hf.
  destruct (H1 f Hf) as (_ & ->). specialize (H2 f Hf). simpl in H2. lia.
Qed.

Lemma resolveFrom_S todo current s :
  resolveFrom (S todo) current s =
  r ← getDeepestStackUsage (S (unprocessed (functions s))) current s;
  resolveFrom todo (S current) r.2.
Proof. cbn [resolveFrom]. destruct (getDeepestStackUsage _ _ _) as [[v s1]|]; reflexivity. Qed.

Lemma resolveFrom_evolves todo : forall current s s',
  resolveFrom todo current s = Some s' ->
  evolves (functions s) (functions s') /\ stdout s `prefix_of` stdout s'.
Proof.
  induction todo as [|todo IH]; intros current s s' Hrun.
  - injection Hrun as <-. split; [apply evolves_refl|reflexivity].
  - rewrite resolveFrom_S in Hrun.
    destruct (getDeepestStackUsage _ current s) as [[v s1]|] eqn:Hcall; bind_in Hrun;
      [|discriminate].
    destruct (getDeepestStackUsage_post _ _ _ _ _ Hcall) as (Hev1 & _ & Hout1).
    destruct (IH _ _ _ Hrun) as (Hev2 & Hout2).
    split; [eauto using evolves_trans|etrans; eassumption].
Qed.

(** The pass from position [current] on returns, and every record from
    there on is marked afterwards. *)
Lemma resolveFrom_total todo : forall current s,
  (current + todo = length (functions s))%nat ->
  exists s', resolveFrom todo current s = Some s' /\
    (forall i f, (current <= i)%nat -> functions s' !! i = Some f -> isProcessed f = true).
Proof.
  induction todo as [|todo IH]; intros current s Hlen.
  - exists s. split; [reflexivity|].
    intros i f Hi Hf. apply lookup_lt_Some in Hf. lia.
  - rewrite resolveFrom_S.
    destruct (getDeepestStackUsage_total (S (unprocessed (functions s))) current s)
      as [[v s1] Hrun]; [lia|lia|].
    rewrite Hrun. cbn [mbind option_bind snd].
    destruct (getDeepestStackUsage_post _ _ _ _ _ Hrun) as (Hev & (f1 & Hf1 & Hp1 & _) & Hout).
    destruct (IH (S current) s1) as (s' & Hres & Hall).
    { rewrite <- (evolves_length _ _ Hev). lia. }
    exists s'. split; [exact Hres|].
    destruct (resolveFrom_evolves _ _ _ _ Hres) as (Hev' & _).
    intros i f Hi Hf. destruct (decide (i = current)) as [->|Hne].
    + pose proof (evolves_processed _ _ _ _ Hev' Hf1 Hp1). congruence.
    + apply (Hall i); [lia|assumption].
Qed.

Lemma resolveFrom_bound todo : forall current s s' K,
  resolveFrom todo current s = Some s' ->
  bounded K (functions s) -> K + pendingStack (functions s) < 2 ^ 32 -> bound_post K s s'.
Proof.
  induction todo as [|todo IH]; intros current s s' K Hrun HK Hlt.
  - injection Hrun as <-. split; [eapply bounded_mono; [exact HK|lia]|].
    split; [lia|]. intros i f f' H1 Hp1 H1' Hp1'. congruence.
  - rewrite resolveFrom_S in Hrun.
    destruct (getDeepestStackUsage _ current s) as [[v s1]|] eqn:Hcall; bind_in Hrun;
      [|discriminate].
    cbn [snd] in Hrun.
    destruct (getDeepestStackUsage_bound _ _ _ _ _ _ Hcall HK Hlt) as (Hb1 & Hle1 & Hfin1).
    destruct (getDeepestStackUsage_post _ _ _ _ _ Hcall) as (Hev1 & _ & _).
    pose proof (pendingStack_nonneg _ _ Hb1) as Hnn1.
    destruct (IH _ _ _ _ Hrun Hb1) as (Hb2 & Hle2 & Hfin2); [lia|].
    destruct (resolveFrom_evolves _ _ _ _ Hrun) as (Hev2 & _).
    split; [eapply bounded_mono; [exact Hb2|lia]|]. split; [lia|].
    intros i f f' H Hp H' Hp'.
    destruct (evolves_lookup _ _ _ _ Hev1 H) as (fm & Hm & _).
    destruct (isProcessed fm) eqn:Hpm.
    + pose proof (evolves_processed _ _ _ _ Hev2 Hm Hpm) as E. rewrite E in H'.
      injection H' as <-. eauto.
    + eauto.
Qed.

Lemma resolveAll_total s :
  exists s', resolveAll s = Some s' /\
    Forall (fun f => isProcessed f = true) (functions s') /\
    evolves (functions s) (functions s') /\ stdout s `prefix_of` stdout s'.
Proof.
  destruct (resolveFrom_total (length (functions s)) 0%nat s) as (s' & Hres & Hall); [lia|].
  exists s'. split; [exact Hres|].
  destruct (resolveFrom_evolves _ _ _ _ Hres) as (Hev & Hout).
  split; [|split; assumption].
  rewrite Forall_lookup. intros i f Hf. apply (Hall i); [lia|exact Hf].
Qed.

(** C1. The resolver returns on every list of records, cyclic or not: a call
    with one unit of fuel per unmarked record (plus one) returns, more fuel
    gives the same result, and the whole pass returns too. A call on a marked
    record returns the [deepest] the record holds at that moment and changes
    nothing. For [A] calling [B] calling [A] with frames of 16 bytes, the
    activation of [B] inside that of [A] is the first to finish, with 16; [A]
    then ends with 32. *)
Theorem resolver_terminates_on_cycles :
  (forall s target, (target < length (functions s))%nat ->
     exists v s',
       getDeepestStackUsage (S (unprocessed (functions s))) target s = Some (v, s') /\
       forall fuel, (unprocessed (functions s) < fuel)%nat ->
         getDeepestStackUsage fuel target s = Some (v, s')) /\
  (forall s, exists s', resolveAll s = Some s' /\
     Forall (fun f => isProcessed f = true) (functions s')) /\
  (forall fuel s target f, functions s !! target = Some f -> isProcessed f = true ->
     getDeepestStackUsage (S fuel) target s = Some (deepest f, s)) /\
  getDeepestStackUsage 2 1 (update 0 (set_isProcessed true) mutualAB) =
    Some (16, mkState
      [ mkFunctionInfo "A" 256 268 16 0 [512] false true;
        mkFunctionInfo "B" 512 524 16 16 [256] false true ] []) /\
  resolveAll mutualAB =
    Some (mkState
      [ mkFunctionInfo "A" 256 268 16 32 [512] false true;
        mkFunctionInfo "B" 512 524 16 16 [256] false true ] []).
Proof.
  split; [|split; [|split; [|split]]].
  - intros s target Ht.
    destruct (getDeepestStackUsage_total (S (unprocessed (functions s))) target s)
      as [[v s'] H]; [assumption|lia|].
    exists v, s'. split; [exact H|]. intros fuel Hfuel.
    eapply getDeepestStackUsage_more_fuel; [|exact H]. lia.
  - intros s. destruct (resolveAll_total s) as (s' & H & Hall & _). eauto.
  - intros fuel s target f Hf Hp. rewrite getDeepestStackUsage_S, Hf.
    cbn [mbind option_bind]. rewrite Hp. reflexivity.
  - vm_compute. reflexivity.
  - vm_compute. reflexivity.
Qed.

Lemma resolver_terminates_on_cycles_witness :
  (0 < length (functions mutualAB))%nat /\
  exists v s',
    getDeepestStackUsage (S (unprocessed (functions mutualAB))) 0 mutualAB = Some (v, s') /\
    forall fuel, (unprocessed (functions mutualAB) < fuel)%nat ->
      getDeepestStackUsage fuel 0 mutualAB = Some (v, s').
Proof.
  split; [simpl; lia|].
  apply (proj1 resolver_terminates_on_cycles mutualAB 0%nat). simpl. lia.
Defined.

(** When the frames add up to less than [2^32], every record ends the pass
    marked and with [deepest] at least its [ownStack]. *)
Lemma resolveAll_deepest_ge_own s :
  Forall unresolved (functions s) ->
  Forall (fun f => 0 <= ownStack f) (functions s) ->
  totalStack (functions s) < 2 ^ 32 ->
  exists s', resolveAll s = Some s' /\
    Forall (fun f => isProcessed f = true /\ deepest f >= ownStack f) (functions s').
Proof.
  intros Hfresh Hown Htotal.
  destruct (resolveAll_total s) as (s' & Hres & Hall & Hev & _).
  exists s'. split; [exact Hres|].
  destruct (resolveFrom_bound _ _ _ _ 0 Hres) as (_ & _ & Hfin).
  { apply bounded_unresolved; assumption. }
  { rewrite pendingStack_unresolved by assumption. lia. }
  rewrite Forall_lookup. intros i f' Hf'.
  pose proof (Forall_lookup_1 _ _ _ _ Hall Hf') as Hp'. simpl in Hp'.
  split; [exact Hp'|].
  destruct (Forall2_lookup_r _ _ _ _ _ Hev Hf') as (f & Hf & _).
  pose proof (Forall_lookup_1 _ _ _ _ Hfresh Hf) as (Hp & _).
  pose proof (Hfin i f f' Hf Hp Hf' Hp'). lia.
Qed.


(** ** Acyclic call graphs *)

Lemma maximum_nonneg l : 0 <= maximum l.
Proof. induction l; simpl; lia. Qed.

Lemma maximum_snoc l v : maximum (l ++ [v]) = Z.max (maximum l) v.
Proof. induction l as [|a l IH]; simpl; [lia|]. rewrite IH. lia. Qed.

Lemma findFrom_same_ranges l l' :
  Forall2 (fun f f' => start f = start f' /\ end_ f = end_ f') l l' ->
  forall i a, findFrom l i a = findFrom l' i a.
Proof.
  induction 1 as [|f f' l l' (E1 & E2) _ IH]; intros i a; simpl; [reflexivity|].
  rewrite E1, E2, IH. reflexivity.
Qed.

Lemma findFrom_alter g t l :
  (forall y, start (g y) = start y /\ end_ (g y) = end_ y) ->
  forall i a, findFrom (alter g t l) i a = findFrom l i a.
Proof.
  intros Hg i a. apply findFrom_same_ranges. apply Forall2_alter_l.
  - apply Forall_Forall2_diag. apply Forall_true. auto.
  - intros x y Hx Hy _. rewrite Hx in Hy. injection Hy as <-. apply Hg.
Qed.

Lemma deepestOfTarget_agree l l' a :
  (forall i b, findFrom l' i b = findFrom l i b) ->
  (forall j, findFrom l 0 a = Some j -> l' !! j = l !! j) ->
  deepestOfTarget l' a = deepestOfTarget l a.
Proof.
  intros Hfind Hsame. unfold deepestOfTarget. rewrite Hfind.
  destruct (findFrom l 0 a) as [j|] eqn:E; [|reflexivity]. rewrite (Hsame j eq_refl). reflexivity.
Qed.

Lemma settled_preserved X l l' f :
  settled X l f ->
  (forall i b, findFrom l' i b = findFrom l i b) ->
  (forall j g, ~ X j -> l !! j = Some g -> isProcessed g = true -> l' !! j = Some g) ->
  settled X l' f.
Proof.
  intros (Heq & Htargets) Hfind Hsame. split.
  - rewrite Heq. f_equal. f_equal. unfold maximum. f_equal. apply map_ext_in. intros a Ha.
    symmetry. apply deepestOfTarget_agree; [exact Hfind|].
    intros j Hj. destruct (Htargets a j) as (HX & g & Hg & Hp); [apply list_elem_of_In; exact Ha|exact Hj|].
    rewrite Hg. eauto.
  - intros a j Ha Hj. rewrite Hfind in Hj. destruct (Htargets a j Ha Hj) as (HX & g & Hg & Hp).
    eauto.
Qed.

Lemma settled_weaken (X Y : nat -> Prop) l f :
  (forall j, X j -> Y j) -> settled Y l f -> settled X l f.
Proof.
  intros HXY (Heq & Htargets). split; [exact Heq|].
  intros a j Ha Hj. destruct (Htargets a j Ha Hj) as (HY & Hg). split; [auto|exact Hg].
Qed.

Lemma calleeOf_evolves l l' i j : evolves l l' -> calleeOf l' i j -> calleeOf l i j.
Proof.
  intros Hev (f' & a & Hf' & Ha & Hfind).
  destruct (Forall2_lookup_r _ _ _ _ _ Hev Hf') as (f & Hf & (_ & _ & _ & _ & Hj & _) & _).
  exists f, a. rewrite Hj, (evolves_findFrom _ _ Hev). auto.
Qed.

Lemma ranked_acyclic rank l : ranked rank l -> acyclic l.
Proof.
  intros H i Hc.
  assert (Hdown : forall x y, tc (calleeOf l) x y -> (rank y < rank x)%nat).
  { induction 1 as [x y Hxy|x y z Hxy _ IH]; [auto|]. apply H in Hxy. lia. }
  apply Hdown in Hc. lia.
Qed.

Lemma alter_fix (g : functionInfo -> functionInfo) t (l : list functionInfo) x :
  l !! t = Some x -> g x = x -> alter g t l = l.
Proof.
  intros Hl Hg. apply list_eq. intros i. destruct (decide (i = t)) as [->|Hne].
  - rewrite list_lookup_alter_eq, Hl. simpl. congruence.
  - rewrite list_lookup_alter_ne by auto. reflexivity.
Qed.

(** Both outcomes of the comparison [thisBranch > target->deepest] leave
    the larger of the two values in [deepest]. *)
Lemma keep_larger t v s f :
  functions s !! t = Some f ->
  functions (if v >? deepest f then update t (set_deepest v) s else s) =
  alter (set_deepest (Z.max (deepest f) v)) t (functions s).
Proof.
  intros Hf. destruct (Z.gtb_spec v (deepest f)) as [Hgt|Hle].
  - rewrite functions_update. rewrite Z.max_r by lia. reflexivity.
  - rewrite Z.max_l by lia. symmetry. apply (alter_fix _ _ _ f Hf). destruct f; reflexivity.
Qed.

Lemma stdout_keep_larger t v s f :
  stdout (if v >? deepest f then update t (set_deepest v) s else s) = stdout s.
Proof. destruct (v >? deepest f); reflexivity. Qed.

Lemma settled_strengthen (X Y : nat -> Prop) l f :
  settled X l f ->
  (forall j g, l !! j = Some g -> isProcessed g = true -> ~ X j -> ~ Y j) ->
  settled Y l f.
Proof.
  intros (Heq & Htargets) HXY. split; [exact Heq|].
  intros a j Ha Hj. destruct (Htargets a j Ha Hj) as (HX & g & Hg & Hp). eauto.
Qed.

Section Acyclic.
(** [R] holds the callee relation; the records of [X], which are in
    progress, reach the record that is called. *)
Variable R : relation nat.
Hypothesis R_acyclic : forall i, ~ tc R i i.
Variable rec : nat -> state -> option (Z * state).
Hypothesis rec_post : forall j s v s', rec j s = Some (v, s') -> call_post j s v s'.
Hypothesis rec_acyclic : forall j s v s' (X : nat -> Prop), rec j s = Some (v, s') ->
  (forall i k, calleeOf (functions s) i k -> R i k) -> (forall x, X x -> tc R x j) ->
  acyclic_inv X (functions s) -> acyclic_inv X (functions s').

Lemma forEachJump_acyclic t s0 f0 (X : nat -> Prop) s s2 :
  functions s0 !! t = Some f0 -> isProcessed f0 = false ->
  (forall i k, calleeOf (functions s0) i k -> R i k) -> (forall x, X x -> tc R x t) ->
  acyclic_loop_inv t s0 X [] s ->
  forEachJump rec t (jumpsTo f0) s = Some s2 ->
  acyclic_loop_inv t s0 X (jumpsTo f0) s2.
Proof.
  intros Hf0 Hp0 Hrank HX.
  change (acyclic_loop_inv t s0 X [] s -> forEachJump rec t (jumpsTo f0) s = Some s2 ->
          acyclic_loop_inv t s0 X ([] ++ jumpsTo f0) s2).
  apply forEachJump_invariant_prefix.
  - intros done s1 a f (Hev & (ft & Hft & Hpt & Hdt) & Hinv & Hdone) _ Hnone _.
    unfold acyclic_loop_inv. rewrite functions_printf.
    split; [exact Hev|]. split; [|split; [exact Hinv|]].
    + exists ft. split; [exact Hft|]. split; [exact Hpt|].
      rewrite map_app. cbn [map]. rewrite maximum_snoc. unfold deepestOfTarget at 2.
      unfold findFunctionByAddress in Hnone. rewrite Hnone.
      pose proof (maximum_nonneg (map (deepestOfTarget (functions s1)) done)). lia.
    + intros b j Hb Hj. apply elem_of_app in Hb as [Hb|Hb]; [eauto|].
      apply list_elem_of_singleton in Hb as ->.
      unfold findFunctionByAddress in Hnone. congruence.
  - intros done s1 a j v s' f' (Hev & (ft & Hft & Hpt & Hdt) & Hinv & Hdone) Ha Hfind Hrec Hf'.
    unfold findFunctionByAddress in Hfind.
    destruct (rec_post _ _ _ _ Hrec) as (Hev' & (fj & Hfj & Hpj & Hvj) & _).
    pose proof (evolves_processed _ _ _ _ Hev' Hft Hpt) as Hft'.
    rewrite Hft' in Hf'. injection Hf' as <-.
    assert (Hjt : R t j).
    { apply Hrank. exists f0, a. rewrite (evolves_findFrom _ _ Hev). auto. }
    assert (Hjne : j <> t) by (intros ->; apply (R_acyclic t); apply tc_once; exact Hjt).
    assert (HjX : ~ X j).
    { intros Hx. apply (R_acyclic j). eapply tc_r; [apply HX; exact Hx|exact Hjt]. }
    assert (Hinv' : acyclic_inv (fun x => X x \/ x = t) (functions s')).
    { eapply rec_acyclic; [exact Hrec| | |exact Hinv].
      - intros i k Hik. apply Hrank. eapply calleeOf_evolves; eassumption.
      - intros x [Hx| ->]; [eapply tc_r; [apply HX; exact Hx|exact Hjt]|apply tc_once; exact Hjt]. }
    assert (Hfind' : forall i b,
      findFrom (alter (set_deepest (Z.max (deepest ft) v)) t (functions s')) i b =
      findFrom (functions s1) i b).
    { intros i b. rewrite findFrom_alter by (intros; split; reflexivity).
      symmetry. apply evolves_findFrom. exact Hev'. }
    unfold acyclic_loop_inv. rewrite (keep_larger _ _ _ _ Hft').
    split; [eapply evolves_update; eauto using evolves_trans, static_set_deepest|].
    split; [|split].
    + exists (set_deepest (Z.max (deepest ft) v) ft).
      rewrite list_lookup_alter_eq, Hft'. split; [reflexivity|]. split; [exact Hpt|].
      rewrite map_app. cbn [map]. rewrite maximum_snoc. cbn [deepest set_deepest]. f_equal.
      * rewrite Hdt at 1. unfold maximum. f_equal. apply map_ext_in. intros b Hb.
        symmetry. apply deepestOfTarget_agree; [exact Hfind'|].
        intros jb Hjb. destruct (Hdone b jb) as (Hne & _ & g & Hg & Hpg);
          [apply list_elem_of_In; exact Hb|exact Hjb|].
        rewrite list_lookup_alter_ne by auto.
        rewrite Hg. eapply evolves_processed; eassumption.
      * unfold deepestOfTarget. rewrite Hfind', Hfind.
        rewrite list_lookup_alter_ne by auto. rewrite Hfj. simpl. congruence.
    + destruct Hinv' as (Hun & Hset). split.
      * intros i f Hf Hp. destruct (decide (i = t)) as [->|Hne].
        -- rewrite list_lookup_alter_eq, Hft' in Hf. injection Hf as <-.
           simpl in Hp. congruence.
        -- rewrite list_lookup_alter_ne in Hf by auto. eauto.
      * intros i f Hf Hp Hi. assert (Hne : i <> t) by tauto.
        rewrite list_lookup_alter_ne in Hf by auto.
        eapply settled_preserved; [eapply Hset; eassumption| |].
        -- intros k b. apply findFrom_alter. intros; split; reflexivity.
        -- intros k g Hk Hg _.
           rewrite list_lookup_alter_ne by (intros E; apply Hk; right; congruence).
           exact Hg.
    + intros b jb Hb Hjb. rewrite Hfind' in Hjb.
      apply elem_of_app in Hb as [Hb|Hb].
      * destruct (Hdone b jb Hb Hjb) as (Hne & HXb & g & Hg & Hpg).
        split; [exact Hne|]. split; [exact HXb|]. exists g.
        rewrite list_lookup_alter_ne by auto.
        split; [eapply evolves_processed; eassumption|exact Hpg].
      * apply list_elem_of_singleton in Hb as ->.
        assert (jb = j) as -> by congruence.
        split; [exact Hjne|]. split; [exact HjX|]. exists fj.
        rewrite list_lookup_alter_ne by auto. auto.
Qed.
End Acyclic.

Lemma getDeepestStackUsage_acyclic (R : relation nat) fuel :
  (forall i, ~ tc R i i) ->
  forall t s v s' (X : nat -> Prop),
  getDeepestStackUsage fuel t s = Some (v, s') ->
  (forall i k, calleeOf (functions s) i k -> R i k) -> (forall x, X x -> tc R x t) ->
  acyclic_inv X (functions s) -> acyclic_inv X (functions s').
Proof.
  intros HR.
  induction fuel as [|fuel IH]; intros t s v s' X Hrun Hrank HX Hinv; [discriminate|].
  rewrite getDeepestStackUsage_S in Hrun.
  destruct (functions s !! t) as [f|] eqn:Hf; bind_in Hrun; [|discriminate].
  destruct (isProcessed f) eqn:Hp.
  - injection Hrun as <- <-. exact Hinv.
  - destruct (forEachJump _ _ _ _) as [s2|] eqn:Hloop; bind_in Hrun; [|discriminate].
    destruct Hinv as (Hun & Hset).
    assert (HtX : ~ X t) by (intros Hx; apply HX in Hx; exact (HR t Hx)).
    eapply (forEachJump_acyclic R HR _ (getDeepestStackUsage_post fuel) IH t s f X) in Hloop;
      try eassumption.
    + destruct Hloop as (Hev & (f2 & Hf2 & Hp2 & Hd2) & (Hun2 & Hset2) & Htargets).
      erewrite lookup_update_eq in Hrun by eassumption. bind_in Hrun.
      injection Hrun as <- <-. rewrite functions_update.
      set (fin := fun f0 => set_deepest (wrap32 (deepest f0 + ownStack f0)) f0).
      assert (Hfind : forall i b, findFrom (alter fin t (functions s2)) i b =
                                  findFrom (functions s2) i b).
      { intros i b. apply findFrom_alter. intros; split; reflexivity. }
      assert (Hj : jumpsTo f2 = jumpsTo f).
      { destruct (evolves_lookup _ _ _ _ Hev Hf) as (x & Hx & (_ & _ & _ & _ & E & _) & _).
        congruence. }
      split.
      * intros i g Hg Hpg. destruct (decide (i = t)) as [->|Hne].
        -- rewrite list_lookup_alter_eq, Hf2 in Hg. injection Hg as <-. simpl in Hpg. congruence.
        -- rewrite list_lookup_alter_ne in Hg by auto. eauto.
      * intros i g Hg Hpg Hi. destruct (decide (i = t)) as [->|Hne].
        -- rewrite list_lookup_alter_eq, Hf2 in Hg. injection Hg as <-. split.
           ++ cbn [fin deepest set_deepest ownStack jumpsTo]. rewrite Hd2, Hj.
              f_equal. f_equal. unfold maximum. f_equal. apply map_ext_in. intros b Hb.
              symmetry. apply deepestOfTarget_agree; [exact Hfind|].
              intros jb Hjb. destruct (Htargets b jb) as (Hne & _);
                [apply list_elem_of_In; exact Hb|exact Hjb|].
              apply list_lookup_alter_ne. auto.
           ++ cbn [fin jumpsTo set_deepest]. rewrite Hj. intros b jb Hb Hjb.
              rewrite Hfind in Hjb.
              destruct (Htargets b jb Hb Hjb) as (Hne & HXb & g & Hg & Hpg').
              split; [exact HXb|]. exists g. rewrite list_lookup_alter_ne by auto. auto.
        -- rewrite list_lookup_alter_ne in Hg by auto.
           apply (settled_weaken X (fun x => X x \/ x = t)); [tauto|].
           eapply settled_preserved; [eapply Hset2; [eassumption..|tauto]|exact Hfind|].
           intros k g' Hk Hg' _.
           rewrite list_lookup_alter_ne by (intros E; apply Hk; right; congruence).
           exact Hg'.
    + split; [eapply evolves_update; eauto using evolves_refl, static_set_isProcessed|].
      rewrite functions_update.
      assert (Hfind : forall i b, findFrom (alter (set_isProcessed true) t (functions s)) i b =
                                  findFrom (functions s) i b).
      { intros i b. apply findFrom_alter. intros; split; reflexivity. }
      split; [|split; [split|]].
      * exists (set_isProcessed true f). rewrite list_lookup_alter_eq, Hf.
        split; [reflexivity|]. split; [reflexivity|]. simpl. eauto.
      * intros i g Hg Hpg. destruct (decide (i = t)) as [->|Hne].
        -- rewrite list_lookup_alter_eq, Hf in Hg. injection Hg as <-. discriminate.
        -- rewrite list_lookup_alter_ne in Hg by auto. eauto.
      * intros i g Hg Hpg Hi. assert (Hne : i <> t) by tauto.
        rewrite list_lookup_alter_ne in Hg by auto.
        eapply settled_preserved; [|exact Hfind|].
        -- apply (settled_strengthen X); [eapply Hset; [eassumption..|tauto]|].
           intros k g' Hg' Hpg' Hk [Hx| ->]; [tauto|congruence].
        -- intros k g' Hk Hg' _.
           rewrite list_lookup_alter_ne by (intros E; apply Hk; right; congruence).
           exact Hg'.
      * intros b jb Hb. inversion Hb.
Qed.

Lemma resolveFrom_acyclic (R : relation nat) todo :
  (forall i, ~ tc R i i) ->
  forall current s s',
  resolveFrom todo current s = Some s' ->
  (forall i k, calleeOf (functions s) i k -> R i k) ->
  acyclic_inv (fun _ => False) (functions s) ->
  acyclic_inv (fun _ => False) (functions s').
Proof.
  intros HR.
  induction todo as [|todo IH]; intros current s s' Hrun Hrank Hinv.
  - injection Hrun as <-. exact Hinv.
  - rewrite resolveFrom_S in Hrun.
    destruct (getDeepestStackUsage _ current s) as [[v s1]|] eqn:Hcall; bind_in Hrun;
      [|discriminate].
    cbn [snd] in Hrun.
    destruct (getDeepestStackUsage_post _ _ _ _ _ Hcall) as (Hev1 & _ & _).
    eapply IH; [exact Hrun| |].
    + intros i k Hik. apply Hrank. eapply calleeOf_evolves; eassumption.
    + eapply getDeepestStackUsage_acyclic; [exact HR|exact Hcall|exact Hrank|tauto|exact Hinv].
Qed.

Lemma chain_ranked (a b : functionInfo) :
  jumpsTo a = [512] -> jumpsTo b = [] -> findFrom [a; b] 0 512 = Some 1%nat ->
  ranked (fun i => (2 - i)%nat) [a; b].
Proof.
  intros Ha Hb Hfind i j (f & x & Hf & Hx & Hj). destruct i as [|[|i]]; simpl in Hf.
  - injection Hf as <-. rewrite Ha in Hx. apply list_elem_of_singleton in Hx as ->.
    rewrite Hfind in Hj. injection Hj as <-. simpl. lia.
  - injection Hf as <-. rewrite Hb in Hx. inversion Hx.
  - discriminate.
Qed.

(** C2, amended. In an acyclic call graph every record ends the pass with
    [deepest] equal to its [ownStack] plus the largest [deepest] among the
    records its edges resolve to (nothing to add when it has no edge),
    reduced modulo [2^32]; the reduction does nothing when that sum is below
    [2^32]. For [A] (frame 16, one call to [B]) and [B] (frame 8, no call)
    the values are 24 and 8. *)
Theorem acyclic_deepest_own_plus_max :
  (forall s, Forall unresolved (functions s) -> acyclic (functions s) ->
     exists s', resolveAll s = Some s' /\
       forall i f, functions s' !! i = Some f ->
         let callees := maximum (map (deepestOfTarget (functions s')) (jumpsTo f)) in
         deepest f = wrap32 (ownStack f + callees) /\
         (0 <= ownStack f -> ownStack f + callees < 2 ^ 32 -> deepest f = ownStack f + callees)) /\
  (fun s' => map deepest (functions s')) <$> resolveAll chainAB = Some [24; 8].
Proof.
  split; [|vm_compute; reflexivity].
  intros s Hfresh Hacyclic.
  destruct (resolveAll_total s) as (s' & Hres & Hall & Hev & _).
  exists s'. split; [exact Hres|]. intros i f Hf callees.
  destruct (resolveFrom_acyclic (calleeOf (functions s)) _ Hacyclic _ _ _ Hres) as (_ & Hset);
    [auto|..].
  { split.
    - intros k g Hg _. exact (proj2 (Forall_lookup_1 _ _ _ _ Hfresh Hg)).
    - intros k g Hg Hp. pose proof (Forall_lookup_1 _ _ _ _ Hfresh Hg) as (E & _). congruence. }
  pose proof (Forall_lookup_1 _ _ _ _ Hall Hf) as Hp. simpl in Hp.
  destruct (Hset i f Hf Hp) as (Heq & _); [tauto|].
  assert (E : deepest f = wrap32 (ownStack f + callees)).
  { rewrite Heq. f_equal. subst callees. lia. }
  split; [exact E|]. intros Hown Hsmall. rewrite E. unfold wrap32.
  apply Z.mod_small. pose proof (maximum_nonneg (map (deepestOfTarget (functions s')) (jumpsTo f))).
  subst callees. lia.
Qed.

Lemma acyclic_deepest_own_plus_max_witness :
  exists s', resolveAll chainAB = Some s' /\
    forall i f, functions s' !! i = Some f ->
      let callees := maximum (map (deepestOfTarget (functions s')) (jumpsTo f)) in
      deepest f = wrap32 (ownStack f + callees) /\
      (0 <= ownStack f -> ownStack f + callees < 2 ^ 32 -> deepest f = ownStack f + callees).
Proof.
  apply (proj1 acyclic_deepest_own_plus_max chainAB).
  - repeat constructor.
  - apply (ranked_acyclic (fun i => (2 - i)%nat)). apply chain_ranked; reflexivity.
Defined.

(** C2 as stated fails when the sum does not fit 32 bits: an acyclic graph
    whose edges all resolve, and [deepest] of [A] is not [ownStack] of [A]
    plus [deepest] of [B]. *)
Lemma acyclic_sum_wraps :
  Forall unresolved (functions overflowAB) /\ acyclic (functions overflowAB) /\
  Forall (fun f => Forall (fun a => is_Some (findFunctionByAddress overflowAB a)) (jumpsTo f))
    (functions overflowAB) /\
  exists s' f, resolveAll overflowAB = Some s' /\ functions s' !! 0%nat = Some f /\
    deepest f <> ownStack f + maximum (map (deepestOfTarget (functions s')) (jumpsTo f)).
Proof.
  split; [repeat constructor|].
  split; [apply (ranked_acyclic (fun i => (2 - i)%nat)); apply chain_ranked; reflexivity|].
  split; [repeat constructor; vm_compute; eauto|].
  eexists _, _. split; [vm_compute; reflexivity|]. split; [reflexivity|].
  vm_compute. discriminate.
Qed.

(** ** Edges that resolve to no record *)

Lemma same_ranges_refl l : same_ranges l l.
Proof. apply Forall_Forall2_diag, Forall_true. auto. Qed.

Lemma same_ranges_evolves r l l' : same_ranges r l -> evolves l l' -> same_ranges r l'.
Proof.
  intros H. revert l'. induction H as [|f g r l (E1 & E2) _ IH]; intros l' Hev;
    inversion Hev as [|? g' ? l2 ((_ & E3 & E4 & _) & _) Hrest]; subst; constructor.
  - split; congruence.
  - apply IH. exact Hrest.
Qed.

Lemma same_ranges_alter r l g t :
  (forall y, start (g y) = start y /\ end_ (g y) = end_ y) ->
  same_ranges r l -> same_ranges r (alter g t l).
Proof.
  intros Hg H. apply Forall2_alter_r; [exact H|].
  intros x y _ _ (E1 & E2). destruct (Hg y) as (-> & ->). auto.
Qed.

Lemma resolvable_find r s a :
  same_ranges r (functions s) -> resolvable r a = bool_decide (is_Some (findFunctionByAddress s a)).
Proof.
  intros H. unfold resolvable, findFunctionByAddress.
  rewrite (findFrom_same_ranges _ _ H). destruct (findFrom (functions s) 0 a).
  - rewrite bool_decide_eq_true_2; eauto.
  - rewrite bool_decide_eq_false_2; [reflexivity|]. intros [? ?]. discriminate.
Qed.

Section Without.
Variable ranges : list functionInfo.
Variable out : list printed.
Local Abbreviation W := (withoutEdges ranges out).

Lemma find_without s a : findFunctionByAddress (W s) a = findFunctionByAddress s a.
Proof.
  unfold findFunctionByAddress. simpl. symmetry. apply findFrom_same_ranges.
  induction (functions s); constructor; auto.
Qed.

Lemma lookup_without s t : functions (W s) !! t = dropEdges ranges <$> functions s !! t.
Proof. simpl. apply list_lookup_fmap. Qed.

Lemma update_without g t s :
  (forall f, dropEdges ranges (g f) = g (dropEdges ranges f)) ->
  update t g (W s) = W (update t g s).
Proof.
  intros Hg. unfold update, withoutEdges. simpl. f_equal.
  symmetry. apply (list_fmap_alter (dropEdges ranges) g g). apply Forall_true. exact Hg.
Qed.

Lemma printf_without p s : W (printf p s) = W s.
Proof. reflexivity. Qed.

Variables rec rec' : nat -> state -> option (Z * state).
Hypothesis rec_post : forall j s v s', rec j s = Some (v, s') -> call_post j s v s'.
Hypothesis rec_without : forall j s, same_ranges ranges (functions s) ->
  rec' j (W s) = (fun r => (r.1, W r.2)) <$> rec j s.

Lemma forEachJump_without t jumps : forall s,
  same_ranges ranges (functions s) -> (t < length (functions s))%nat ->
  forEachJump rec' t (List.filter (resolvable ranges) jumps) (W s) =
  W <$> forEachJump rec t jumps s.
Proof.
  induction jumps as [|a rest IH]; intros s Hr Ht; [reflexivity|].
  cbn [List.filter forEachJump]. rewrite (resolvable_find _ s a Hr).
  destruct (lookup_lt_is_Some_2 (functions s) t Ht) as [f Hf].
  destruct (findFunctionByAddress s a) as [j|] eqn:Hfind.
  - rewrite bool_decide_eq_true_2 by eauto. cbn [forEachJump].
    rewrite find_without, Hfind, (rec_without _ _ Hr).
    destruct (rec j s) as [[v s']|] eqn:Hrec; [|reflexivity].
    cbn [fmap option_fmap option_map mbind option_bind fst snd].
    destruct (rec_post _ _ _ _ Hrec) as (Hev & _ & _).
    pose proof (evolves_length _ _ Hev) as Hlen.
    destruct (lookup_lt_is_Some_2 (functions s') t) as [f' Hf']; [lia|].
    rewrite lookup_without, Hf'. cbn [fmap option_fmap option_map mbind option_bind].
    change (deepest (dropEdges ranges f')) with (deepest f').
    pose proof (same_ranges_evolves _ _ _ Hr Hev) as Hr'.
    destruct (v >? deepest f').
    + rewrite update_without by reflexivity. apply IH.
      * rewrite functions_update. apply same_ranges_alter; [intros; split; reflexivity|exact Hr'].
      * rewrite functions_update, length_alter. lia.
    + apply IH; [exact Hr'|lia].
  - rewrite bool_decide_eq_false_2 by (intros [? ?]; discriminate).
    rewrite Hf. cbn [mbind option_bind].
    rewrite <- (printf_without (JumpTargetNotFound (name f) a) s). apply IH; assumption.
Qed.
End Without.

Lemma getDeepestStackUsage_without ranges out fuel : forall t s,
  same_ranges ranges (functions s) ->
  getDeepestStackUsage fuel t (withoutEdges ranges out s) =
  (fun r => (r.1, withoutEdges ranges out r.2)) <$> getDeepestStackUsage fuel t s.
Proof.
  induction fuel as [|fuel IH]; intros t s Hr; [reflexivity|].
  rewrite !getDeepestStackUsage_S, lookup_without.
  destruct (functions s !! t) as [f|] eqn:Hf; [|reflexivity].
  cbn [fmap option_fmap option_map mbind option_bind].
  change (isProcessed (dropEdges ranges f)) with (isProcessed f).
  destruct (isProcessed f) eqn:Hp; [reflexivity|].
  change (jumpsTo (dropEdges ranges f)) with (List.filter (resolvable ranges) (jumpsTo f)).
  rewrite update_without by reflexivity.
  rewrite (forEachJump_without ranges out _ _ (getDeepestStackUsage_post fuel) (IH)).
  - destruct (forEachJump _ t (jumpsTo f) _) as [s2|] eqn:Hloop; [|reflexivity].
    cbn [fmap option_fmap option_map mbind option_bind].
    rewrite update_without by reflexivity. rewrite lookup_without.
    destruct (functions (update t _ s2) !! t) as [t3|]; reflexivity.
  - rewrite functions_update. apply same_ranges_alter; [intros; split; reflexivity|exact Hr].
  - rewrite functions_update, length_alter. eapply lookup_lt_Some. exact Hf.
Qed.

Lemma unprocessed_without ranges l : unprocessed (map (dropEdges ranges) l) = unprocessed l.
Proof. induction l as [|f l IH]; simpl; [reflexivity|]. rewrite IH. reflexivity. Qed.

Lemma resolveFrom_without ranges out todo : forall current s,
  same_ranges ranges (functions s) ->
  resolveFrom todo current (withoutEdges ranges out s) =
  withoutEdges ranges out <$> resolveFrom todo current s.
Proof.
  induction todo as [|todo IH]; intros current s Hr; [reflexivity|].
  rewrite !resolveFrom_S. cbn [functions withoutEdges].
  rewrite unprocessed_without.
  change (mkState (map (dropEdges ranges) (functions s)) out) with (withoutEdges ranges out s).
  rewrite (getDeepestStackUsage_without _ _ _ _ _ Hr).
  destruct (getDeepestStackUsage _ current s) as [[v s1]|] eqn:Hcall; [|reflexivity].
  cbn [fmap option_fmap option_map mbind option_bind fst snd].
  apply IH. destruct (getDeepestStackUsage_post _ _ _ _ _ Hcall) as (Hev & _).
  eapply same_ranges_evolves; eassumption.
Qed.

(** C7. An edge whose target lies in no record's range makes the loop print
    the diagnostic with the name of the calling function and the target
    address, leaves every record as it is and goes on with the next edge.
    The values a call or the whole pass computes are those it computes on
    the same records with all such edges absent (where nothing is printed).
    A function of frame 16 whose only edge is of that kind gets
    [deepest = 16] and the diagnostic is printed. *)
Theorem unresolved_target_is_skipped :
  (forall rec t a rest s f,
     findFunctionByAddress s a = None -> functions s !! t = Some f ->
     forEachJump rec t (a :: rest) s =
     forEachJump rec t rest (printf (JumpTargetNotFound (name f) a) s)) /\
  (forall fuel t s,
     getDeepestStackUsage fuel t (withoutUnresolvable s) =
     (fun r => (r.1, withoutEdges (functions s) (stdout s) r.2)) <$>
       getDeepestStackUsage fuel t s) /\
  (forall s,
     resolveAll (withoutUnresolvable s) =
     withoutEdges (functions s) (stdout s) <$> resolveAll s) /\
  resolveAll callsNowhere =
    Some (mkState [ mkFunctionInfo "A" 256 268 16 16 [4096] false true ]
                  [ JumpTargetNotFound "A" 4096 ]).
Proof.
  split; [|split; [|split]].
  - intros rec t a rest s f Hfind Hf. cbn [forEachJump]. rewrite Hfind, Hf. reflexivity.
  - intros fuel t s. apply getDeepestStackUsage_without. apply same_ranges_refl.
  - intros s. unfold resolveAll, withoutUnresolvable. cbn [functions withoutEdges].
    rewrite length_map. apply resolveFrom_without. apply same_ranges_refl.
  - vm_compute. reflexivity.
Qed.

Lemma unresolved_target_is_skipped_witness :
  findFunctionByAddress callsNowhere 4096 = None /\
  forEachJump (getDeepestStackUsage 1) 0 [4096] callsNowhere =
  forEachJump (getDeepestStackUsage 1) 0 [] (printf (JumpTargetNotFound "A" 4096) callsNowhere).
Proof.
  split; [reflexivity|].
  apply (proj1 unresolved_target_is_skipped (getDeepestStackUsage 1) 0%nat 4096 [] callsNowhere
           (mkFunctionInfo "A" 256 268 16 0 [4096] false false)); reflexivity.
Defined.

(** ** Re-entering an activation in progress *)












(** ** Ranking *)

Example sortForDeepest_try : map name <$> sortForDeepest ranking = Some ["c"; "e"; "b"; "d"; "a"]%string.
Proof. vm_compute. reflexivity. Qed.

Example sortForOwn_try : map name <$> sortForOwn ranking = Some ["b"; "d"; "e"; "a"; "c"]%string.
Proof. vm_compute. reflexivity. Qed.

Lemma innerLoop_bubble key n : forall c l,
  innerLoop key n (c :: l) = cons c <$> bubble key n l.
Proof.
  induction n as [|n IH]; intros c l; [reflexivity|].
  cbn [innerLoop bubble]. destruct l as [|x [|y rest]]; try reflexivity.
  destruct (key x <? key y); rewrite IH; reflexivity.
Qed.

Lemma pass_bubble key i l : pass key (S i) l = bubble key (S i) l.
Proof.
  unfold pass. replace (S i - 1)%nat with i by lia.
  destruct l as [|x [|y rest]]; try reflexivity. cbn [swapFirst bubble].
  destruct (key x <? key y); cbn [mbind option_bind]; apply innerLoop_bubble.
Qed.

Lemma withKey_swap key k x y l :
  key x <> key y -> withKey key k (y :: x :: l) = withKey key k (x :: y :: l).
Proof.
  intros Hne. unfold withKey. cbn [List.filter].
  destruct (Z.eqb_spec (key x) k), (Z.eqb_spec (key y) k); congruence.
Qed.

Lemma withKey_cons key k x l l' :
  withKey key k l' = withKey key k l -> withKey key k (x :: l') = withKey key k (x :: l).
Proof. unfold withKey. cbn [List.filter]. intros ->. reflexivity. Qed.

(** A pass over the whole list carries a record of least key to the end,
    and never lets a record overtake one of the same key. *)
Lemma bubble_carry key : forall rest x,
  exists q m, bubble key (length rest) (x :: rest) = Some (q ++ [m]) /\
    key m <= key x /\ Forall (fun y => key m <= key y) q /\
    Permutation (x :: rest) (q ++ [m]) /\
    forall k, withKey key k (q ++ [m]) = withKey key k (x :: rest).
Proof.
  induction rest as [|y rest IH]; intros x.
  - exists [], x. repeat split; auto. lia.
  - cbn [length bubble]. destruct (Z.ltb_spec (key x) (key y)) as [Hlt|Hge].
    + destruct (IH x) as (q & m & -> & Hm & Hq & Hperm & Hkeys).
      exists (y :: q), m. split; [reflexivity|]. split; [lia|].
      split; [constructor; [lia|exact Hq]|]. split.
      * rewrite perm_swap. cbn [app]. constructor. exact Hperm.
      * intros k. rewrite <- (withKey_swap key k x y) by lia.
        cbn [app]. apply withKey_cons. apply Hkeys.
    + destruct (IH y) as (q & m & -> & Hm & Hq & Hperm & Hkeys).
      exists (x :: q), m. split; [reflexivity|]. split; [lia|].
      split; [constructor; [lia|exact Hq]|]. split.
      * cbn [app]. constructor. exact Hperm.
      * intros k. cbn [app]. apply withKey_cons. apply Hkeys.
Qed.

(** The records after the first [n + 1] are not looked at. *)
Lemma bubble_app key n : forall p s,
  length p = S n -> bubble key n (p ++ s) = (fun q => q ++ s) <$> bubble key n p.
Proof.
  induction n as [|n IH]; intros p s Hlen; [reflexivity|].
  destruct p as [|x [|y r]]; try discriminate. cbn [app bubble].
  destruct (key x <? key y).
  - change (x :: r ++ s) with ((x :: r) ++ s).
    rewrite (IH (x :: r) s) by (simpl in *; lia).
    destruct (bubble key n (x :: r)); reflexivity.
  - change (y :: r ++ s) with ((y :: r) ++ s).
    rewrite (IH (y :: r) s) by (simpl in *; lia).
    destruct (bubble key n (y :: r)); reflexivity.
Qed.

Lemma withKey_app key k l1 l2 : withKey key k (l1 ++ l2) = withKey key k l1 ++ withKey key k l2.
Proof. apply List.filter_app. Qed.

Lemma passes_sorted key : forall i p s,
  length p = S i -> descending key s ->
  (forall x y, In x p -> In y s -> key y <= key x) ->
  exists l', passes key i (p ++ s) = Some l' /\ descending key l' /\
    Permutation (p ++ s) l' /\ forall k, withKey key k l' = withKey key k (p ++ s).
Proof.
  induction i as [|i IH]; intros p s Hlen Hs Hps.
  - destruct p as [|x [|? ?]]; try discriminate. exists (x :: s).
    split; [reflexivity|]. split; [|split; [reflexivity|reflexivity]].
    constructor; [exact Hs|]. destruct s as [|y s]; constructor.
    assert (key y <= key x) by (apply Hps; left; reflexivity). lia.
  - cbn [passes]. rewrite pass_bubble, (bubble_app key (S i) p s Hlen).
    destruct p as [|x rest]; [discriminate|].
    assert (Hrest : length rest = S i) by (simpl in Hlen; lia).
    destruct (bubble_carry key rest x) as (q & m & Hb & Hm & Hq & Hperm & Hkeys).
    rewrite Hrest in Hb. rewrite Hb. cbn [fmap option_fmap option_map mbind option_bind].
    rewrite <- app_assoc. cbn [app].
    assert (Hmp : In m (x :: rest)).
    { eapply Permutation_in; [symmetry; exact Hperm|]. apply in_or_app. right. left. reflexivity. }
    destruct (IH q (m :: s)) as (l' & Hl' & Hsorted & Hperm' & Hkeys').
    + apply Permutation_length in Hperm. rewrite length_app in Hperm. simpl in *. lia.
    + constructor; [exact Hs|]. destruct s as [|y s]; constructor.
      assert (key y <= key m) by (apply Hps; [exact Hmp|left; reflexivity]). lia.
    + intros a b Ha [<-|Hb']; [rewrite Forall_forall in Hq; apply Hq; apply list_elem_of_In; exact Ha|].
      apply Hps; [|exact Hb'].
      eapply Permutation_in; [symmetry; exact Hperm|]. apply in_or_app. left. exact Ha.
    + exists l'. split; [exact Hl'|]. split; [exact Hsorted|]. split.
      * rewrite <- Hperm'. change (m :: s) with ([m] ++ s). rewrite app_assoc.
        apply (Permutation_app_tail s Hperm).
      * intros k. rewrite Hkeys'. change (m :: s) with ([m] ++ s).
        rewrite app_assoc, (withKey_app key k (q ++ [m]) s), Hkeys.
        symmetry. apply (withKey_app key k (x :: rest) s).
Qed.

(** The ranking of a list that is not empty (and of fewer than [2^32]
    records, so that [count] is its length): both sorts return the records
    in descending order of the key, and records of equal key in the order
    they had. *)
Theorem sortBy_stable_descending key l :
  l <> [] -> Z.of_nat (length l) < 2 ^ 32 ->
  exists l', sortBy key l = Some l' /\ descending key l' /\ Permutation l l' /\
    forall k, withKey key k l' = withKey key k l.
Proof.
  intros Hne Hlen. unfold sortBy.
  assert (Hcount : Z.to_nat (wrap32 (wrap32 (Z.of_nat (length l)) - 1)) = (length l - 1)%nat).
  { destruct l as [|x l]; [congruence|]. unfold wrap32.
    rewrite (Z.mod_small (Z.of_nat (length (x :: l)))) by lia.
    rewrite Z.mod_small by (simpl length in *; lia). simpl length. lia. }
  rewrite Hcount.
  destruct (passes_sorted key (length l - 1) l []) as (l' & Hl' & Hsorted & Hperm & Hkeys).
  - destruct l; [congruence|]. simpl. lia.
  - constructor.
  - intros x y _ [].
  - rewrite app_nil_r in *. eauto.
Qed.

Lemma sortBy_stable_descending_witness :
  exists l', sortBy deepest ranking = Some l' /\ descending deepest l' /\
    Permutation ranking l' /\ forall k, withKey deepest k l' = withKey deepest k ranking.
Proof.
  apply (sortBy_stable_descending deepest ranking); [discriminate|vm_compute; reflexivity].
Defined.

Lemma sortBy_nil key : sortBy key [] = None.
Proof.
  unfold sortBy.
  destruct (Z.to_nat (wrap32 (wrap32 (Z.of_nat (length (@nil functionInfo))) - 1))) eqn:E.
  - exfalso. apply (f_equal Z.of_nat) in E. rewrite Z2Nat.id in E by (apply Z.mod_pos_bound; lia).
    vm_compute in E. discriminate.
  - reflexivity.
Qed.

(** ** C library *)

Example strtoul16_try :
  strtoul16 "9d001234 <main+0x10>" = 2634027572 /\ strtoul16 "zzz" = 0 /\
  strtoul16 "  0x1F," = 31 /\ strtol10 "-24" = -24 /\ strtol10 "-99999999999" = -2147483648.
Proof. vm_compute. repeat split. Qed.

(** ** Closing a record *)

Lemma cleanupLoop_spec first last jumps : forall staged,
  Z.of_nat (length staged) <= STAGING_CAPACITY ->
  cleanupLoop first last jumps staged =
  let kept := List.filter (fun target => (target >? last) || (target <? first)) jumps in
  if Z.of_nat (length staged) + Z.of_nat (length kept) <=? STAGING_CAPACITY
  then Some (staged ++ kept) else None.
Proof.
  induction jumps as [|a rest IH]; intros staged Hlen; cbn [cleanupLoop List.filter]; cbn zeta.
  - rewrite app_nil_r. cbn [length].
    destruct (Z.leb_spec (Z.of_nat (length staged) + Z.of_nat 0) STAGING_CAPACITY);
      [reflexivity|lia].
  - destruct ((a >? last) || (a <? first)).
    + destruct (Z.ltb_spec (Z.of_nat (length staged)) STAGING_CAPACITY) as [Hlt|Hge].
      * rewrite IH by (rewrite length_app; simpl; lia). cbn zeta.
        rewrite length_app, <- app_assoc. cbn [length app].
        set (kept := List.filter _ rest).
        destruct (Z.leb_spec (Z.of_nat (length staged + 1) + Z.of_nat (length kept))
                    STAGING_CAPACITY),
                 (Z.leb_spec (Z.of_nat (length staged) + Z.of_nat (S (length kept)))
                    STAGING_CAPACITY); try reflexivity; lia.
      * cbn [length]. set (kept := List.filter _ rest).
        destruct (Z.leb_spec (Z.of_nat (length staged) + Z.of_nat (S (length kept)))
                    STAGING_CAPACITY); [lia|reflexivity].
    + apply IH. exact Hlen.
Qed.

(** C6. Closing a record keeps exactly the targets outside the inclusive
    range of the record, in their recording order, as long as there are at
    most [STAGING_CAPACITY] of them; with more, the copy into the staging
    array runs past its end. *)
Theorem cleanupFunctionInfo_keeps_outside f :
  cleanupFunctionInfo f =
  if Z.of_nat (length (outsideOwnRange f)) <=? STAGING_CAPACITY
  then Some (set_jumpsTo (outsideOwnRange f) f)
  else None.
Proof.
  unfold cleanupFunctionInfo. rewrite cleanupLoop_spec by (unfold STAGING_CAPACITY; simpl; lia).
  cbn zeta. cbn [length app]. fold (outsideOwnRange f). rewrite Z.add_0_l.
  destruct (Z.of_nat (length (outsideOwnRange f)) <=? STAGING_CAPACITY); reflexivity.
Qed.

(** A target is kept exactly when it is outside the range; the start
    address itself is inside. *)
Lemma outsideOwnRange_elem f target :
  In target (outsideOwnRange f) <->
  In target (jumpsTo f) /\ ~ (start f <= target <= end_ f).
Proof.
  unfold outsideOwnRange. rewrite List.filter_In. rewrite orb_true_iff.
  rewrite Z.gtb_lt, Z.ltb_lt. intuition lia.
Qed.

(** C3. The targets of a record are held in arrays of fixed length, and no
    store into them is checked: closing a record with 1001 calls that leave
    its range, or recording a call in a record that holds 10000 targets, is
    a store past the end of the array. A disassembly with 1001 calls in one
    function gets there. *)
Theorem edge_arrays_overflow :
  cleanupFunctionInfo (manyCalls 1000) = Some (manyCalls 1000) /\
  cleanupFunctionInfo (manyCalls 1001) = None /\
  instruction (withTabs "9d000004:|0f400400 |jal|1000 <far>") (manyCalls 9999)
    = Some (set_end 2634022916 (manyCalls 10000)) /\
  instruction (withTabs "9d000004:|0f400400 |jal|1000 <far>") (manyCalls 10000) = None /\
  analyze "d" 10 "" (manyCallsDisassembly 1001) = Some Undefined.
Proof. vm_compute. repeat split. Qed.

(** ** Labels that cannot be parsed *)

Lemma createNewFunctionInfo_null label :
  strchr label "<" = None \/ strchr label ">" = None -> createNewFunctionInfo label = Null.
Proof.
  intros [H|H]; unfold createNewFunctionInfo; rewrite H; [reflexivity|].
  destruct (strchr label "<"); reflexivity.
Qed.

Lemma buildLoop_S fuel b :
  buildLoop (S fuel) b =
  if feof (stream b) then Some (Finished b)
  else
    match currentFunctionInfo b with
    | None => Some (Aborted (console b ++ [SomethingWentWrong]))
    | Some f =>
        let '(read, stream1) := fgets 500 (stream b) in
        let line := filled (inputBuffer b) read in
        if found line sectionString then
          let stream2 := if found line textSectionString then stream1
                         else findNextTextSection stream1 in
          let '(read2, stream3) := fgets 500 stream2 in
          match openNext (filled line read2) f b stream3 with
          | Some b' => buildLoop fuel b'
          | None => Some UndefinedBehaviour
          end
        else
          let plain :=
            match instruction line f with
            | Some f' => buildLoop fuel (mkBuilder stream1 line (closed b) (Some f') (console b))
            | None => Some UndefinedBehaviour
            end in
          if found line labelEndString then
            match strchr line "<" with
            | None => Some UndefinedBehaviour
            | Some position =>
                if firstIs "." (next position) then plain
                else match openNext line f b stream1 with
                     | Some b' => buildLoop fuel b'
                     | None => Some UndefinedBehaviour
                     end
            end
          else plain
    end.
Proof. reflexivity. Qed.

(** With no current record and more to read, the loop gives up. *)
Lemma buildLoop_abort fuel b :
  feof (stream b) = false -> currentFunctionInfo b = None ->
  buildLoop (S fuel) b = Some (Aborted (console b ++ [SomethingWentWrong])).
Proof. intros Heof Hcur. rewrite buildLoop_S, Heof, Hcur. reflexivity. Qed.

(** Where the run does end with the message. A line without [<] or without
    [>] gives no record. When [main] reads such a line as the label of the
    first function (the line that [fgets] returns after
    [findNextTextSection]), or as the label after a section header once
    [cleanupFunctionInfo] has closed the current record, and the
    end-of-file indicator is not set after the line was read, the run prints
    "something went wrong..." and [main] returns [-1]. *)
Theorem unparsable_label_aborts_before_eof :
  (forall label, strchr label "<" = None \/ strchr label ">" = None ->
     createNewFunctionInfo label = Null) /\
  (forall sorting printcount uninitialised disassembly label stream1,
     fgets 500 (findNextTextSection (mkFILE disassembly false)) = (Some label, stream1) ->
     strchr label "<" = None \/ strchr label ">" = None ->
     feof stream1 = false ->
     analyze sorting printcount uninitialised disassembly =
     Some (Returned (-1) [] [SomethingWentWrong])) /\
  (forall fuel b f f' line stream1 label stream3,
     feof (stream b) = false -> currentFunctionInfo b = Some f ->
     fgets 500 (stream b) = (Some line, stream1) ->
     found line sectionString = true ->
     fgets 500 (if found line textSectionString then stream1
                else findNextTextSection stream1) = (Some label, stream3) ->
     cleanupFunctionInfo f = Some f' ->
     strchr label "<" = None \/ strchr label ">" = None ->
     feof stream3 = false ->
     buildLoop (S (S fuel)) b = Some (Aborted (console b ++ [SomethingWentWrong]))).
Proof.
  split; [exact createNewFunctionInfo_null|]. split.
  - intros sorting printcount uninitialised disassembly label stream1 Hread Hlabel Heof.
    unfold analyze. rewrite Hread. cbn [filled].
    rewrite (createNewFunctionInfo_null _ Hlabel).
    change (2 + String.length (content stream1))%nat
      with (S (S (String.length (content stream1)))).
    rewrite buildLoop_abort by first [exact Heof|reflexivity]. reflexivity.
  - intros fuel b f f' line stream1 label stream3 Heof Hcur Hread Hsection Hread2 Hclean
      Hlabel Heof3.
    rewrite buildLoop_S, Heof, Hcur, Hread. cbn [filled]. rewrite Hsection.
    cbn zeta. rewrite Hread2. cbn [filled]. unfold openNext. rewrite Hclean.
    cbn [mbind option_bind]. rewrite (createNewFunctionInfo_null _ Hlabel).
    rewrite buildLoop_abort by first [exact Heof3|reflexivity]. reflexivity.
Qed.

Lemma unparsable_label_aborts_before_eof_witness :
  analyze "d" 10 "" unparsableFirstLabel = Some (Returned (-1) [] [SomethingWentWrong]).
Proof.
  eapply (proj1 (proj2 unparsable_label_aborts_before_eof)).
  - vm_compute. reflexivity.
  - left. vm_compute. reflexivity.
  - reflexivity.
Defined.

(** A line without [<] and [>] that ends the input, read as the label after
    a section header: no record is made of it, and the run ends as usual,
    without the message and with [0]. *)
Lemma unparsable_last_label_is_not_fatal :
  createNewFunctionInfo "garbage" = Null /\
  analyze "d" 10 "" unparsableLastLabel =
  Some (Returned 0
          [ mkFunctionInfo "main" 2634022912 2634022912 24 24 [] false true ]
          [ TableHeader; TableRule; TableRow "main" 24 24 false; Done ]).
Proof. split; vm_compute; reflexivity. Qed.

Lemma createNewFunctionInfo_undefined label opening closing :
  strchr label "<" = Some opening -> strchr label ">" = Some closing ->
  (String.length opening <= String.length closing)%nat ->
  createNewFunctionInfo label = UndefinedName.
Proof.
  intros Ho Hc Hlen. unfold createNewFunctionInfo. rewrite Ho, Hc.
  destruct (Nat.ltb_spec (String.length closing) (String.length opening)); [lia|reflexivity].
Qed.

(** C8. A line that starts a function and cannot be parsed does not always
    end the run with the message and [-1]. A label line inside a section
    (a line with [>:]) that has no [<] is read at [strchr(...) + 1] of a
    null result; a label whose first [>] does not stand after its first [<],
    inside a section or as the label of the first function, gives
    [createNewFunctionInfo] a negative length for the name. Both are
    undefined behaviour where the run should end with the message, as on
    the listings [labelWithoutOpening], [labelClosedBeforeOpened] and
    [firstLabelClosedBeforeOpened]. On [unparsableLastLabel], where the
    line ends the input, the run ends with the table and [0]. *)
Theorem unparsable_label_is_undefined_or_unnoticed :
  (forall fuel b f line stream1,
     feof (stream b) = false -> currentFunctionInfo b = Some f ->
     fgets 500 (stream b) = (Some line, stream1) ->
     found line sectionString = false -> found line labelEndString = true ->
     strchr line "<" = None ->
     buildLoop (S fuel) b = Some UndefinedBehaviour) /\
  (forall label opening closing,
     strchr label "<" = Some opening -> strchr label ">" = Some closing ->
     (String.length opening <= String.length closing)%nat ->
     createNewFunctionInfo label = UndefinedName) /\
  (forall fuel b f line stream1 opening closing,
     feof (stream b) = false -> currentFunctionInfo b = Some f ->
     fgets 500 (stream b) = (Some line, stream1) ->
     found line sectionString = false -> found line labelEndString = true ->
     strchr line "<" = Some opening -> firstIs "." (next opening) = false ->
     strchr line ">" = Some closing ->
     (String.length opening <= String.length closing)%nat ->
     buildLoop (S fuel) b = Some UndefinedBehaviour) /\
  (forall sorting printcount uninitialised disassembly label stream1 opening closing,
     fgets 500 (findNextTextSection (mkFILE disassembly false)) = (Some label, stream1) ->
     strchr label "<" = Some opening -> strchr label ">" = Some closing ->
     (String.length opening <= String.length closing)%nat ->
     analyze sorting printcount uninitialised disassembly = Some Undefined) /\
  analyze "d" 10 "" labelWithoutOpening = Some Undefined /\
  analyze "d" 10 "" labelClosedBeforeOpened = Some Undefined /\
  analyze "d" 10 "" firstLabelClosedBeforeOpened = Some Undefined /\
  analyze "d" 10 "" unparsableLastLabel =
    Some (Returned 0
            [ mkFunctionInfo "main" 2634022912 2634022912 24 24 [] false true ]
            [ TableHeader; TableRule; TableRow "main" 24 24 false; Done ]).
Proof.
  split; [|split; [|split; [|split]]].
  - intros fuel b f line stream1 Heof Hcur Hread Hsection Hlabel Hopen.
    rewrite buildLoop_S, Heof, Hcur, Hread. cbn [filled]. cbv zeta.
    rewrite Hsection, Hlabel, Hopen. reflexivity.
  - exact createNewFunctionInfo_undefined.
  - intros fuel b f line stream1 opening closing Heof Hcur Hread Hsection Hlabel Hopen Hdot
      Hclose Hlen.
    rewrite buildLoop_S, Heof, Hcur, Hread. cbn [filled]. cbv zeta.
    rewrite Hsection, Hlabel, Hopen, Hdot. unfold openNext.
    rewrite (createNewFunctionInfo_undefined _ _ _ Hopen Hclose Hlen).
    destruct (cleanupFunctionInfo f); reflexivity.
  - intros sorting printcount uninitialised disassembly label stream1 opening closing Hread
      Hopen Hclose Hlen.
    unfold analyze. rewrite Hread. cbn [filled].
    rewrite (createNewFunctionInfo_undefined _ _ _ Hopen Hclose Hlen). reflexivity.
  - repeat split; vm_compute; reflexivity.
Qed.

Lemma unparsable_label_is_undefined_or_unnoticed_witness :
  analyze "d" 10 "" firstLabelClosedBeforeOpened = Some Undefined.
Proof.
  eapply (proj1 (proj2 (proj2 (proj2 unparsable_label_is_undefined_or_unnoticed)))).
  - vm_compute. reflexivity.
  - vm_compute. reflexivity.
  - vm_compute. reflexivity.
  - vm_compute. lia.
Defined.

(** ** Transfers without a literal target *)

Lemma prefix_strrchr c : forall n p,
  String.prefix n p = true -> is_Some (strrchr n c) -> is_Some (strrchr p c).
Proof.
  induction n as [|a n IH]; intros p Hpre Hn; [destruct Hn; discriminate|].
  destruct p as [|b p]; [discriminate|]. cbn [String.prefix] in Hpre.
  destruct (ascii_dec a b) as [<-|]; [|discriminate].
  cbn [strrchr] in *. destruct (strrchr n c) eqn:En.
  - destruct (IH p Hpre) as [r Hr]; [eauto|]. rewrite Hr. eauto.
  - destruct (strrchr p c); [eauto|]. destruct (Ascii.eqb a c); [eauto|exact Hn].
Qed.

Lemma strstr_strrchr c needle : forall haystack,
  is_Some (strstr haystack needle) -> is_Some (strrchr needle c) ->
  is_Some (strrchr haystack c).
Proof.
  induction haystack as [|a h IH]; intros Hfound Hn.
  - cbn [strstr] in Hfound. destruct (String.prefix needle EmptyString) eqn:Hpre.
    + eapply prefix_strrchr; eassumption.
    + destruct Hfound; discriminate.
  - cbn [strstr] in Hfound. destruct (String.prefix needle (String a h)) eqn:Hpre.
    + eapply prefix_strrchr; eassumption.
    + cbn [strrchr]. destruct (IH Hfound Hn) as [r ->]. eauto.
Qed.

Lemma found_tab line :
  found line branchString || found line jumpString = true -> is_Some (strrchr line tab).
Proof.
  unfold found. intros H. apply orb_true_iff in H as [H|H]; apply bool_decide_eq_true in H;
    (eapply strstr_strrchr; [exact H|vm_compute; eauto]).
Qed.

Lemma strtoul16_no_literal s : noHexLiteral s -> strtoul16 s = 0.
Proof.
  unfold noHexLiteral, strtoul16. destruct (readSign (skipSpace s)) as [negative s1].
  cbn [snd]. intros H.
  assert (E : readDigits 16 (skipHexPrefix s1) 0 = 0).
  { destruct (skipHexPrefix s1) as [|c rest]; [reflexivity|]. cbn [readDigits]. rewrite H.
    reflexivity. }
  rewrite E. destruct negative; reflexivity.
Qed.

(** C9, amended. A line that holds [" \tb"] or [" \tj"], and is neither a
    return, nor an indirect call, nor an indirect jump, always records an
    edge: its target is what [strtoul] reads in base 16 after the last comma
    of the line, or after the last tab when there is no comma, and that is
    [0] when no hexadecimal literal stands there. The loop goes on with the
    next line. *)
Theorem transfer_without_literal_records_edge :
  (forall line f,
     strstr line stackPointerString = None ->
     found line branchString || found line jumpString = true ->
     found line returnString = false -> found line indirectCallString = false ->
     found line indirectJumpString = false ->
     Z.of_nat (length (jumpsTo f)) < JUMPS_CAPACITY ->
     exists position,
       (strrchr line "," = Some position \/
        strrchr line "," = None /\ strrchr line tab = Some position) /\
       instruction line f =
       Some (set_jumpsTo (jumpsTo f ++ [wrap32 (strtoul16 (next position))]) (extended line f)) /\
       (noHexLiteral (next position) ->
        instruction line f = Some (set_jumpsTo (jumpsTo f ++ [0]) (extended line f)))) /\
  (forall fuel b f f' line stream1,
     feof (stream b) = false -> currentFunctionInfo b = Some f ->
     fgets 500 (stream b) = (Some line, stream1) ->
     found line sectionString = false -> found line labelEndString = false ->
     instruction line f = Some f' ->
     buildLoop (S fuel) b =
     buildLoop fuel (mkBuilder stream1 line (closed b) (Some f') (console b))).
Proof.
  split.
  - intros line f Hsp Hbj Hret Hcall Hjump Hcap.
    destruct (found_tab line Hbj) as [ptab Htab].
    assert (Hpos : exists position,
              (strrchr line "," = Some position \/
               strrchr line "," = None /\ strrchr line tab = Some position) /\
              match strrchr line "," with Some p => Some p | None => strrchr line tab end
              = Some position).
    { destruct (strrchr line ",") as [p|]; [exists p|exists ptab]; auto. }
    destruct Hpos as (position & Hwhere & Hposition). exists position.
    split; [exact Hwhere|].
    assert (E : instruction line f =
      Some (set_jumpsTo (jumpsTo f ++ [wrap32 (strtoul16 (next position))]) (extended line f))).
    { unfold instruction. fold (extended line f). rewrite Hsp, Hbj, Hret, Hcall, Hjump, Hposition.
      cbn [mbind option_bind].
      replace (jumpsTo (extended line f)) with (jumpsTo f)
        by (unfold extended; destruct (_ >? _); reflexivity).
      destruct (Z.ltb_spec (Z.of_nat (length (jumpsTo f))) JUMPS_CAPACITY); [reflexivity|lia]. }
    split; [exact E|]. intros Hno. rewrite E, (strtoul16_no_literal _ Hno). reflexivity.
  - intros fuel b f f' line stream1 Heof Hcur Hread Hsection Hlabel Hinstr.
    rewrite buildLoop_S, Heof, Hcur, Hread. cbn [filled]. rewrite Hsection, Hlabel, Hinstr.
    reflexivity.
Qed.

Lemma transfer_without_literal_records_edge_witness :
  exists position,
    (strrchr branchNowhere "," = Some position \/
     strrchr branchNowhere "," = None /\ strrchr branchNowhere tab = Some position) /\
    instruction branchNowhere sampleMain =
    Some (set_jumpsTo (jumpsTo sampleMain ++ [wrap32 (strtoul16 (next position))])
            (extended branchNowhere sampleMain)) /\
    (noHexLiteral (next position) ->
     instruction branchNowhere sampleMain =
     Some (set_jumpsTo (jumpsTo sampleMain ++ [0]) (extended branchNowhere sampleMain))).
Proof.
  apply (proj1 transfer_without_literal_records_edge branchNowhere sampleMain);
    vm_compute; reflexivity.
Defined.

(** C9 as stated fails: the branch to no literal adds the edge [0] to the
    record, and the resolver later reports it. *)
Lemma branch_without_literal_is_recorded :
  noHexLiteral "somewhere" /\
  instruction branchNowhere sampleMain =
    Some (mkFunctionInfo "main" 2634022912 2634022916 24 0 [0] false false) /\
  analyze "d" 10 "" branchNowhereDisassembly =
    Some (Returned 0
            [ mkFunctionInfo "main" 2634022912 2634022920 24 24 [0] false true ]
            [ JumpTargetNotFound "main" 0;
              TableHeader; TableRule; TableRow "main" 24 24 false; Done ]).
Proof. split; [|split]; vm_compute; reflexivity. Qed.

(** ** Inputs that reach the defects *)

(** With no record found, the default ranking is asked to sort the empty
    list. *)
Lemma analyze_no_function : analyze "d" 10 "" noFunction = Some Undefined.
Proof.
  unfold analyze.
  replace (fgets 500 (findNextTextSection (mkFILE noFunction false)))
    with (Some "garbage"%string, mkFILE EmptyString true) by (vm_compute; reflexivity).
  cbn [filled].
  replace (createNewFunctionInfo "garbage") with Null by (vm_compute; reflexivity).
  cbn [content String.length Nat.add buildLoop stream feof mbind option_bind
       closed currentFunctionInfo console option_list app].
  change (resolveAll (mkState (option_list None) [])) with (Some (mkState [] [])).
  cbn [mbind option_bind functions].
  unfold sortForDeepest. rewrite sortBy_nil. reflexivity.
Qed.

(** C4 fails on the empty list: [count - 1] wraps to [2^32 - 1], the outer
    loop is entered and reads [firstFunctionInfo->deepest] (or
    [->ownStack]) through the null pointer. The list is empty when the
    disassembly shows no function. *)
Theorem sort_of_no_record_undefined :
  sortForDeepest [] = None /\ sortForOwn [] = None /\
  analyze "d" 10 "" noFunction = Some Undefined.
Proof.
  split; [apply sortBy_nil|]. split; [apply sortBy_nil|]. apply analyze_no_function.
Qed.

Lemma analyze_overflow :
  analyze "x" 10 "" overflowDisassembly =
  Some (Returned 0
          [ mkFunctionInfo "a" 2634022912 2634022916 2147483648 0 [2634022976] false true;
            mkFunctionInfo "b" 2634022976 2634022980 2147483648 2147483648 [] false true ]
          [ TableHeader; TableRule;
            TableRow "a" 2147483648 0 false; TableRow "b" 2147483648 2147483648 false; Done ]).
Proof. vm_compute. reflexivity. Qed.

Lemma analyze_wrap_cycle :
  analyze "x" 10 "" wrapCycleDisassembly =
  Some (Returned 0
          [ mkFunctionInfo "a" 2634022912 2634022920 4294967295 0 [2634022976] false true;
            mkFunctionInfo "b" 2634022976 2634022984 1 1 [2634022912] false true ]
          [ TableHeader; TableRule;
            TableRow "a" 4294967295 0 false; TableRow "b" 1 1 false; Done ]).
Proof. vm_compute. reflexivity. Qed.

(** ** The builder returns *)

Lemma readLine_length n : forall s line rest hit,
  readLine n s = (line, rest, hit) ->
  (String.length rest <= String.length s)%nat /\
  (n <> 0%nat -> s <> EmptyString -> (String.length rest < String.length s)%nat).
Proof.
  induction n as [|n IH]; intros s line rest hit H; cbn [readLine] in H.
  - injection H as <- <- <-. split; [lia|congruence].
  - destruct s as [|c s]; [injection H as <- <- <-; split; [simpl; lia|congruence]|].
    destruct (Ascii.eqb c newline).
    + injection H as <- <- <-. simpl. split; [lia|intros; lia].
    + destruct (readLine n s) as [[line' rest'] hit'] eqn:E. injection H as <- <- <-.
      destruct (IH _ _ _ _ E) as (Hle & _). simpl. split; [lia|intros; lia].
Qed.

Lemma fgets_unread f r f' :
  fgets 500 f = (r, f') ->
  (unread f' <= unread f)%nat /\ (feof f = false -> (unread f' < unread f)%nat).
Proof.
  unfold fgets, unread. destruct (content f) as [|c s] eqn:Ec.
  - intros H. injection H as <- <-. simpl. destruct (feof f); split; intros; lia || congruence.
  - destruct (readLine (500 - 1) (String c s)) as [[line rest] hit] eqn:E.
    intros H. injection H as <- <-. cbn [feof content].
    destruct (readLine_length _ _ _ _ _ E) as (_ & Hlt).
    specialize (Hlt ltac:(discriminate) ltac:(discriminate)).
    destruct (feof f); cbn [orb]; [split; [lia|congruence]|].
    destruct hit; split; intros; lia.
Qed.

Lemma skipSections_unread fuel : forall f buffer,
  (unread (skipSections fuel f buffer) <= unread f)%nat.
Proof.
  induction fuel as [|fuel IH]; intros f buffer; cbn [skipSections]; [lia|].
  destruct (negb (feof f) && negb (String.prefix expectedString buffer)); [|lia].
  destruct (fgets 500 f) as [r f'] eqn:E. destruct (fgets_unread _ _ _ E) as (Hle & _).
  specialize (IH f' (filled buffer r)). lia.
Qed.

Lemma findNextTextSection_unread f : (unread (findNextTextSection f) <= unread f)%nat.
Proof.
  unfold findNextTextSection. destruct (fgets 500 f) as [r f1] eqn:E1.
  destruct (fgets_unread _ _ _ E1) as (H1 & _).
  pose proof (skipSections_unread (2 + String.length (content f1)) f1 (filled EmptyString r)) as H2.
  destruct (fgets 500 (skipSections _ f1 _)) as [r3 f3] eqn:E3.
  destruct (fgets_unread _ _ _ E3) as (H3 & _). cbn [snd]. lia.
Qed.

(** More fuel than there is to read does not change the loop of
    [findNextTextSection]. *)
Lemma skipSections_enough fuel1 : forall fuel2 f buffer,
  (unread f < fuel1)%nat -> (unread f < fuel2)%nat ->
  skipSections fuel1 f buffer = skipSections fuel2 f buffer.
Proof.
  induction fuel1 as [|fuel1 IH]; intros fuel2 f buffer H1 H2; [lia|].
  destruct fuel2 as [|fuel2]; [lia|]. cbn [skipSections].
  destruct (feof f) eqn:Heof; [reflexivity|]. cbn [negb andb].
  destruct (negb (String.prefix expectedString buffer)); [|reflexivity].
  destruct (fgets 500 f) as [r f'] eqn:E. destruct (fgets_unread _ _ _ E) as (_ & Hlt).
  specialize (Hlt Heof). apply IH; lia.
Qed.

Lemma openNext_unread label f b stream' b' :
  openNext label f b stream' = Some b' -> stream b' = stream'.
Proof.
  unfold openNext. destruct (cleanupFunctionInfo f); cbn [mbind option_bind]; [|discriminate].
  destruct (createNewFunctionInfo label); intros H; try discriminate; injection H as <-;
    reflexivity.
Qed.

Lemma buildLoop_total fuel : forall b,
  (unread (stream b) < fuel)%nat -> is_Some (buildLoop fuel b).
Proof.
  induction fuel as [|fuel IH]; intros b Hfuel; [lia|].
  rewrite buildLoop_S. destruct (feof (stream b)) eqn:Heof; [eauto|].
  destruct (currentFunctionInfo b) as [f|]; [|eauto].
  destruct (fgets 500 (stream b)) as [read stream1] eqn:E1.
  destruct (fgets_unread _ _ _ E1) as (_ & H1). specialize (H1 Heof).
  assert (Hplain : is_Some (match instruction (filled (inputBuffer b) read) f with
            | Some f' => buildLoop fuel
                (mkBuilder stream1 (filled (inputBuffer b) read) (closed b) (Some f') (console b))
            | None => Some UndefinedBehaviour end)).
  { destruct (instruction _ f); [|eauto]. apply IH. cbn [stream]. lia. }
  cbn zeta. destruct (found (filled (inputBuffer b) read) sectionString).
  - set (stream2 := if found _ textSectionString then stream1 else findNextTextSection stream1).
    assert (H2 : (unread stream2 <= unread stream1)%nat).
    { subst stream2. destruct (found _ textSectionString); [lia|].
      apply findNextTextSection_unread. }
    destruct (fgets 500 stream2) as [read2 stream3] eqn:E3.
    destruct (fgets_unread _ _ _ E3) as (H3 & _).
    destruct (openNext _ f b stream3) as [b'|] eqn:Hopen; [|eauto].
    apply IH. rewrite (openNext_unread _ _ _ _ _ Hopen). lia.
  - destruct (found _ labelEndString); [|exact Hplain].
    destruct (strchr _ "<"); [|eauto].
    destruct (firstIs "." _); [exact Hplain|].
    destruct (openNext _ f b stream1) as [b'|] eqn:Hopen; [|eauto].
    apply IH. rewrite (openNext_unread _ _ _ _ _ Hopen). lia.
Qed.

(** The model of [main] gives an outcome for every input. *)
Lemma analyze_total sorting printcount uninitialised disassembly :
  is_Some (analyze sorting printcount uninitialised disassembly).
Proof.
  unfold analyze.
  destruct (fgets 500 (findNextTextSection (mkFILE disassembly false))) as [read stream1].
  assert (Hloop : forall first, is_Some (buildLoop (2 + String.length (content stream1))
            (mkBuilder stream1 uninitialised [] first []))).
  { intros first. apply buildLoop_total. cbn [stream]. unfold unread.
    destruct (feof stream1); lia. }
  assert (Hrest : forall first,
    is_Some (r ← buildLoop (2 + String.length (content stream1))
                   (mkBuilder stream1 uninitialised [] first []);
             match r with
             | UndefinedBehaviour => Some Undefined
             | Aborted out => Some (Returned (-1) [] out)
             | Finished b =>
                 s ← resolveAll (mkState (closed b ++ option_list (currentFunctionInfo b))
                                   (console b));
                 match (if Ascii.eqb sorting "o" then sortForOwn (functions s)
                        else if Ascii.eqb sorting "d" then sortForDeepest (functions s)
                        else Some (functions s)) with
                 | None => Some Undefined
                 | Some sorted =>
                     Some (Returned 0 sorted
                             (stdout s ++ TableHeader :: TableRule
                                :: printRows sorted 0 printcount ++ [Done]))
                 end
             end)).
  { intros first. destruct (Hloop first) as [r ->]. cbn [mbind option_bind].
    destruct r as [b| |]; eauto.
    destruct (resolveAll_total (mkState (closed b ++ option_list (currentFunctionInfo b))
                (console b))) as (s & -> & _).
    cbn [mbind option_bind]. destruct (if Ascii.eqb sorting "o" then _ else _); eauto. }
  destruct (createNewFunctionInfo (filled uninitialised read)); eauto.
Qed.

(** ** From the disassembly to the ranking *)

(** A listing as the disassembler writes it: [main] (frame 24) calls
    [helper] (frame 8, one indirect call); the branch of [main] into its own
    range is dropped when the record is closed. *)
Example analyze_sample :
  analyze "d" 10 "" sampleDisassembly =
  Some (Returned 0
          [ mkFunctionInfo "main" 2634022912 2634022932 24 32 [2634022976] false true;
            mkFunctionInfo "helper" 2634022976 2634022988 8 8 [] true true ]
          [ TableHeader; TableRule;
            TableRow "main" 24 32 false; TableRow "helper" 8 8 true; Done ]).
Proof. vm_compute. reflexivity. Qed.

Lemma wrap32_uint32 z : uint32 (wrap32 z).
Proof. unfold uint32, wrap32. apply Z.mod_pos_bound. lia. Qed.

Lemma instruction_asBuilt line f f' :
  instruction line f = Some f' -> asBuilt f -> asBuilt f'.
Proof.
  unfold instruction. set (g := if _ >? end_ f then _ else f).
  assert (Hg : asBuilt f -> asBuilt g) by (subst g; destruct (_ >? _); auto).
  intros H Hf. specialize (Hg Hf). clearbody g.
  destruct (strstr line stackPointerString).
  - injection H as <-. destruct (_ <? 0); [|exact Hg].
    destruct Hg as (Hu & _). split; [exact Hu|apply wrap32_uint32].
  - destruct (_ || _); [|injection H as <-; exact Hg].
    destruct (found line returnString); [injection H as <-; exact Hg|].
    destruct (found line indirectCallString); [injection H as <-; exact Hg|].
    destruct (found line indirectJumpString); [injection H as <-; exact Hg|].
    destruct (match strrchr line "," with Some p => Some p | None => strrchr line tab end);
      cbn [mbind option_bind] in H; [|discriminate].
    destruct (_ <? JUMPS_CAPACITY); [injection H as <-; exact Hg|discriminate].
Qed.

Lemma cleanupFunctionInfo_asBuilt f f' :
  cleanupFunctionInfo f = Some f' -> asBuilt f -> asBuilt f'.
Proof.
  unfold cleanupFunctionInfo. destruct (cleanupLoop _ _ _ _); cbn [mbind option_bind];
    [|discriminate]. intros H. injection H as <-. auto.
Qed.

Lemma createNewFunctionInfo_asBuilt label f :
  createNewFunctionInfo label = Record_ f -> asBuilt f.
Proof.
  unfold createNewFunctionInfo. destruct (strchr label "<"), (strchr label ">"); try discriminate.
  destruct (_ <? _)%nat; [|discriminate]. intros H. injection H as <-.
  split; [split; reflexivity|unfold uint32; simpl; lia].
Qed.

Lemma openNext_asBuilt label f b stream' b' :
  openNext label f b stream' = Some b' ->
  Forall asBuilt (closed b) -> asBuilt f ->
  Forall asBuilt (closed b') /\ (forall g, currentFunctionInfo b' = Some g -> asBuilt g).
Proof.
  unfold openNext. destruct (cleanupFunctionInfo f) as [f'|] eqn:Hclean;
    cbn [mbind option_bind]; [|discriminate].
  intros H Hclosed Hf. pose proof (cleanupFunctionInfo_asBuilt _ _ Hclean Hf) as Hf'.
  destruct (createNewFunctionInfo label) as [new| |] eqn:Hnew; try discriminate;
    injection H as <-; cbn [closed currentFunctionInfo];
    (split; [apply Forall_app; split; [exact Hclosed|constructor; [exact Hf'|constructor]]|]).
  - intros g Hg. injection Hg as <-. eapply createNewFunctionInfo_asBuilt. exact Hnew.
  - discriminate.
Qed.

Lemma buildLoop_asBuilt fuel : forall b b',
  buildLoop fuel b = Some (Finished b') ->
  Forall asBuilt (closed b) -> (forall f, currentFunctionInfo b = Some f -> asBuilt f) ->
  Forall asBuilt (closed b' ++ option_list (currentFunctionInfo b')).
Proof.
  induction fuel as [|fuel IH]; intros b b' Hrun Hclosed Hcur; [discriminate|].
  rewrite buildLoop_S in Hrun. destruct (feof (stream b)).
  - injection Hrun as <-. apply Forall_app. split; [exact Hclosed|].
    destruct (currentFunctionInfo b) as [f|]; [|constructor].
    constructor; [auto|constructor].
  - destruct (currentFunctionInfo b) as [f|]; [|discriminate].
    specialize (Hcur f eq_refl).
    destruct (fgets 500 (stream b)) as [read stream1].
    assert (Hplain : match instruction (filled (inputBuffer b) read) f with
              | Some f' => buildLoop fuel
                  (mkBuilder stream1 (filled (inputBuffer b) read) (closed b) (Some f')
                     (console b))
              | None => Some UndefinedBehaviour end = Some (Finished b') ->
            Forall asBuilt (closed b' ++ option_list (currentFunctionInfo b'))).
    { destruct (instruction _ f) as [f'|] eqn:Hinstr; [|discriminate]. intros H.
      eapply IH; [exact H|exact Hclosed|]. cbn [currentFunctionInfo]. intros g Hg.
      injection Hg as <-. eapply instruction_asBuilt; eassumption. }
    cbn zeta in Hrun. destruct (found (filled (inputBuffer b) read) sectionString).
    + destruct (fgets 500 _) as [read2 stream3].
      destruct (openNext _ f b stream3) as [b1|] eqn:Hopen; [|discriminate].
      destruct (openNext_asBuilt _ _ _ _ _ Hopen Hclosed Hcur). eauto.
    + destruct (found _ labelEndString); [|auto].
      destruct (strchr _ "<"); [|discriminate].
      destruct (firstIs "." _); [auto|].
      destruct (openNext _ f b stream1) as [b1|] eqn:Hopen; [|discriminate].
      destruct (openNext_asBuilt _ _ _ _ _ Hopen Hclosed Hcur). eauto.
Qed.

Lemma totalStack_evolves l l' : evolves l l' -> totalStack l' = totalStack l.
Proof.
  induction 1 as [|f f' l l' ((_ & _ & _ & E & _) & _) _ IH]; simpl; [reflexivity|].
  rewrite IH, E. reflexivity.
Qed.

Lemma totalStack_perm l l' : Permutation l l' -> totalStack l = totalStack l'.
Proof. induction 1; simpl; lia. Qed.

Lemma bubble_perm key n : forall l l', bubble key n l = Some l' -> Permutation l l'.
Proof.
  induction n as [|n IH]; intros l l' H; cbn [bubble] in H.
  - injection H as <-. reflexivity.
  - destruct l as [|x [|y rest]]; try discriminate.
    destruct (key x <? key y).
    + destruct (bubble key n (x :: rest)) as [r|] eqn:E; [|discriminate].
      injection H as <-. rewrite perm_swap. constructor. eauto.
    + destruct (bubble key n (y :: rest)) as [r|] eqn:E; [|discriminate].
      injection H as <-. constructor. eauto.
Qed.

Lemma passes_perm key i : forall l l', passes key i l = Some l' -> Permutation l l'.
Proof.
  induction i as [|i IH]; intros l l' H; cbn [passes] in H.
  - injection H as <-. reflexivity.
  - rewrite pass_bubble in H. destruct (bubble key (S i) l) as [l1|] eqn:E; [|discriminate].
    cbn [mbind option_bind] in H. etrans; [eapply bubble_perm; exact E|eauto].
Qed.

(** The ranking holds the records of the list, each once. *)
Lemma sortBy_perm key l l' : sortBy key l = Some l' -> Permutation l l'.
Proof. apply passes_perm. Qed.

(** What [main] reports: when it returns [0] and the frames it found add
    up to less than [2^32], every record has [deepest] at least
    [ownStack]. *)
Lemma analyze_deepest_ge_own sorting printcount uninitialised disassembly records out :
  analyze sorting printcount uninitialised disassembly = Some (Returned 0 records out) ->
  totalStack records < 2 ^ 32 ->
  Forall (fun f => deepest f >= ownStack f) records.
Proof.
  unfold analyze. intros H Htotal.
  destruct (fgets 500 (findNextTextSection (mkFILE disassembly false))) as [read stream1].
  set (fuel := (2 + String.length (content stream1))%nat) in H.
  assert (Hcore : forall first,
    (forall f, first = Some f -> asBuilt f) ->
    (r ← buildLoop fuel (mkBuilder stream1 uninitialised [] first []);
     match r with
     | UndefinedBehaviour => Some Undefined
     | Aborted out => Some (Returned (-1) [] out)
     | Finished b =>
         s ← resolveAll (mkState (closed b ++ option_list (currentFunctionInfo b)) (console b));
         match (if Ascii.eqb sorting "o" then sortForOwn (functions s)
                else if Ascii.eqb sorting "d" then sortForDeepest (functions s)
                else Some (functions s)) with
         | None => Some Undefined
         | Some sorted =>
             Some (Returned 0 sorted
                     (stdout s ++ TableHeader :: TableRule
                        :: printRows sorted 0 printcount ++ [Done]))
         end
     end) = Some (Returned 0 records out) ->
    Forall (fun f => deepest f >= ownStack f) records).
  { clear H. intros first Hfirst Hrun.
    destruct (buildLoop fuel _) as [[b| |]|] eqn:Hloop; cbn [mbind option_bind] in Hrun;
      try discriminate.
    pose proof (buildLoop_asBuilt _ _ _ Hloop) as Hbuilt.
    cbn [closed currentFunctionInfo] in Hbuilt.
    specialize (Hbuilt ltac:(constructor) Hfirst).
    set (built := closed b ++ option_list (currentFunctionInfo b)) in *.
    destruct (resolveAll_total (mkState built (console b))) as (s & Hres & _ & Hev & _).
    rewrite Hres in Hrun. cbn [mbind option_bind] in Hrun. cbn [functions] in Hev.
    assert (Hperm : Permutation (functions s) records).
    { unfold sortForOwn, sortForDeepest in Hrun.
      destruct (Ascii.eqb sorting "o"); [|destruct (Ascii.eqb sorting "d")].
      - destruct (sortBy ownStack (functions s)) as [sorted|] eqn:Hsort; [|discriminate].
        injection Hrun as <- _. exact (sortBy_perm _ _ _ Hsort).
      - destruct (sortBy deepest (functions s)) as [sorted|] eqn:Hsort; [|discriminate].
        injection Hrun as <- _. exact (sortBy_perm _ _ _ Hsort).
      - injection Hrun as <- _. reflexivity. }
    destruct (resolveAll_deepest_ge_own (mkState built (console b))) as (s' & Hres' & Hall).
    - eapply Forall_impl; [exact Hbuilt|]. intros f (Hu & _). exact Hu.
    - eapply Forall_impl; [exact Hbuilt|]. intros f (_ & Ho). cbn beta. unfold uint32 in Ho. lia.
    - cbn [functions]. rewrite <- (totalStack_evolves _ _ Hev), (totalStack_perm _ _ Hperm).
      exact Htotal.
    - rewrite Hres in Hres'. injection Hres' as <-.
      eapply Permutation_Forall; [exact Hperm|].
      eapply Forall_impl; [exact Hall|]. intros f (_ & Hge). exact Hge. }
  destruct (createNewFunctionInfo (filled uninitialised read)) as [f| |] eqn:Hnew;
    [| |discriminate].
  - eapply Hcore; [|exact H]. intros g Hg. injection Hg as <-.
    eapply createNewFunctionInfo_asBuilt. exact Hnew.
  - eapply Hcore; [|exact H]. discriminate.
Qed.

(** C5, amended. When the frames of all functions add up to less than
    [2^32], every record ends the pass marked and with [deepest] at least its
    [ownStack]; this holds for the records as the builder makes them, so
    every ranking that [main] prints obeys it. *)
Theorem deepest_at_least_own :
  (forall s,
     Forall unresolved (functions s) ->
     Forall (fun f => 0 <= ownStack f) (functions s) ->
     totalStack (functions s) < 2 ^ 32 ->
     exists s', resolveAll s = Some s' /\
       Forall (fun f => isProcessed f = true /\ deepest f >= ownStack f) (functions s')) /\
  (forall sorting printcount uninitialised disassembly records out,
     analyze sorting printcount uninitialised disassembly = Some (Returned 0 records out) ->
     totalStack records < 2 ^ 32 ->
     Forall (fun f => deepest f >= ownStack f) records).
Proof. split; [exact resolveAll_deepest_ge_own|exact analyze_deepest_ge_own]. Qed.

Lemma deepest_at_least_own_witness :
  exists s', resolveAll mutualAB = Some s' /\
    Forall (fun f => isProcessed f = true /\ deepest f >= ownStack f) (functions s').
Proof.
  apply (proj1 deepest_at_least_own mutualAB).
  - repeat constructor.
  - repeat constructor; simpl; lia.
  - vm_compute. reflexivity.
Defined.

(** C5 as stated fails when [deepest += ownStack] wraps: *)
Lemma deepest_below_own_after_wrap :
  exists s' f, resolveAll overflowAB = Some s' /\
    f ∈ functions s' /\ uint32 (ownStack f) /\ ~ deepest f >= ownStack f.
Proof.
  eexists _, (mkFunctionInfo "A" 256 268 2147483648 0 [512] false true).
  split; [vm_compute; reflexivity|]. split; [constructor|].
  split; [unfold uint32; simpl; lia|]. simpl. lia.
Qed.

(** ** Looking a record up by address *)

Lemma findFrom_spec l : forall i a j,
  findFrom l i a = Some j <->
  exists k f, j = (i + k)%nat /\ l !! k = Some f /\ holds f a /\
    forall k' g, (k' < k)%nat -> l !! k' = Some g -> ~ holds g a.
Proof.
  induction l as [|c l IH]; intros i a j; cbn [findFrom].
  - split; [discriminate|]. intros (k & f & _ & H & _). discriminate.
  - destruct ((start c <=? a) && (end_ c >=? a)) eqn:E.
    + assert (Hc : holds c a) by (unfold holds; lia).
      split.
      * intros [= <-]. exists 0%nat, c. repeat split; [lia|lia|lia|]. intros k' g Hk. lia.
      * intros (k & f & -> & Hk & Hf & Hfirst). destruct k as [|k]; [f_equal; lia|].
        exfalso. apply (Hfirst 0%nat c); [lia|reflexivity|exact Hc].
    + assert (Hc : ~ holds c a) by (unfold holds; lia).
      rewrite IH. split.
      * intros (k & f & -> & Hk & Hf & Hfirst). exists (S k), f.
        repeat split; [lia|exact Hk|apply Hf|apply Hf|].
        intros [|k'] g Hlt Hg; [injection Hg as <-; exact Hc|].
        apply (Hfirst k'); [lia|exact Hg].
      * intros (k & f & -> & Hk & Hf & Hfirst). destruct k as [|k].
        -- injection Hk as <-. contradiction.
        -- exists k, f. repeat split; [lia|exact Hk|apply Hf|apply Hf|].
           intros k' g Hlt Hg. apply (Hfirst (S k')); [lia|exact Hg].
Qed.

Lemma findFrom_None l : forall i a,
  findFrom l i a = None <-> Forall (fun f => ~ holds f a) l.
Proof.
  induction l as [|c l IH]; intros i a; cbn [findFrom].
  - split; [constructor|reflexivity].
  - destruct ((start c <=? a) && (end_ c >=? a)) eqn:E.
    + split; [discriminate|]. intros H. inversion H as [|? ? Hc _]; subst.
      exfalso. apply Hc. unfold holds. lia.
    + rewrite IH. split.
      * intros H. constructor; [unfold holds; lia|exact H].
      * intros H. inversion H; assumption.
Qed.

(** X1. [findFunctionByAddress] returns the first record, in list order, whose
    inclusive range [start .. end] holds the address, and null exactly when
    no record holds it. *)
Theorem findFunctionByAddress_first_match s address :
  (forall j, findFunctionByAddress s address = Some j <->
     exists f, functions s !! j = Some f /\ holds f address /\
       forall k g, (k < j)%nat -> functions s !! k = Some g -> ~ holds g address) /\
  (findFunctionByAddress s address = None <->
     Forall (fun f => ~ holds f address) (functions s)).
Proof.
  unfold findFunctionByAddress. split.
  - intros j. rewrite findFrom_spec. split.
    + intros (k & f & -> & H). exists f. exact H.
    + intros (f & H). exists j, f. split; [reflexivity|exact H].
  - apply findFrom_None.
Qed.

(** ** What the resolver writes *)

Lemma pendingDiagnostics_mark r t : forall l f,
  l !! t = Some f -> isProcessed f = false ->
  Permutation (pendingDiagnostics r l)
    (diagnostics r f ++ pendingDiagnostics r (alter (set_isProcessed true) t l)).
Proof.
  induction t as [|t IH]; intros [|x l] f Hl Hp; try discriminate.
  - injection Hl as ->. cbn [alter list_alter pendingDiagnostics]. rewrite Hp.
    cbn [set_isProcessed isProcessed app]. reflexivity.
  - cbn [lookup list_lookup] in Hl. change (list_lookup t l) with (l !! t) in Hl.
    cbn [alter list_alter pendingDiagnostics].
    change (list_alter (set_isProcessed true) t l) with (alter (set_isProcessed true) t l).
    rewrite (IH l f Hl Hp) at 1.
    rewrite !app_assoc. apply Permutation_app_tail. apply Permutation_app_comm.
Qed.

Lemma pendingDiagnostics_alter_same r g t : forall l,
  (forall y, isProcessed (g y) = isProcessed y /\ name (g y) = name y /\
             jumpsTo (g y) = jumpsTo y) ->
  pendingDiagnostics r (alter g t l) = pendingDiagnostics r l.
Proof.
  intros l Hg. revert t. induction l as [|x l IH]; intros [|t]; cbn [alter list_alter pendingDiagnostics];
    try reflexivity.
  - destruct (Hg x) as (-> & Hn & Hj). unfold diagnostics. rewrite Hn, Hj. reflexivity.
  - change (list_alter g t l) with (alter g t l). rewrite IH. reflexivity.
Qed.

Lemma pendingDiagnostics_marked r l :
  Forall (fun f => isProcessed f = true) l -> pendingDiagnostics r l = [].
Proof.
  induction 1 as [|f l Hp _ IH]; cbn [pendingDiagnostics]; [reflexivity|].
  rewrite Hp, IH. reflexivity.
Qed.

Lemma diagnosticsOf_snoc r n done a :
  diagnosticsOf r n (done ++ [a]) =
  diagnosticsOf r n done ++ (if resolvable r a then [] else [JumpTargetNotFound n a]).
Proof.
  unfold diagnosticsOf, unresolvedEdges. rewrite List.filter_app, map_app. cbn [List.filter].
  destruct (resolvable r a); reflexivity.
Qed.

(** One call prints the diagnostics of the records it marks, each once. *)
Lemma getDeepestStackUsage_diagnostics ranges fuel : forall t s v s',
  getDeepestStackUsage fuel t s = Some (v, s') -> same_ranges ranges (functions s) ->
  exists out, stdout s' = stdout s ++ out /\
    Permutation (out ++ pendingDiagnostics ranges (functions s'))
      (pendingDiagnostics ranges (functions s)).
Proof.
  induction fuel as [|fuel IH]; intros t s v s' Hrun Hranges; [discriminate|].
  rewrite getDeepestStackUsage_S in Hrun.
  destruct (functions s !! t) as [f0|] eqn:Hf0; bind_in Hrun; [|discriminate].
  destruct (isProcessed f0) eqn:Hp0.
  - injection Hrun as <- <-. exists []. rewrite app_nil_r. split; reflexivity.
  - destruct (forEachJump _ _ _ _) as [s2|] eqn:Hloop; bind_in Hrun; [|discriminate].
    set (s1 := update t (set_isProcessed true) s) in *.
    pose (I := fun (done : list Z) (sc : state) =>
      evolves (functions s) (functions sc) /\
      (exists f, functions sc !! t = Some f /\ isProcessed f = true) /\
      exists out, stdout sc = stdout s ++ out /\
        Permutation (out ++ pendingDiagnostics ranges (functions sc))
          (diagnosticsOf ranges (name f0) done ++ pendingDiagnostics ranges (functions s1))).
    assert (HI : I ([] ++ jumpsTo f0) s2).
    { eapply (forEachJump_invariant_prefix I); [| | |exact Hloop].
      - intros done sc a f (Hev & (ft & Hft & Hpt) & out & Hout & Hperm) _ Hfind Hf.
        split; [rewrite functions_printf; exact Hev|].
        split; [rewrite functions_printf; eauto|].
        exists (out ++ [JumpTargetNotFound (name f) a]).
        rewrite stdout_printf, functions_printf, Hout, app_assoc. split; [reflexivity|].
        rewrite diagnosticsOf_snoc.
        rewrite (resolvable_find ranges sc a) by (eapply same_ranges_evolves; eassumption).
        rewrite Hfind. rewrite bool_decide_eq_false_2 by (intros [? ?]; discriminate).
        destruct (evolves_lookup _ _ _ _ Hev Hf0) as (f' & Hf' & (Hn & _) & _).
        assert (f' = f) by congruence. subst f'. rewrite <- Hn.
        rewrite <- !app_assoc.
        etrans; [apply Permutation_app_head, Permutation_app_comm|].
        etrans; [|apply Permutation_app_head, Permutation_app_comm].
        rewrite !app_assoc. apply Permutation_app_tail. exact Hperm.
      - intros done sc a j w sc' f' (Hev & (ft & Hft & Hpt) & out & Hout & Hperm) _ Hfind Hrec Hf'.
        destruct (getDeepestStackUsage_post _ _ _ _ _ Hrec) as (Hev' & _ & _).
        pose proof (evolves_processed _ _ _ _ Hev' Hft Hpt) as Hft'.
        assert (f' = ft) by congruence. subst f'.
        destruct (IH _ _ _ _ Hrec) as (out2 & Hout2 & Hperm2).
        { eapply same_ranges_evolves; eassumption. }
        assert (Hpend : pendingDiagnostics ranges
                  (functions (if w >? deepest ft then update t (set_deepest w) sc' else sc')) =
                pendingDiagnostics ranges (functions sc')).
        { destruct (w >? deepest ft); [|reflexivity].
          rewrite functions_update. apply pendingDiagnostics_alter_same. intros y. auto. }
        split; [|split].
        + destruct (w >? deepest ft); [|eauto using evolves_trans].
          rewrite functions_update.
          eapply evolves_update; eauto using evolves_trans, static_set_deepest.
        + destruct (w >? deepest ft); [|eauto].
          erewrite lookup_update_eq by eassumption. eauto.
        + exists (out ++ out2). rewrite stdout_keep_larger, Hout2, Hout, app_assoc.
          split; [reflexivity|]. rewrite Hpend, diagnosticsOf_snoc.
          rewrite (resolvable_find ranges sc a) by (eapply same_ranges_evolves; eassumption).
          rewrite Hfind. rewrite bool_decide_eq_true_2 by eauto. rewrite app_nil_r.
          rewrite <- app_assoc. etrans; [apply Permutation_app_head; exact Hperm2|].
          exact Hperm.
      - split; [|split].
        + unfold s1. rewrite functions_update.
          eapply evolves_update; eauto using evolves_refl, static_set_isProcessed.
        + unfold s1. erewrite lookup_update_eq by eassumption. eauto.
        + exists []. rewrite app_nil_r. split; reflexivity. }
    destruct HI as (Hev & (f2 & Hf2 & Hp2) & out & Hout & Hperm). cbn [app] in Hperm.
    erewrite lookup_update_eq in Hrun by eassumption. bind_in Hrun.
    injection Hrun as <- <-. exists out. rewrite stdout_update. split; [exact Hout|].
    rewrite functions_update, pendingDiagnostics_alter_same by (intros y; auto).
    etrans; [exact Hperm|]. symmetry. unfold s1. rewrite functions_update.
    apply pendingDiagnostics_mark; assumption.
Qed.

Lemma resolveFrom_diagnostics ranges todo : forall current s s',
  resolveFrom todo current s = Some s' -> same_ranges ranges (functions s) ->
  exists out, stdout s' = stdout s ++ out /\
    Permutation (out ++ pendingDiagnostics ranges (functions s'))
      (pendingDiagnostics ranges (functions s)).
Proof.
  induction todo as [|todo IH]; intros current s s' Hrun Hranges.
  - injection Hrun as <-. exists []. rewrite app_nil_r. split; reflexivity.
  - rewrite resolveFrom_S in Hrun.
    destruct (getDeepestStackUsage _ current s) as [[v s1]|] eqn:Hcall; bind_in Hrun;
      [|discriminate].
    cbn [snd] in Hrun.
    destruct (getDeepestStackUsage_diagnostics _ _ _ _ _ _ Hcall Hranges) as (out1 & Hout1 & Hperm1).
    destruct (getDeepestStackUsage_post _ _ _ _ _ Hcall) as (Hev1 & _ & _).
    destruct (IH _ _ _ Hrun) as (out2 & Hout2 & Hperm2).
    { eapply same_ranges_evolves; eassumption. }
    exists (out1 ++ out2). rewrite Hout2, Hout1, app_assoc. split; [reflexivity|].
    rewrite <- app_assoc. etrans; [apply Permutation_app_head; exact Hperm2|]. exact Hperm1.
Qed.

(** X2. The resolution pass prints one diagnostic for each edge of an unmarked
    record that resolves to no record, and nothing else: what it appends to
    the standard output is, up to the order, the list of
    [JumpTargetNotFound name address] over the unmarked records and their
    unresolved edges, with multiplicity. *)
Theorem resolver_reports_each_unresolved_edge_once s :
  exists s' out, resolveAll s = Some s' /\ stdout s' = stdout s ++ out /\
    Permutation out (pendingDiagnostics (functions s) (functions s)).
Proof.
  destruct (resolveAll_total s) as (s' & Hres & Hall & _).
  destruct (resolveFrom_diagnostics (functions s) _ _ _ _ Hres (same_ranges_refl _))
    as (out & Hout & Hperm).
  exists s', out. split; [exact Hres|]. split; [exact Hout|].
  rewrite (pendingDiagnostics_marked _ _ Hall), app_nil_r in Hperm. exact Hperm.
Qed.

(** ** What the resolver changes *)

(** X3. The resolution pass keeps the list as it is linked and writes only the
    fields [deepest] and [isProcessed]: every record keeps its name, range,
    frame, edges and indirect-call flag; every record is marked afterwards;
    a record that was marked before the pass is not touched. *)
Theorem resolver_writes_only_deepest_and_mark s :
  exists s', resolveAll s = Some s' /\
    length (functions s') = length (functions s) /\
    forall i f, functions s !! i = Some f ->
      exists f', functions s' !! i = Some f' /\
        name f' = name f /\ start f' = start f /\ end_ f' = end_ f /\
        ownStack f' = ownStack f /\ jumpsTo f' = jumpsTo f /\
        usesFunctionPointers f' = usesFunctionPointers f /\
        isProcessed f' = true /\
        (isProcessed f = true -> f' = f).
Proof.
  destruct (resolveAll_total s) as (s' & Hres & Hall & Hev & _).
  exists s'. split; [exact Hres|]. split; [symmetry; exact (evolves_length _ _ Hev)|].
  intros i f Hf. destruct (evolves_lookup _ _ _ _ Hev Hf) as (f' & Hf' & Hst & Hkeep & _).
  exists f'. split; [exact Hf'|].
  destruct Hst as (E1 & E2 & E3 & E4 & E5 & E6).
  pose proof (Forall_lookup_1 _ _ _ _ Hall Hf') as Hp. cbn beta in Hp.
  repeat split; auto.
Qed.

Lemma resolveFrom_marked todo : forall current s,
  Forall (fun f => isProcessed f = true) (functions s) ->
  (current + todo <= length (functions s))%nat ->
  resolveFrom todo current s = Some s.
Proof.
  induction todo as [|todo IH]; intros current s Hall Hlen; [reflexivity|].
  rewrite resolveFrom_S, getDeepestStackUsage_S.
  destruct (lookup_lt_is_Some_2 (functions s) current) as [f Hf]; [lia|].
  rewrite Hf. cbn [mbind option_bind]. pose proof (Forall_lookup_1 _ _ _ _ Hall Hf) as Hp. cbn beta in Hp.
  rewrite Hp. cbn [mbind option_bind snd]. apply IH; [exact Hall|lia].
Qed.

(** X4. A second resolution pass changes nothing and prints nothing: the state
    after one pass is a fixed point of the pass. *)
Theorem resolver_second_pass_is_identity s :
  exists s', resolveAll s = Some s' /\ resolveAll s' = Some s'.
Proof.
  destruct (resolveAll_total s) as (s' & Hres & Hall & _).
  exists s'. split; [exact Hres|]. apply resolveFrom_marked; [exact Hall|lia].
Qed.

(** X5. When the frames of fresh records add up to less than [2^32], no
    [deepest] exceeds the sum of all frames after the pass, on any call
    graph. *)
Theorem deepest_at_most_all_frames s :
  Forall unresolved (functions s) ->
  Forall (fun f => 0 <= ownStack f) (functions s) ->
  totalStack (functions s) < 2 ^ 32 ->
  exists s', resolveAll s = Some s' /\
    Forall (fun f => 0 <= deepest f <= totalStack (functions s)) (functions s').
Proof.
  intros Hfresh Hown Htotal.
  destruct (resolveAll_total s) as (s' & Hres & _).
  exists s'. split; [exact Hres|].
  destruct (resolveFrom_bound _ _ _ _ 0 Hres) as (Hb & _ & _).
  { apply bounded_unresolved; assumption. }
  { rewrite pendingStack_unresolved by assumption. lia. }
  pose proof (pendingStack_nonneg _ _ Hb) as Hnn.
  rewrite pendingStack_unresolved in Hb by assumption.
  eapply Forall_impl; [exact Hb|]. intros f (_ & H). cbn beta. lia.
Qed.

Lemma deepest_at_most_all_frames_witness :
  exists s', resolveAll mutualAB = Some s' /\
    Forall (fun f => 0 <= deepest f <= totalStack (functions mutualAB)) (functions s').
Proof.
  apply (deepest_at_most_all_frames mutualAB).
  - repeat constructor.
  - repeat constructor; cbn; lia.
  - vm_compute. reflexivity.
Defined.

(** ** Ranking a list that is ranked *)

Lemma bubble_descending key n : forall l,
  descending key l -> (n < length l)%nat -> bubble key n l = Some l.
Proof.
  induction n as [|n IH]; intros l Hd Hn; [reflexivity|].
  destruct l as [|x [|y rest]]; cbn [length] in Hn; try lia.
  cbn [bubble]. inversion Hd as [|? ? Hrest Hhd]; subst.
  inversion Hhd as [|? ? Hxy]; subst.
  destruct (key x <? key y) eqn:E; [lia|].
  rewrite IH; [reflexivity|exact Hrest|cbn [length]; lia].
Qed.

Lemma passes_descending key i : forall l,
  descending key l -> (i < length l)%nat -> passes key i l = Some l.
Proof.
  induction i as [|i IH]; intros l Hd Hi; [reflexivity|].
  cbn [passes]. rewrite pass_bubble, bubble_descending by assumption.
  cbn [mbind option_bind]. apply IH; [exact Hd|lia].
Qed.

(** X6. On a list that is not empty (and of fewer than [2^32] records),
    [sortForDeepest] and [sortForOwn] return the records in descending order
    of [deepest] and of [ownStack]: the same records, and those of equal key
    in the order they had. *)
Theorem ranking_is_descending_and_stable l :
  l <> [] -> Z.of_nat (length l) < 2 ^ 32 ->
  (exists l', sortForDeepest l = Some l' /\ descending deepest l' /\ Permutation l l' /\
     forall k, withKey deepest k l' = withKey deepest k l) /\
  (exists l', sortForOwn l = Some l' /\ descending ownStack l' /\ Permutation l l' /\
     forall k, withKey ownStack k l' = withKey ownStack k l).
Proof. intros Hne Hlen. split; apply sortBy_stable_descending; assumption. Qed.

Lemma ranking_is_descending_and_stable_witness :
  (exists l', sortForDeepest ranking = Some l' /\ descending deepest l' /\
     Permutation ranking l' /\ forall k, withKey deepest k l' = withKey deepest k ranking) /\
  (exists l', sortForOwn ranking = Some l' /\ descending ownStack l' /\
     Permutation ranking l' /\ forall k, withKey ownStack k l' = withKey ownStack k ranking).
Proof.
  apply (ranking_is_descending_and_stable ranking); [discriminate|vm_compute; reflexivity].
Defined.

(** X7. Both sorts leave a list that is already in descending order of their
    key as it is (the list not empty and of fewer than [2^32] records): no
    pass of the bubble sort swaps anything. *)
Theorem ranking_of_ranked_list_is_identity l :
  l <> [] -> Z.of_nat (length l) < 2 ^ 32 ->
  (descending deepest l -> sortForDeepest l = Some l) /\
  (descending ownStack l -> sortForOwn l = Some l).
Proof.
  intros Hne Hlen.
  assert (H : forall key, descending key l -> sortBy key l = Some l).
  { intros key Hd. unfold sortBy. apply passes_descending; [exact Hd|].
    destruct l as [|x l]; [congruence|]. unfold wrap32.
    rewrite (Z.mod_small (Z.of_nat (length (x :: l)))) by lia.
    rewrite Z.mod_small by (cbn [length] in *; lia). cbn [length]. lia. }
  split; apply H.
Qed.

Lemma ranking_of_ranked_list_is_identity_witness :
  sortForDeepest [ mkFunctionInfo "a" 0 0 8 40 [] false true;
                   mkFunctionInfo "b" 0 0 8 24 [] false true ] =
  Some [ mkFunctionInfo "a" 0 0 8 40 [] false true;
         mkFunctionInfo "b" 0 0 8 24 [] false true ].
Proof.
  apply (ranking_of_ranked_list_is_identity
           [ mkFunctionInfo "a" 0 0 8 40 [] false true;
             mkFunctionInfo "b" 0 0 8 24 [] false true ]).
  - discriminate.
  - vm_compute. reflexivity.
  - repeat constructor; cbn; lia.
Defined.

(** ** The table *)

Lemma printRows_take l : forall i num,
  printRows l i num = map row (take (Z.to_nat (num - i)) l).
Proof.
  induction l as [|f l IH]; intros i num; cbn [printRows].
  - rewrite take_nil. reflexivity.
  - destruct (i <? num) eqn:E.
    + rewrite IH. replace (Z.to_nat (num - i)) with (S (Z.to_nat (num - (i + 1)))) by lia.
      reflexivity.
    + replace (Z.to_nat (num - i)) with 0%nat by lia. reflexivity.
Qed.

(** X8. [printStackInfo] changes no record and appends to the standard output
    the header, the rule and one row for each of the first [num] records of
    the list, in list order: all of them when the list has no more than
    [num] records, and none when [num] is [0] or the list is empty. *)
Theorem printStackInfo_first_rows num s :
  functions (printStackInfo num s) = functions s /\
  stdout (printStackInfo num s) =
    stdout s ++ TableHeader :: TableRule :: map row (take (Z.to_nat num) (functions s)).
Proof.
  unfold printStackInfo. cbn [functions stdout]. split; [reflexivity|].
  rewrite printRows_take. replace (num - 0) with num by lia. reflexivity.
Qed.

(** ** The command line *)

Open Scope string_scope.

Lemma readOptions_snoc arguments a :
  readOptions (arguments ++ [a]) = readOption (readOptions arguments) a.
Proof. unfold readOptions. rewrite foldl_app. reflexivity. Qed.

Lemma last_filter_snoc {A} (p : A -> bool) l a :
  last (List.filter p (l ++ [a])) = if p a then Some a else last (List.filter p l).
Proof.
  rewrite List.filter_app. cbn [List.filter]. destruct (p a).
  - apply last_snoc.
  - rewrite app_nil_r. reflexivity.
Qed.

Lemma prefix_s_not_n a : String.prefix "-s" a = true -> String.prefix "-n" a = false.
Proof.
  destruct a as [|c1 [|c2 a]]; cbn [String.prefix]; intros H; try discriminate.
  - destruct (Ascii.ascii_dec "-" c1); reflexivity.
  - destruct (Ascii.ascii_dec "-" c1); [|reflexivity].
    destruct (Ascii.ascii_dec "s" c2) as [<-|]; [|discriminate].
    destruct (Ascii.ascii_dec "n" "s") as [E|]; [discriminate E|reflexivity].
Qed.

Lemma readOptions_last arguments :
  sorting (readOptions arguments) =
    from_option third "d"%char (last (List.filter isSortingOption arguments)) /\
  printcount (readOptions arguments) =
    from_option (fun a => wrap32 (strtol0 (advance 2 a))) 10
      (last (List.filter isCountOption arguments)) /\
  filename (readOptions arguments) = last (List.filter isFileName arguments).
Proof.
  induction arguments as [|a arguments IH] using rev_ind; [repeat split|].
  destruct IH as (IH1 & IH2 & IH3).
  rewrite readOptions_snoc, !last_filter_snoc. unfold readOption, isFileName, isSortingOption, isCountOption.
  destruct (String.prefix "-s" a) eqn:Es.
  - rewrite (prefix_s_not_n _ Es). cbn [sorting printcount filename negb andb from_option].
    auto.
  - destruct (String.prefix "-n" a) eqn:En; cbn [sorting printcount filename negb andb from_option];
      auto.
Qed.

(** X9. The options may come in any order and any number of times; the last
    argument of each kind decides. [sorting] is the third character of the
    last argument that begins with [-s] (the null character when that
    argument is [-s] alone) and ['d'] without one; [printcount] is what
    [strtol] reads in base 0 after the [-n] of the last argument that
    begins with [-n], as a [uint32_t], and [10] without one; [filename] is
    the last argument that begins with neither. *)
Theorem last_option_of_each_kind_decides arguments :
  sorting (readOptions arguments) =
    from_option third "d"%char (last (List.filter isSortingOption arguments)) /\
  printcount (readOptions arguments) =
    from_option (fun a => wrap32 (strtol0 (advance 2 a))) 10
      (last (List.filter isCountOption arguments)) /\
  filename (readOptions arguments) = last (List.filter isFileName arguments).
Proof. apply readOptions_last. Qed.

Lemma last_None {A} (l : list A) : last l = None <-> l = [].
Proof.
  split; [|intros ->; reflexivity].
  destruct l as [|x l] using rev_ind; [reflexivity|]. rewrite last_snoc. discriminate.
Qed.

Lemma filter_nil_iff {A} (p : A -> bool) l :
  List.filter p l = [] <-> Forall (fun a => p a = false) l.
Proof.
  induction l as [|x l IH]; cbn [List.filter]; [split; [constructor|reflexivity]|].
  destruct (p x) eqn:E.
  - split; [discriminate|]. intros H. inversion H; congruence.
  - rewrite IH. split; [intros H; constructor; assumption|intros H; inversion H; assumption].
Qed.

(** X10. [main] ends with the usage text and [-1] exactly when every argument
    begins with [-s] or [-n] (in particular without arguments): it then
    opens no file, whatever the clock. A file whose name begins with [-s] or
    [-n] cannot be given to the program. *)
Theorem usage_iff_no_file_name CLOCKS_PER_SEC clock fuel popen uninitialised program arguments :
  main CLOCKS_PER_SEC clock fuel popen uninitialised program arguments = Some (Usage program)
  <-> Forall (fun a => isSortingOption a = true \/ isCountOption a = true) arguments.
Proof.
  unfold main.
  destruct (readOptions_last arguments) as (_ & _ & Hfile).
  rewrite Hfile. clear Hfile.
  assert (Hnone : last (List.filter isFileName arguments) = None <->
                  Forall (fun a => isSortingOption a = true \/ isCountOption a = true) arguments).
  { rewrite last_None, filter_nil_iff. apply Forall_iff. intros a. unfold isFileName.
    destruct (isSortingOption a), (isCountOption a); cbn; intuition congruence. }
  destruct (last (List.filter isFileName arguments)) as [file|] eqn:E.
  - split.
    + intros H. exfalso.
      destruct (openDisassembly _ _ _ _ _) as [[d|]|]; cbn [mbind option_bind] in H;
        try discriminate.
      destruct (analyze _ _ _ _); discriminate.
    + intros H. apply Hnone in H. discriminate.
  - split; [intros _; apply Hnone; reflexivity|reflexivity].
Qed.

(** X11. [-n-1] stands for "all": when the last argument that begins with [-n]
    is [-n-1], [printcount] is [2^32 - 1], and the table has a row for every
    record of a list of fewer than [2^32] records. *)
Theorem count_minus_one_prints_all before after l :
  Forall (fun a => isCountOption a = false) after ->
  Z.of_nat (length l) < 2 ^ 32 ->
  printcount (readOptions (before ++ "-n-1" :: after)) = 4294967295 /\
  printRows l 0 (printcount (readOptions (before ++ "-n-1" :: after))) = map row l.
Proof.
  intros Hafter Hlen.
  assert (Hcount : printcount (readOptions (before ++ "-n-1" :: after)) = 4294967295).
  { destruct (readOptions_last (before ++ "-n-1" :: after)) as (_ & -> & _).
    rewrite List.filter_app. cbn [List.filter].
    change (isCountOption "-n-1") with true. cbv iota.
    replace (List.filter isCountOption after) with (@nil string)
      by (symmetry; apply filter_nil_iff; exact Hafter).
    rewrite last_snoc. reflexivity. }
  split; [exact Hcount|]. rewrite Hcount, printRows_take, take_ge; [reflexivity|lia].
Qed.

Lemma count_minus_one_prints_all_witness :
  printcount (readOptions (["-sd"] ++ "-n-1" :: ["a.elf"])) = 4294967295 /\
  printRows ranking 0 (printcount (readOptions (["-sd"] ++ "-n-1" :: ["a.elf"])))
    = map row ranking.
Proof.
  apply (count_minus_one_prints_all ["-sd"] ["a.elf"] ranking).
  - repeat constructor.
  - vm_compute. reflexivity.
Defined.

Close Scope string_scope.

(** ** Labels *)

Open Scope string_scope.

Lemma strchr_app pre c rest : strchr pre c = None -> strchr (pre ++ rest) c = strchr rest c.
Proof.
  induction pre as [|a pre IH]; cbn [strchr append]; [reflexivity|].
  destruct (Ascii.eqb a c); [discriminate|exact IH].
Qed.

Lemma strchr_here c rest : strchr (String c rest) c = Some (String c rest).
Proof. cbn [strchr]. rewrite Ascii.eqb_refl. reflexivity. Qed.

Lemma length_append (a b : string) :
  String.length (a ++ b) = (String.length a + String.length b)%nat.
Proof. induction a as [|c a IH]; cbn [append String.length]; [reflexivity|]. rewrite IH. reflexivity. Qed.

Lemma substring_head (a b : string) : String.substring 0 (String.length a) (a ++ b) = a.
Proof.
  induction a as [|c a IH]; cbn [append String.length String.substring].
  - destruct b; reflexivity.
  - rewrite IH. reflexivity.
Qed.

(** The number at the head of a label does not depend on what follows the
    first [<]. *)
Lemma skipSpace_label pre rest :
  skipSpace (pre ++ String "<" rest) = skipSpace pre ++ String "<" rest.
Proof.
  induction pre as [|a pre IH]; [reflexivity|].
  cbn [append skipSpace]. destruct (isspace a); [exact IH|reflexivity].
Qed.

Lemma readSign_label p rest :
  readSign (p ++ String "<" rest) = ((readSign p).1, (readSign p).2 ++ String "<" rest).
Proof.
  destruct p as [|a p]; [reflexivity|].
  destruct (Ascii.ascii_dec a "-") as [->|Hm]; [reflexivity|].
  destruct (Ascii.ascii_dec a "+") as [->|Hp]; [reflexivity|].
  destruct a as [[] [] [] [] [] [] [] []]; try reflexivity; congruence.
Qed.

Lemma skipHexPrefix_other a s : a <> "0"%char -> skipHexPrefix (String a s) = String a s.
Proof.
  intros Hne. destruct a as [[] [] [] [] [] [] [] []]; try reflexivity; congruence.
Qed.

Lemma skipHexPrefix_label q rest :
  skipHexPrefix (q ++ String "<" rest) = skipHexPrefix q ++ String "<" rest.
Proof.
  destruct q as [|a q]; [reflexivity|].
  destruct (Ascii.ascii_dec a "0") as [->|Hne].
  - destruct q as [|x [|d q]]; cbn [append].
    + destruct rest; reflexivity.
    + cbn [skipHexPrefix]. change (digitIn 16 "<") with (@None Z).
      rewrite bool_decide_eq_false_2 by (intros [? ?]; discriminate).
      rewrite andb_false_r. reflexivity.
    + cbn [skipHexPrefix]. destruct (_ && _); reflexivity.
  - cbn [append]. rewrite !skipHexPrefix_other by assumption. reflexivity.
Qed.

Lemma readDigits_label q rest : forall acc,
  readDigits 16 (q ++ String "<" rest) acc = readDigits 16 q acc.
Proof.
  induction q as [|a q IH]; intros acc; [reflexivity|].
  cbn [append readDigits]. destruct (digitIn 16 a); [apply IH|reflexivity].
Qed.

Lemma strtoul16_label pre rest : strtoul16 (pre ++ String "<" rest) = strtoul16 pre.
Proof.
  unfold strtoul16. rewrite skipSpace_label, readSign_label.
  destruct (readSign (skipSpace pre)) as [negative s1]. cbn [fst snd].
  rewrite skipHexPrefix_label, readDigits_label. reflexivity.
Qed.

(** X12. [createNewFunctionInfo] on a label [pre<name>post], where [pre] holds
    neither [<] nor [>] and [name] holds no [>]: the record is named [name],
    its range is the single address that [strtoul] reads in base 16 at the
    head of [pre], and it has no frame, no edge and no mark. When the first
    [>] of the label stands before its first [<], the length of the name is
    negative and the allocation of the name is undefined. *)
Theorem createNewFunctionInfo_reads_label pre name_ middle post :
  strchr pre "<" = None -> strchr pre ">" = None ->
  (strchr name_ ">" = None ->
   createNewFunctionInfo (pre ++ String "<" (name_ ++ String ">" post)) =
   Record_ (mkFunctionInfo name_ (wrap32 (strtoul16 pre)) (wrap32 (strtoul16 pre)) 0 0 []
              false false)) /\
  (strchr middle "<" = None ->
   createNewFunctionInfo (pre ++ String ">" (middle ++ String "<" post)) = UndefinedName).
Proof.
  intros Hlt Hgt. split.
  - intros Hname. unfold createNewFunctionInfo.
    rewrite (strchr_app pre "<") by assumption. rewrite strchr_here.
    rewrite (strchr_app pre ">") by assumption.
    cbn [strchr]. change (Ascii.eqb "<" ">") with false. cbv iota.
    rewrite (strchr_app name_ ">") by assumption. rewrite strchr_here.
    cbn [String.length]. rewrite length_append. cbn [String.length].
    destruct (Nat.ltb_spec (S (String.length post))
                (S (String.length name_ + S (String.length post)))) as [_|H]; [|lia].
    rewrite strtoul16_label. unfold before, next. rewrite length_append. cbn [String.length].
    replace (String.length name_ + S (String.length post) - S (String.length post))%nat
      with (String.length name_) by lia.
    rewrite substring_head. reflexivity.
  - intros Hmiddle. unfold createNewFunctionInfo.
    rewrite (strchr_app pre ">") by assumption. rewrite strchr_here.
    rewrite (strchr_app pre "<") by assumption.
    cbn [strchr]. change (Ascii.eqb ">" "<") with false. cbv iota.
    rewrite (strchr_app middle "<") by assumption. rewrite strchr_here.
    cbn [String.length]. rewrite length_append. cbn [String.length].
    destruct (Nat.ltb_spec (S (String.length middle + S (String.length post)))
                (S (String.length post))) as [H|_]; [lia|]. reflexivity.
Qed.

Lemma createNewFunctionInfo_reads_label_witness :
  createNewFunctionInfo ("9d000040 " ++ String "<" ("helper" ++ String ">" ":")) =
  Record_ (mkFunctionInfo "helper" (wrap32 (strtoul16 "9d000040 ")) (wrap32 (strtoul16 "9d000040 "))
             0 0 [] false false).
Proof.
  apply (createNewFunctionInfo_reads_label "9d000040 " "helper" "" ":"); reflexivity.
Defined.

Close Scope string_scope.

(** ** Closing a record twice *)

(** X13. [cleanupFunctionInfo] is idempotent, and a record it has closed holds
    at most 1000 edges: closing it again returns it as it is. *)
Theorem cleanupFunctionInfo_idempotent f f' :
  cleanupFunctionInfo f = Some f' ->
  cleanupFunctionInfo f' = Some f' /\ Z.of_nat (length (jumpsTo f')) <= STAGING_CAPACITY.
Proof.
  unfold cleanupFunctionInfo. rewrite cleanupLoop_spec by (cbn; unfold STAGING_CAPACITY; lia).
  cbv zeta. cbn [length app]. intros H.
  destruct (_ <=? STAGING_CAPACITY) eqn:E; [|discriminate].
  cbn [mbind option_bind] in H. injection H as <-.
  unfold set_jumpsTo. cbn [name start end_ ownStack deepest jumpsTo usesFunctionPointers isProcessed].
  split; [|apply Z.leb_le in E; exact E].
  rewrite cleanupLoop_spec by (cbn; unfold STAGING_CAPACITY; lia). cbv zeta. cbn [length app].
  set (p := fun target : Z => (target >? end_ f) || (target <? start f)) in *.
  assert (Hidem : forall l, List.filter p (List.filter p l) = List.filter p l).
  { intros l. induction l as [|a l IH]; cbn [List.filter]; [reflexivity|].
    destruct (p a) eqn:Ea; [|exact IH]. cbn [List.filter]. rewrite Ea, IH. reflexivity. }
  rewrite Hidem, E. reflexivity.
Qed.

Lemma cleanupFunctionInfo_idempotent_witness :
  cleanupFunctionInfo (manyCalls 3) = Some (manyCalls 3) /\
  Z.of_nat (length (jumpsTo (manyCalls 3))) <= STAGING_CAPACITY.
Proof. apply (cleanupFunctionInfo_idempotent (manyCalls 3) (manyCalls 3)). reflexivity. Defined.

(** ** Finding the text section *)

Open Scope string_scope.

Lemma readLine_split n : forall s line rest hit,
  readLine n s = (line, rest, hit) -> s = line ++ rest /\ (hit = true -> rest = "").
Proof.
  induction n as [|n IH]; intros s line rest hit H; cbn [readLine] in H.
  - injection H as <- <- <-. split; [reflexivity|discriminate].
  - destruct s as [|c s].
    + injection H as <- <- <-. split; reflexivity.
    + destruct (Ascii.eqb c newline).
      * injection H as <- <- <-. split; [reflexivity|discriminate].
      * destruct (readLine n s) as [[line' rest'] hit'] eqn:E.
        injection H as <- <- <-. destruct (IH _ _ _ _ E) as (-> & Hhit).
        split; [reflexivity|exact Hhit].
Qed.

Lemma strstr_None_prefix s needle : strstr s needle = None -> String.prefix needle s = false.
Proof. destruct s; cbn [strstr]; destruct (String.prefix needle _); congruence. Qed.

Lemma strstr_suffix needle : forall a b, strstr (a ++ b) needle = None -> strstr b needle = None.
Proof.
  induction a as [|c a IH]; intros b H; [exact H|].
  cbn [append strstr] in H. destruct (String.prefix needle _); [discriminate|]. auto.
Qed.

Lemma prefix_append needle : forall a b,
  String.prefix needle a = true -> String.prefix needle (a ++ b) = true.
Proof.
  induction needle as [|c needle IH]; intros a b H; [destruct a, b; reflexivity|].
  destruct a as [|d a]; [discriminate|]. cbn [append String.prefix] in *.
  destruct (ascii_dec c d); [auto|discriminate].
Qed.

Lemma fgets_drained f r f' : drained f -> fgets 500 f = (r, f') -> drained f'.
Proof.
  unfold fgets, drained. intros Hd H. destruct (content f) as [|c s] eqn:Ec.
  - injection H as <- <-. reflexivity.
  - destruct (readLine (500 - 1) (String c s)) as [[line rest] hit] eqn:E.
    injection H as <- <-. cbn [feof content]. intros Hf.
    destruct (feof f) eqn:Ef; [specialize (Hd eq_refl); discriminate|].
    cbn [orb] in Hf. destruct (readLine_split _ _ _ _ _ E) as (_ & Hhit). auto.
Qed.

Lemma skipSections_no_header fuel : forall f buffer,
  (unread f < fuel)%nat -> drained f ->
  strstr (content f) expectedString = None ->
  String.prefix expectedString buffer = false ->
  skipSections fuel f buffer = mkFILE "" true.
Proof.
  induction fuel as [|fuel IH]; intros f buffer Hfuel Hd Hnone Hbuf; [lia|].
  cbn [skipSections]. rewrite Hbuf. cbn [negb andb]. rewrite andb_true_r.
  destruct (feof f) eqn:Ef; cbn [negb].
  - destruct f as [c e]. unfold drained in Hd. cbn [feof content] in *. subst e.
    rewrite (Hd eq_refl). reflexivity.
  - destruct (fgets 500 f) as [read f'] eqn:Eg.
    pose proof (fgets_drained _ _ _ Hd Eg) as Hd'.
    destruct (fgets_unread _ _ _ Eg) as (_ & Hlt). specialize (Hlt Ef).
    apply IH; [lia|exact Hd'| |].
    + unfold fgets in Eg. destruct (content f) as [|c s] eqn:Ec.
      * injection Eg as <- <-. reflexivity.
      * destruct (readLine (500 - 1) (String c s)) as [[line rest] hit] eqn:E.
        injection Eg as <- <-. cbn [content].
        destruct (readLine_split _ _ _ _ _ E) as (Hs & _). rewrite Hs in Hnone.
        eapply strstr_suffix. exact Hnone.
    + unfold fgets in Eg. destruct (content f) as [|c s] eqn:Ec.
      * injection Eg as <- <-. exact Hbuf.
      * destruct (readLine (500 - 1) (String c s)) as [[line rest] hit] eqn:E.
        injection Eg as <- <-. cbn [filled].
        destruct (readLine_split _ _ _ _ _ E) as (Hs & _). rewrite Hs in Hnone.
        apply strstr_None_prefix in Hnone.
        destruct (String.prefix expectedString line) eqn:Ep; [|reflexivity].
        rewrite (prefix_append _ _ rest Ep) in Hnone. discriminate.
Qed.

(** X14. [findNextTextSection] on a text in which ["Disassembly of section .text"]
    does not occur reads the text to its end: the stream is left empty, with
    the end-of-file indicator set. *)
Theorem findNextTextSection_without_text_section text :
  strstr text expectedString = None ->
  findNextTextSection (mkFILE text false) = mkFILE "" true.
Proof.
  intros Hnone. unfold findNextTextSection.
  destruct (fgets 500 (mkFILE text false)) as [read stream1] eqn:Eg.
  assert (Hd : drained stream1) by (eapply fgets_drained; [|exact Eg]; discriminate).
  rewrite skipSections_no_header; [reflexivity| |exact Hd| |].
  - unfold unread. destruct (feof stream1); lia.
  - unfold fgets in Eg. cbn [content feof] in Eg. destruct text as [|c s].
    + injection Eg as <- <-. reflexivity.
    + destruct (readLine (500 - 1) (String c s)) as [[line rest] hit] eqn:E.
      injection Eg as <- <-. cbn [content].
      destruct (readLine_split _ _ _ _ _ E) as (Hs & _). rewrite Hs in Hnone.
      eapply strstr_suffix. exact Hnone.
  - unfold fgets in Eg. cbn [content feof] in Eg. destruct text as [|c s].
    + injection Eg as <- <-. reflexivity.
    + destruct (readLine (500 - 1) (String c s)) as [[line rest] hit] eqn:E.
      injection Eg as <- <-. cbn [filled].
      destruct (readLine_split _ _ _ _ _ E) as (Hs & _). rewrite Hs in Hnone.
      apply strstr_None_prefix in Hnone.
      destruct (String.prefix expectedString line) eqn:Ep; [|reflexivity].
      rewrite (prefix_append _ _ rest Ep) in Hnone. discriminate.
Qed.

Lemma findNextTextSection_without_text_section_witness :
  findNextTextSection (mkFILE (text ["a.elf:     file format elf32"; ""; "Disassembly of section .data:"]) false)
  = mkFILE "" true.
Proof. apply findNextTextSection_without_text_section. reflexivity. Defined.

Lemma append_assoc (a b c : string) : (a ++ b) ++ c = a ++ (b ++ c).
Proof. induction a as [|x a IH]; cbn [append]; [reflexivity|]. rewrite IH. reflexivity. Qed.

Lemma readLine_line rest : forall l n,
  strchr l newline = None -> (String.length l < n)%nat ->
  readLine n (l ++ String newline rest) = (l ++ String newline "", rest, false).
Proof.
  induction l as [|c l IH]; intros n Hl Hn.
  - destruct n as [|n]; [cbn in Hn; lia|]. reflexivity.
  - destruct n as [|n]; [cbn in Hn; lia|]. cbn [String.length] in Hn.
    cbn [strchr] in Hl. cbn [append readLine].
    destruct (Ascii.eqb c newline); [discriminate|].
    rewrite IH by (assumption || lia). reflexivity.
Qed.

Lemma fgets_line l rest e :
  shortLine l ->
  fgets 500 (mkFILE (l ++ String newline rest) e) = (Some (l ++ String newline ""), mkFILE rest e).
Proof.
  intros (Hl & Hn). unfold fgets. cbn [content feof].
  rewrite readLine_line by (assumption || (cbn; lia)). rewrite orb_false_r.
  destruct l; reflexivity.
Qed.

Lemma prefix_newline needle : forall l rest,
  strchr needle newline = None ->
  String.prefix needle (l ++ String newline rest) = String.prefix needle l.
Proof.
  induction needle as [|a needle IH]; intros l rest Hn; [destruct l; reflexivity|].
  cbn [strchr] in Hn. destruct (Ascii.eqb a newline) eqn:Ea; [discriminate|].
  destruct l as [|b l]; cbn [append String.prefix].
  - destruct (ascii_dec a newline) as [->|]; [|reflexivity].
    rewrite Ascii.eqb_refl in Ea. discriminate.
  - destruct (ascii_dec a b); [apply IH; exact Hn|reflexivity].
Qed.

Lemma unlines_app a b rest : unlines (a ++ b) ++ rest = unlines a ++ (unlines b ++ rest).
Proof.
  induction a as [|l a IH]; cbn [app unlines foldr append]; [reflexivity|].
  unfold unlines in *. rewrite !append_assoc. cbn [append]. rewrite IH. reflexivity.
Qed.

Lemma skipSections_header header tail : forall pre fuel buffer,
  Forall shortLine pre -> Forall (fun l => String.prefix expectedString l = false) pre ->
  shortLine header -> String.prefix expectedString header = true ->
  (String.length (unlines (pre ++ [header]) ++ tail) + 1 < fuel)%nat ->
  String.prefix expectedString buffer = false ->
  skipSections fuel (mkFILE (unlines (pre ++ [header]) ++ tail) false) buffer
  = mkFILE tail false.
Proof.
  induction pre as [|l pre IH]; intros fuel buffer Hshort Hno Hh Hhp Hfuel Hbuf.
  - destruct fuel as [|[|fuel]]; [lia|lia|].
    cbn [app unlines foldr]. cbn [skipSections feof]. rewrite Hbuf. cbn [negb andb].
    rewrite append_assoc. cbn [append].
    rewrite fgets_line by assumption. cbn [filled skipSections feof].
    rewrite prefix_newline by reflexivity. rewrite Hhp. reflexivity.
  - destruct fuel as [|fuel]; [lia|].
    inversion Hshort as [|? ? Hl Hshort']; subst. inversion Hno as [|? ? Hlp Hno']; subst.
    cbn [app unlines foldr] in *. cbn [skipSections feof]. rewrite Hbuf. cbn [negb andb].
    rewrite append_assoc in *. cbn [append] in *.
    rewrite fgets_line by assumption. cbn [filled].
    apply IH; try assumption.
    + rewrite length_append in Hfuel. cbn [String.length] in Hfuel. unfold unlines. lia.
    + rewrite prefix_newline by reflexivity. exact Hlp.
Qed.

Lemma findNextTextSection_header pre header blank rest :
  Forall shortLine pre -> Forall (fun l => String.prefix expectedString l = false) pre ->
  shortLine header -> String.prefix expectedString header = true ->
  shortLine blank ->
  findNextTextSection (mkFILE (unlines (pre ++ [header; blank]) ++ rest) false)
  = mkFILE rest false.
Proof.
  intros Hshort Hno Hh Hhp Hb.
  assert (Hsplit : unlines (pre ++ [header; blank]) ++ rest =
                   unlines (pre ++ [header]) ++ (blank ++ String newline rest)).
  { replace (pre ++ [header; blank])%list with ((pre ++ [header]) ++ [blank])%list
      by (rewrite <- app_assoc; reflexivity).
    rewrite unlines_app. cbn [unlines foldr]. rewrite append_assoc. reflexivity. }
  rewrite Hsplit. unfold findNextTextSection.
  destruct pre as [|l pre].
  - cbn [app unlines foldr]. rewrite append_assoc. cbn [append].
    rewrite fgets_line by assumption. cbn [filled content skipSections feof plus].
    rewrite prefix_newline by reflexivity. rewrite Hhp. cbn [negb andb].
    rewrite fgets_line by assumption. reflexivity.
  - inversion Hshort as [|? ? Hl Hshort']; subst. inversion Hno as [|? ? Hlp Hno']; subst.
    cbn [app unlines foldr]. rewrite append_assoc. cbn [append].
    rewrite fgets_line by assumption. cbn [filled content].
    change (foldr (fun l0 acc => l0 ++ String newline acc) "" (pre ++ [header]))
      with (unlines (pre ++ [header])).
    rewrite skipSections_header; try assumption.
    + rewrite fgets_line by assumption. reflexivity.
    + lia.
    + rewrite prefix_newline by reflexivity. exact Hlp.
Qed.

(** X15. [findNextTextSection] on a text that starts with whole lines, none of
    them beginning with ["Disassembly of section .text"], then a line that
    begins with it, then one more line: the stream is left at the first
    character after that line (the line after the header is skipped), and
    the end-of-file indicator is not set. Lines are taken to fit the buffer
    of 500 characters. *)
Theorem findNextTextSection_skips_header_and_next_line pre header blank rest :
  Forall shortLine pre -> Forall (fun l => String.prefix expectedString l = false) pre ->
  shortLine header -> String.prefix expectedString header = true ->
  shortLine blank ->
  findNextTextSection (mkFILE (unlines (pre ++ [header; blank]) ++ rest) false)
  = mkFILE rest false.
Proof. apply findNextTextSection_header. Qed.

Lemma findNextTextSection_skips_header_and_next_line_witness :
  findNextTextSection
    (mkFILE (unlines (["a.elf:     file format elf32"; ""]
                      ++ ["Disassembly of section .text:"; ""]) ++ "9d000000 <main>:") false)
  = mkFILE "9d000000 <main>:" false.
Proof.
  apply (findNextTextSection_skips_header_and_next_line
           ["a.elf:     file format elf32"; ""] "Disassembly of section .text:" ""
           "9d000000 <main>:").
  - repeat constructor; cbn; lia.
  - repeat constructor.
  - split; [reflexivity|cbn; lia].
  - reflexivity.
  - split; [reflexivity|cbn; lia].
Defined.

Close Scope string_scope.

(** ** What the builder keeps *)

Section Builder.
Variables P Q : functionInfo -> Prop.
Hypothesis created_P : forall label f, createNewFunctionInfo label = Record_ f -> P f.
Hypothesis instruction_P : forall line f f', instruction line f = Some f' -> P f -> P f'.
Hypothesis cleanup_Q : forall f f', cleanupFunctionInfo f = Some f' -> P f -> Q f'.

Lemma openNext_invariant label f b stream' b' :
  openNext label f b stream' = Some b' ->
  Forall Q (closed b) -> P f ->
  Forall Q (closed b') /\ (forall g, currentFunctionInfo b' = Some g -> P g) /\
  console b' = console b.
Proof.
  unfold openNext. destruct (cleanupFunctionInfo f) as [f'|] eqn:Hclean;
    cbn [mbind option_bind]; [|discriminate].
  intros H Hclosed Hf. pose proof (cleanup_Q _ _ Hclean Hf) as Hf'.
  destruct (createNewFunctionInfo label) as [new| |] eqn:Hnew; try discriminate;
    injection H as <-; cbn [closed currentFunctionInfo console];
    (split; [apply Forall_app; split; [exact Hclosed|constructor; [exact Hf'|constructor]]|]);
    (split; [|reflexivity]).
  - intros g Hg. injection Hg as <-. eapply created_P. exact Hnew.
  - discriminate.
Qed.

(** The loop of [main] over the lines: what holds of the records when the
    loop is left at the end of the input. *)
Lemma buildLoop_invariant fuel : forall b b',
  buildLoop fuel b = Some (Finished b') ->
  Forall Q (closed b) -> (forall f, currentFunctionInfo b = Some f -> P f) ->
  Forall Q (closed b') /\ (forall f, currentFunctionInfo b' = Some f -> P f) /\
  console b' = console b /\ feof (stream b') = true.
Proof.
  induction fuel as [|fuel IH]; intros b b' Hrun Hclosed Hcur; [discriminate|].
  rewrite buildLoop_S in Hrun. destruct (feof (stream b)) eqn:Heof.
  - injection Hrun as <-. auto.
  - destruct (currentFunctionInfo b) as [f|]; [|discriminate].
    specialize (Hcur f eq_refl).
    destruct (fgets 500 (stream b)) as [read stream1].
    assert (Hplain : match instruction (filled (inputBuffer b) read) f with
              | Some f' => buildLoop fuel
                  (mkBuilder stream1 (filled (inputBuffer b) read) (closed b) (Some f')
                     (console b))
              | None => Some UndefinedBehaviour end = Some (Finished b') ->
            Forall Q (closed b') /\ (forall f, currentFunctionInfo b' = Some f -> P f) /\
            console b' = console b /\ feof (stream b') = true).
    { destruct (instruction _ f) as [f'|] eqn:Hinstr; [|discriminate]. intros H.
      eapply IH in H; [exact H|exact Hclosed|]. cbn [currentFunctionInfo]. intros g Hg.
      injection Hg as <-. eapply instruction_P; eassumption. }
    cbn zeta in Hrun. destruct (found (filled (inputBuffer b) read) sectionString).
    + destruct (fgets 500 _) as [read2 stream3].
      destruct (openNext _ f b stream3) as [b1|] eqn:Hopen; [|discriminate].
      destruct (openNext_invariant _ _ _ _ _ Hopen Hclosed Hcur) as (H1 & H2 & H3).
      rewrite <- H3. eauto.
    + destruct (found _ labelEndString); [|auto].
      destruct (strchr _ "<"); [|discriminate].
      destruct (firstIs "." _); [auto|].
      destruct (openNext _ f b stream1) as [b1|] eqn:Hopen; [|discriminate].
      destruct (openNext_invariant _ _ _ _ _ Hopen Hclosed Hcur) as (H1 & H2 & H3).
      rewrite <- H3. eauto.
Qed.
End Builder.

Lemma instruction_wellFormed line f f' :
  instruction line f = Some f' -> wellFormed f -> wellFormed f'.
Proof.
  unfold instruction. set (g := if _ >? end_ f then _ else f).
  assert (Hg : wellFormed f -> wellFormed g).
  { subst g. destruct (_ >? _) eqn:E; [|auto]. intros (H1 & H2 & H3 & H4 & H5 & H6).
    unfold wellFormed. cbn [set_end start end_ ownStack jumpsTo].
    repeat split; try assumption; try apply wrap32_uint32; try apply H1; try apply H4; lia. }
  intros H Hf. specialize (Hg Hf). clearbody g.
  destruct (strstr line stackPointerString).
  - injection H as <-. destruct (_ <? 0); [|exact Hg].
    destruct Hg as (H1 & H2 & H3 & H4 & H5 & H6). unfold wellFormed.
    cbn [set_ownStack start end_ ownStack jumpsTo].
    repeat split; try assumption; try apply wrap32_uint32; try apply H1; try apply H2.
  - destruct (_ || _); [|injection H as <-; exact Hg].
    destruct (found line returnString); [injection H as <-; exact Hg|].
    destruct (found line indirectCallString).
    { injection H as <-. exact Hg. }
    destruct (found line indirectJumpString); [injection H as <-; exact Hg|].
    destruct (match strrchr line "," with Some p => Some p | None => strrchr line tab end);
      cbn [mbind option_bind] in H; [|discriminate].
    destruct (_ <? JUMPS_CAPACITY) eqn:E; [|discriminate]. injection H as <-.
    destruct Hg as (H1 & H2 & H3 & H4 & H5 & H6). unfold wellFormed.
    cbn [set_jumpsTo start end_ ownStack jumpsTo]. rewrite length_app. cbn [length].
    repeat split; try assumption; try apply H1; try apply H2; try apply H4; [|lia].
    apply Forall_app. split; [exact H5|]. constructor; [apply wrap32_uint32|constructor].
Qed.

Lemma createNewFunctionInfo_wellFormed label f :
  createNewFunctionInfo label = Record_ f -> wellFormed f.
Proof.
  unfold createNewFunctionInfo. destruct (strchr label "<"), (strchr label ">"); try discriminate.
  destruct (_ <? _)%nat; [|discriminate]. intros H. injection H as <-.
  unfold wellFormed. cbn [start end_ ownStack jumpsTo length].
  pose proof (wrap32_uint32 (strtoul16 label)) as Hu. unfold uint32 in *. unfold JUMPS_CAPACITY.
  repeat split; try constructor; lia.
Qed.

Lemma cleanupFunctionInfo_closedRecord f f' :
  cleanupFunctionInfo f = Some f' -> wellFormed f -> closedRecord f'.
Proof.
  unfold cleanupFunctionInfo. rewrite cleanupLoop_spec by (cbn; unfold STAGING_CAPACITY; lia).
  cbv zeta. cbn [length app]. intros H (H1 & H2 & H3 & H4 & H5 & H6).
  destruct (_ <=? STAGING_CAPACITY) eqn:E; [|discriminate].
  cbn [mbind option_bind] in H. injection H as <-. apply Z.leb_le in E.
  unfold closedRecord, wellFormed, holds.
  cbn [set_jumpsTo start end_ ownStack jumpsTo].
  set (p := fun target : Z => (target >? end_ f) || (target <? start f)) in *.
  assert (Hsub : forall a, In a (List.filter p (jumpsTo f)) -> In a (jumpsTo f) /\ p a = true)
    by (intros a; apply List.filter_In).
  assert (Hlen : Z.of_nat (length (List.filter p (jumpsTo f))) <= STAGING_CAPACITY) by exact E.
  assert (Hu : Forall uint32 (List.filter p (jumpsTo f))).
  { rewrite List.Forall_forall in *. intros a Ha. apply H5. apply Hsub. exact Ha. }
  assert (Hout : Forall (fun a => ~ start f <= a <= end_ f) (List.filter p (jumpsTo f))).
  { rewrite List.Forall_forall. intros a Ha. apply Hsub in Ha as (_ & Ha).
    subst p. cbn beta in Ha. lia. }
  repeat split; try assumption; try apply H1; try apply H2; try apply H4.
  unfold STAGING_CAPACITY, JUMPS_CAPACITY in *. lia.
Qed.

Lemma closedRecord_wellFormed f : closedRecord f -> wellFormed f.
Proof. intros (H & _). exact H. Qed.

(** ** From the disassembly to the table *)

Lemma openNext_console label f b stream' b' :
  openNext label f b stream' = Some b' -> console b' = console b.
Proof.
  unfold openNext. destruct (cleanupFunctionInfo f); cbn [mbind option_bind]; [|discriminate].
  destruct (createNewFunctionInfo label); intros H; try discriminate; injection H as <-;
    reflexivity.
Qed.

Lemma buildLoop_aborted fuel : forall b out,
  buildLoop fuel b = Some (Aborted out) -> out = console b ++ [SomethingWentWrong].
Proof.
  induction fuel as [|fuel IH]; intros b out Hrun; [discriminate|].
  rewrite buildLoop_S in Hrun. destruct (feof (stream b)); [discriminate|].
  destruct (currentFunctionInfo b) as [f|]; [|injection Hrun as <-; reflexivity].
  destruct (fgets 500 (stream b)) as [read stream1].
  assert (Hplain : match instruction (filled (inputBuffer b) read) f with
            | Some f' => buildLoop fuel
                (mkBuilder stream1 (filled (inputBuffer b) read) (closed b) (Some f')
                   (console b))
            | None => Some UndefinedBehaviour end = Some (Aborted out) ->
          out = console b ++ [SomethingWentWrong]).
  { destruct (instruction _ f) as [f'|]; [|discriminate]. intros H. apply IH in H. exact H. }
  assert (Hopen : forall label stream',
            match openNext label f b stream' with
            | Some b' => buildLoop fuel b'
            | None => Some UndefinedBehaviour end = Some (Aborted out) ->
            out = console b ++ [SomethingWentWrong]).
  { intros label stream'. destruct (openNext label f b stream') as [b1|] eqn:Hopen;
      [|discriminate].
    intros H. apply IH in H.
    rewrite <- (openNext_console _ _ _ _ _ Hopen). exact H. }
  cbn zeta in Hrun. destruct (found (filled (inputBuffer b) read) sectionString).
  - destruct (fgets 500 _) as [read2 stream3]. eauto.
  - destruct (found _ labelEndString); [|auto].
    destruct (strchr _ "<"); [|discriminate].
    destruct (firstIs "." _); eauto.
Qed.

(** The stages of [main] behind a result. *)
Lemma analyze_returned sorting printcount uninitialised disassembly code records out :
  analyze sorting printcount uninitialised disassembly = Some (Returned code records out) ->
  exists fuel stream1 first,
    (forall f, first = Some f -> exists label, createNewFunctionInfo label = Record_ f) /\
    ((exists b st,
        buildLoop fuel (mkBuilder stream1 uninitialised [] first []) = Some (Finished b) /\
        resolveAll (mkState (closed b ++ option_list (currentFunctionInfo b)) (console b))
          = Some st /\
        (if Ascii.eqb sorting "o" then sortForOwn (functions st)
         else if Ascii.eqb sorting "d" then sortForDeepest (functions st)
         else Some (functions st)) = Some records /\
        code = 0 /\
        out = stdout st ++ TableHeader :: TableRule :: printRows records 0 printcount ++ [Done])
     \/ (code = -1 /\ records = [] /\ out = [SomethingWentWrong])).
Proof.
  unfold analyze. intros H.
  destruct (fgets 500 (findNextTextSection (mkFILE disassembly false))) as [read stream1].
  set (fuel := (2 + String.length (content stream1))%nat) in H.
  assert (Hcore : forall first,
    (r ← buildLoop fuel (mkBuilder stream1 uninitialised [] first []);
     match r with
     | UndefinedBehaviour => Some Undefined
     | Aborted out => Some (Returned (-1) [] out)
     | Finished b =>
         s ← resolveAll (mkState (closed b ++ option_list (currentFunctionInfo b)) (console b));
         match (if Ascii.eqb sorting "o" then sortForOwn (functions s)
                else if Ascii.eqb sorting "d" then sortForDeepest (functions s)
                else Some (functions s)) with
         | None => Some Undefined
         | Some sorted =>
             Some (Returned 0 sorted
                     (stdout s ++ TableHeader :: TableRule
                        :: printRows sorted 0 printcount ++ [Done]))
         end
     end) = Some (Returned code records out) ->
    (exists b st,
        buildLoop fuel (mkBuilder stream1 uninitialised [] first []) = Some (Finished b) /\
        resolveAll (mkState (closed b ++ option_list (currentFunctionInfo b)) (console b))
          = Some st /\
        (if Ascii.eqb sorting "o" then sortForOwn (functions st)
         else if Ascii.eqb sorting "d" then sortForDeepest (functions st)
         else Some (functions st)) = Some records /\
        code = 0 /\
        out = stdout st ++ TableHeader :: TableRule :: printRows records 0 printcount ++ [Done])
     \/ (code = -1 /\ records = [] /\ out = [SomethingWentWrong])).
  { clear H. intros first Hrun.
    destruct (buildLoop fuel _) as [[b|aborted|]|] eqn:Hloop; cbn [mbind option_bind] in Hrun;
      try discriminate.
    - left. destruct (resolveAll _) as [st|] eqn:Hres; cbn [mbind option_bind] in Hrun;
        [|discriminate].
      destruct (if Ascii.eqb sorting "o" then _ else _) as [sorted|] eqn:Hsort; [|discriminate].
      injection Hrun as <- <- <-. exists b, st. auto.
    - right. injection Hrun as <- <- <-. apply buildLoop_aborted in Hloop. auto. }
  destruct (createNewFunctionInfo (filled uninitialised read)) as [f| |] eqn:Hnew;
    [| |discriminate].
  - exists fuel, stream1, (Some f). split; [|apply Hcore; exact H].
    intros g Hg. injection Hg as <-. eauto.
  - exists fuel, stream1, None. split; [discriminate|apply Hcore; exact H].
Qed.

Lemma pendingDiagnostics_unmarked r l :
  Forall (fun f => isProcessed f = false) l ->
  pendingDiagnostics r l = flat_map (diagnostics r) l.
Proof.
  induction 1 as [|f l Hp _ IH]; cbn [pendingDiagnostics flat_map]; [reflexivity|].
  rewrite Hp, IH. reflexivity.
Qed.

Lemma resolvable_false r a : resolvable r a = false <-> Forall (fun f => ~ holds f a) r.
Proof.
  unfold resolvable. rewrite <- (findFrom_None r 0 a).
  destruct (findFrom r 0 a); split; congruence.
Qed.

Lemma resolvable_perm r r' a : Permutation r r' -> resolvable r a = resolvable r' a.
Proof.
  intros Hperm. destruct (resolvable r' a) eqn:E'.
  - destruct (resolvable r a) eqn:E; [reflexivity|]. apply resolvable_false in E.
    assert (resolvable r' a = false)
      by (apply resolvable_false; eapply Permutation_Forall; eassumption).
    congruence.
  - apply resolvable_false. apply resolvable_false in E'.
    eapply Permutation_Forall; [symmetry; exact Hperm|exact E'].
Qed.

Lemma resolvable_evolves l l' a : evolves l l' -> resolvable l' a = resolvable l a.
Proof. intros Hev. unfold resolvable. rewrite (evolves_findFrom _ _ Hev). reflexivity. Qed.

Lemma diagnostics_ext r r' f f' :
  (forall a, resolvable r a = resolvable r' a) -> name f = name f' -> jumpsTo f = jumpsTo f' ->
  diagnostics r f = diagnostics r' f'.
Proof.
  intros Hr Hn Hj. unfold diagnostics, diagnosticsOf, unresolvedEdges. rewrite Hn, Hj.
  f_equal. apply List.filter_ext. intros a. rewrite Hr. reflexivity.
Qed.

Lemma diagnostics_evolves r l l' :
  evolves l l' -> flat_map (diagnostics r) l = flat_map (diagnostics r) l'.
Proof.
  induction 1 as [|f f' l l' ((Hn & _ & _ & _ & Hj & _) & _) _ IH]; cbn [flat_map];
    [reflexivity|].
  rewrite IH. f_equal. apply diagnostics_ext; auto.
Qed.

Lemma sorted_perm sorting l records :
  (if Ascii.eqb sorting "o" then sortForOwn l
   else if Ascii.eqb sorting "d" then sortForDeepest l
   else Some l) = Some records -> Permutation l records.
Proof.
  unfold sortForOwn, sortForDeepest.
  destruct (Ascii.eqb sorting "o"); [|destruct (Ascii.eqb sorting "d")]; intros H.
  - exact (sortBy_perm _ _ _ H).
  - exact (sortBy_perm _ _ _ H).
  - injection H as <-. reflexivity.
Qed.

(** X16. What [main] writes. When it returns [-1] it has written the one line
    ["something went wrong..."] and nothing else. When it returns [0] it has
    written, in this order: one diagnostic for each edge of a record that
    resolves to no record (each edge once, with the name of its function);
    the header and the rule of the table; one row for each of the first
    [printcount] records of the ranking; and the line ["done"]. *)
Theorem analyze_writes_diagnostics_then_table
    sorting printcount uninitialised disassembly code records out :
  analyze sorting printcount uninitialised disassembly = Some (Returned code records out) ->
  (code = -1 /\ records = [] /\ out = [SomethingWentWrong]) \/
  (code = 0 /\ exists reported,
     Permutation reported (flat_map (diagnostics records) records) /\
     out = reported ++ TableHeader :: TableRule
             :: map row (take (Z.to_nat printcount) records) ++ [Done]).
Proof.
  intros H. apply analyze_returned in H as (fuel & stream1 & first & Hfirst & [H|H]);
    [right|left; exact H].
  destruct H as (b & st & Hloop & Hres & Hsort & -> & ->). split; [reflexivity|].
  pose proof (buildLoop_asBuilt _ _ _ Hloop) as Hbuilt.
  cbn [closed currentFunctionInfo] in Hbuilt.
  assert (Hfresh : forall f, first = Some f -> asBuilt f).
  { intros f Hf. destruct (Hfirst f Hf) as (label & Hl).
    eapply createNewFunctionInfo_asBuilt. exact Hl. }
  specialize (Hbuilt ltac:(constructor) Hfresh).
  destruct (buildLoop_invariant (fun _ => True) (fun _ => True)
              (fun _ _ _ => I) (fun _ _ _ _ _ => I) (fun _ _ _ _ => I) _ _ _ Hloop)
    as (_ & _ & Hconsole & _); [apply Forall_true; auto|auto|].
  cbn [console] in Hconsole.
  set (built := closed b ++ option_list (currentFunctionInfo b)) in *.
  destruct (resolveAll_total (mkState built (console b))) as (st' & Hres' & Hall & Hev & _).
  rewrite Hres in Hres'. injection Hres' as <-. cbn [functions] in Hev.
  destruct (resolveFrom_diagnostics built _ _ _ _ Hres (same_ranges_refl _))
    as (reported & Hout & Hperm).
  cbn [functions stdout] in Hout, Hperm.
  rewrite (pendingDiagnostics_marked _ _ Hall), app_nil_r in Hperm.
  rewrite pendingDiagnostics_unmarked in Hperm
    by (eapply Forall_impl; [exact Hbuilt|]; intros f ((Hp & _) & _); exact Hp).
  pose proof (sorted_perm _ _ _ Hsort) as Hsorted.
  exists reported. split.
  - etrans; [exact Hperm|]. rewrite (diagnostics_evolves _ _ _ Hev).
    etrans; [apply Permutation_flat_map; exact Hsorted|].
    apply Permutation_refl'. apply flat_map_ext. intros f. apply diagnostics_ext; [|reflexivity..].
    intros a. rewrite <- (resolvable_perm _ _ a Hsorted). symmetry.
    apply resolvable_evolves. exact Hev.
  - rewrite Hout, Hconsole, printRows_take. cbn [app].
    replace (printcount - 0) with printcount by lia. reflexivity.
Qed.

Lemma analyze_writes_diagnostics_then_table_witness :
  (0 = -1 /\ [ mkFunctionInfo "main" 2634022912 2634022920 24 24 [0] false true ] = [] /\
   [ JumpTargetNotFound "main" 0; TableHeader; TableRule; TableRow "main" 24 24 false; Done ]
     = [SomethingWentWrong]) \/
  (0 = 0 /\ exists reported,
     Permutation reported
       (flat_map (diagnostics [ mkFunctionInfo "main" 2634022912 2634022920 24 24 [0] false true ])
                 [ mkFunctionInfo "main" 2634022912 2634022920 24 24 [0] false true ]) /\
     [ JumpTargetNotFound "main" 0; TableHeader; TableRule; TableRow "main" 24 24 false; Done ] =
     reported ++ TableHeader :: TableRule
       :: map row (take (Z.to_nat 10)
                     [ mkFunctionInfo "main" 2634022912 2634022920 24 24 [0] false true ])
       ++ [Done]).
Proof.
  apply (analyze_writes_diagnostics_then_table "d" 10 "" branchNowhereDisassembly).
  vm_compute. reflexivity.
Defined.

(** X17. When [main] returns [0] after sorting for the deepest usage (['d'],
    the default) the records it lists are in descending order of [deepest];
    after sorting for the own usage (['o']) they are in descending order of
    [ownStack] (fewer than [2^32] records). *)
Theorem analyze_lists_in_descending_order
    sorting printcount uninitialised disassembly records out :
  analyze sorting printcount uninitialised disassembly = Some (Returned 0 records out) ->
  Z.of_nat (length records) < 2 ^ 32 ->
  (sorting = "d"%char -> descending deepest records) /\
  (sorting = "o"%char -> descending ownStack records).
Proof.
  intros H Hlen. apply analyze_returned in H as (fuel & stream1 & first & _ & [H|H]);
    [|destruct H as (H & _); discriminate].
  destruct H as (b & st & _ & _ & Hsort & _).
  pose proof (sorted_perm _ _ _ Hsort) as Hperm.
  assert (Hkey : forall key, sortBy key (functions st) = Some records -> descending key records).
  { intros key Hs.
    destruct (sortBy_stable_descending key (functions st)) as (l' & Hl' & Hd & _).
    - intros E. rewrite E, sortBy_nil in Hs. discriminate.
    - rewrite (Permutation_length Hperm). exact Hlen.
    - congruence. }
  split; intros ->; apply Hkey; exact Hsort.
Qed.

Lemma analyze_lists_in_descending_order_witness :
  descending deepest
    [ mkFunctionInfo "main" 2634022912 2634022932 24 32 [2634022976] false true;
      mkFunctionInfo "helper" 2634022976 2634022988 8 8 [] true true ].
Proof.
  apply (analyze_lists_in_descending_order "d" 10 "" sampleDisassembly
           [ mkFunctionInfo "main" 2634022912 2634022932 24 32 [2634022976] false true;
             mkFunctionInfo "helper" 2634022976 2634022988 8 8 [] true true ]
           [ TableHeader; TableRule;
             TableRow "main" 24 32 false; TableRow "helper" 8 8 true; Done ]).
  - vm_compute. reflexivity.
  - vm_compute. reflexivity.
  - reflexivity.
Defined.

Lemma wellFormed_static f f' : static_eq f f' -> wellFormed f -> wellFormed f'.
Proof.
  intros (_ & E1 & E2 & E3 & E4 & _). unfold wellFormed. rewrite E1, E2, E3, E4. auto.
Qed.

Lemma closedRecord_static f f' : static_eq f f' -> closedRecord f -> closedRecord f'.
Proof.
  intros Hst (Hw & Hlen & Hout). split; [eapply wellFormed_static; eassumption|].
  destruct Hst as (_ & E1 & E2 & _ & E4 & _). unfold holds in *. rewrite <- E1, <- E2, <- E4. auto.
Qed.

Lemma evolves_Forall (P : functionInfo -> Prop) l l' :
  (forall f f', static_eq f f' -> P f -> P f') -> evolves l l' -> Forall P l -> Forall P l'.
Proof.
  intros HP Hev. induction Hev as [|f f' l l' (Hst & _) _ IH]; [constructor|].
  intros H. inversion H; subst. constructor; eauto.
Qed.

Lemma resolvable_start l f : In f l -> wellFormed f -> resolvable l (start f) = true.
Proof.
  intros Hin (_ & _ & Hle & _). destruct (resolvable l (start f)) eqn:E; [reflexivity|].
  apply resolvable_false in E. rewrite List.Forall_forall in E.
  exfalso. apply (E f Hin). unfold holds. lia.
Qed.

(** X18. The records [main] lists when it returns [0]. Every record has its
    fields in the range of [uint32_t] and a range that is not empty, so an
    edge to the start address of any listed function resolves. All records
    but at most one (the function that was open when the input ended, which
    is never closed) hold at most 1000 edges and no edge into their own
    range. *)
Theorem analyze_lists_well_formed_records
    sorting printcount uninitialised disassembly records out :
  analyze sorting printcount uninitialised disassembly = Some (Returned 0 records out) ->
  Forall wellFormed records /\
  Forall (fun f => resolvable records (start f) = true) records /\
  exists closed_ open, Permutation records (closed_ ++ open) /\
    Forall closedRecord closed_ /\ (length open <= 1)%nat.
Proof.
  intros H. apply analyze_returned in H as (fuel & stream1 & first & Hfirst & [H|H]);
    [|destruct H as (H & _); discriminate].
  destruct H as (b & st & Hloop & Hres & Hsort & _).
  pose proof (sorted_perm _ _ _ Hsort) as Hperm.
  destruct (buildLoop_invariant wellFormed closedRecord
              createNewFunctionInfo_wellFormed instruction_wellFormed
              cleanupFunctionInfo_closedRecord _ _ _ Hloop)
    as (Hclosed & Hopen & _); [constructor| |].
  { cbn [currentFunctionInfo]. intros f Hf. destruct (Hfirst f Hf) as (label & Hl).
    eapply createNewFunctionInfo_wellFormed. exact Hl. }
  destruct (resolveAll_total (mkState (closed b ++ option_list (currentFunctionInfo b))
              (console b))) as (st' & Hres' & _ & Hev & _).
  rewrite Hres in Hres'. injection Hres' as <-. cbn [functions] in Hev.
  apply Forall2_app_inv_l in Hev as (resolvedClosed & resolvedOpen & Hev1 & Hev2 & Hst).
  assert (Hc : Forall closedRecord resolvedClosed)
    by (eapply evolves_Forall; [apply closedRecord_static|exact Hev1|exact Hclosed]).
  assert (Ho : Forall wellFormed resolvedOpen).
  { eapply evolves_Forall; [apply wellFormed_static|exact Hev2|].
    destruct (currentFunctionInfo b) as [f|]; [|constructor].
    constructor; [auto|constructor]. }
  assert (Hw : Forall wellFormed records).
  { eapply Permutation_Forall; [exact Hperm|]. rewrite Hst. apply Forall_app. split; [|exact Ho].
    eapply Forall_impl; [exact Hc|]. apply closedRecord_wellFormed. }
  split; [exact Hw|]. split.
  - rewrite List.Forall_forall in *. intros f Hf. apply resolvable_start; auto.
  - exists resolvedClosed, resolvedOpen. rewrite <- Hst. split; [symmetry; exact Hperm|].
    split; [exact Hc|]. rewrite <- (Forall2_length _ _ _ Hev2).
    destruct (currentFunctionInfo b); cbn; lia.
Qed.

Lemma analyze_lists_well_formed_records_witness :
  Forall wellFormed
    [ mkFunctionInfo "main" 2634022912 2634022932 24 32 [2634022976] false true;
      mkFunctionInfo "helper" 2634022976 2634022988 8 8 [] true true ].
Proof.
  apply (analyze_lists_well_formed_records "d" 10 "" sampleDisassembly
           [ mkFunctionInfo "main" 2634022912 2634022932 24 32 [2634022976] false true;
             mkFunctionInfo "helper" 2634022976 2634022988 8 8 [] true true ]
           [ TableHeader; TableRule;
             TableRow "main" 24 32 false; TableRow "helper" 8 8 true; Done ]).
  vm_compute. reflexivity.
Defined.

(** ** Opening the disassembly *)

Open Scope string_scope.

(** X19. [openDisassembly] writes the command into an array of 500 characters:
    a file name of more than 429 characters makes [sprintf] store past its
    end, whatever the clock and the disassembler do; a shorter one gives the
    quoted path of the disassembler, [-d] and the file name as it is. *)
Theorem long_file_name_overflows_command CLOCKS_PER_SEC clock fuel popen file :
  (openDisassembly CLOCKS_PER_SEC clock fuel popen file = Some CommandOverflow
   <-> (429 < String.length file)%nat) /\
  ((String.length file <= 429)%nat -> command file = Some (objdump ++ file)).
Proof.
  unfold openDisassembly, command. rewrite length_append.
  change (String.length objdump) with 70%nat.
  destruct (Nat.ltb_spec (70 + String.length file) 500) as [H|H].
  - split; [|reflexivity]. split; [|lia].
    destruct (busywait _ _ _ _); cbn [mbind option_bind]; discriminate.
  - split; [|lia]. split; [lia|reflexivity].
Qed.

Lemma long_file_name_overflows_command_witness : command "a.elf" = Some (objdump ++ "a.elf").
Proof.
  apply (long_file_name_overflows_command 1000 tickingClock 0 (fun _ => "") "a.elf").
  cbn. lia.
Defined.

Close Scope string_scope.

Lemma busywaitLoop_spec CLOCKS_PER_SEC clock milliseconds fuel : forall n r,
  busywaitLoop CLOCKS_PER_SEC clock (wrap32 (clock 0%nat)) milliseconds fuel n = Some r <->
  (n <= r < n + fuel)%nat /\ milliseconds <= waited CLOCKS_PER_SEC clock r /\
  forall m, (n <= m < r)%nat -> waited CLOCKS_PER_SEC clock m < milliseconds.
Proof.
  induction fuel as [|fuel IH]; intros n r; cbn [busywaitLoop].
  - split; [discriminate|]. intros (H & _). lia.
  - fold (waited CLOCKS_PER_SEC clock n).
    destruct (waited CLOCKS_PER_SEC clock n <? milliseconds) eqn:E.
    + rewrite IH. split.
      * intros (H1 & H2 & H3). split; [lia|]. split; [exact H2|].
        intros m Hm. destruct (decide (m = n)) as [->|]; [lia|]. apply H3. lia.
      * intros (H1 & H2 & H3). assert (r <> n) by (intros ->; lia).
        split; [lia|]. split; [exact H2|]. intros m Hm. apply H3. lia.
    + split.
      * intros [= <-]. split; [lia|]. split; [lia|]. intros m Hm. lia.
      * intros (H1 & H2 & H3). f_equal. destruct (decide (r = n)) as [->|]; [reflexivity|].
        specialize (H3 n ltac:(lia)). lia.
Qed.

Lemma busywait_first_reading CLOCKS_PER_SEC clock fuel milliseconds r :
  busywait CLOCKS_PER_SEC clock fuel milliseconds = Some r <->
  (1 <= r <= fuel)%nat /\ milliseconds <= waited CLOCKS_PER_SEC clock r /\
  forall m, (1 <= m < r)%nat -> waited CLOCKS_PER_SEC clock m < milliseconds.
Proof.
  unfold busywait. rewrite busywaitLoop_spec. split; intros (H1 & H2); (split; [lia|exact H2]).
Qed.

(** X20. [busywait] returns at the first reading of the clock, after the one
    taken for [start], at which the ticks since [start], times
    [1000 / CLOCKS_PER_SEC] (both in 32-bit unsigned arithmetic), are not
    below [milliseconds]; it does not return while every reading is
    below. *)
Theorem busywait_returns_at_first_reading CLOCKS_PER_SEC clock fuel milliseconds r :
  0 < CLOCKS_PER_SEC ->
  busywait CLOCKS_PER_SEC clock fuel milliseconds = Some r <->
  (1 <= r <= fuel)%nat /\ milliseconds <= waited CLOCKS_PER_SEC clock r /\
  forall m, (1 <= m < r)%nat -> waited CLOCKS_PER_SEC clock m < milliseconds.
Proof. intros _. apply busywait_first_reading. Qed.

Lemma busywait_returns_at_first_reading_witness :
  busywait 1000 tickingClock 200 100 = Some 100%nat <->
  (1 <= 100 <= 200)%nat /\ 100 <= waited 1000 tickingClock 100 /\
  forall m, (1 <= m < 100)%nat -> waited 1000 tickingClock m < 100.
Proof. apply (busywait_returns_at_first_reading 1000 tickingClock 200 100 100%nat). lia. Defined.

(** X21. Where [CLOCKS_PER_SEC] is above 1000 the factor [1000 / CLOCKS_PER_SEC]
    is [0]: [busywait] returns on no clock, for any positive number of
    milliseconds, and [main] does not return once it has a file name to
    open (of at most 429 characters). *)
Theorem busywait_never_returns_above_1000_ticks
    CLOCKS_PER_SEC clock popen uninitialised program arguments file :
  1000 < CLOCKS_PER_SEC ->
  (forall fuel milliseconds, 0 < milliseconds ->
     busywait CLOCKS_PER_SEC clock fuel milliseconds = None) /\
  (filename (readOptions arguments) = Some file -> (String.length file <= 429)%nat ->
   forall fuel, main CLOCKS_PER_SEC clock fuel popen uninitialised program arguments = None).
Proof.
  intros Hcps.
  assert (Hwait : forall fuel milliseconds, 0 < milliseconds ->
            busywait CLOCKS_PER_SEC clock fuel milliseconds = None).
  { intros fuel milliseconds Hms.
    destruct (busywait CLOCKS_PER_SEC clock fuel milliseconds) as [r|] eqn:E; [|reflexivity].
    apply busywait_first_reading in E as (_ & H & _). exfalso.
    unfold waited in H. rewrite Z.quot_small in H by lia.
    rewrite Z.mul_0_r in H. change (wrap32 0) with 0 in H. lia. }
  split; [exact Hwait|]. intros Hfile Hlen fuel. unfold main, openDisassembly, command.
  rewrite Hfile. rewrite length_append. change (String.length objdump) with 70%nat.
  destruct (Nat.ltb_spec (70 + String.length file) 500) as [_|H]; [|lia].
  rewrite Hwait by lia. reflexivity.
Qed.

Lemma busywait_never_returns_above_1000_ticks_witness :
  (forall fuel milliseconds, 0 < milliseconds ->
     busywait 1000000 tickingClock fuel milliseconds = None) /\
  (filename (readOptions ["a.elf"%string]) = Some "a.elf"%string ->
   (String.length "a.elf" <= 429)%nat ->
   forall fuel, main 1000000 tickingClock fuel (fun _ => sampleDisassembly) "" "ssa" ["a.elf"%string]
                = None).
Proof.
  apply (busywait_never_returns_above_1000_ticks 1000000 tickingClock
           (fun _ => sampleDisassembly) ""%string "ssa"%string ["a.elf"%string] "a.elf"%string).
  lia.
Defined.

(** With 1000 ticks per second and a clock that advances by one tick per
    reading, [busywait(100)] returns at the hundredth reading after
    [start]. *)
Example busywait_ticking : busywait 1000 tickingClock 200 100 = Some 100%nat.
Proof. vm_compute. reflexivity. Qed.

(** ** The whole run *)

(** X22. [main] returns on every command line and every disassembly once
    [busywait] has returned (undefined behaviour apart, which is a result
    of its own): no input makes the analysis loop forever. *)
Theorem main_returns_once_the_wait_is_over
    CLOCKS_PER_SEC clock fuel popen uninitialised program arguments :
  is_Some (busywait CLOCKS_PER_SEC clock fuel 100) ->
  is_Some (main CLOCKS_PER_SEC clock fuel popen uninitialised program arguments).
Proof.
  intros [r Hr]. unfold main. destruct (filename (readOptions arguments)) as [file|]; [|eauto].
  unfold openDisassembly. destruct (command file) as [c|]; cbn [mbind option_bind]; [|eauto].
  rewrite Hr. cbn [mbind option_bind].
  destruct (analyze_total (sorting (readOptions arguments)) (printcount (readOptions arguments))
              uninitialised (popen c)) as [o ->].
  cbn [fmap option_fmap option_map]. eauto.
Qed.

Lemma main_returns_once_the_wait_is_over_witness :
  is_Some (main 1000 tickingClock 200 (fun _ => sampleDisassembly) "" "ssa" ["a.elf"%string]).
Proof.
  apply (main_returns_once_the_wait_is_over 1000 tickingClock 200).
  exists 100%nat. vm_compute. reflexivity.
Defined.

(** The sample listing through [main]: the options, the command, the wait
    and the analysis. *)
Example main_sample :
  main 1000 tickingClock 200 (fun _ => sampleDisassembly) "" "ssa" ["-so"; "-n1"; "a.elf"]%string =
  Some (Analysed (Returned 0
          [ mkFunctionInfo "main" 2634022912 2634022932 24 32 [2634022976] false true;
            mkFunctionInfo "helper" 2634022976 2634022988 8 8 [] true true ]
          [ TableHeader; TableRule; TableRow "main" 24 32 false; Done ])).
Proof. vm_compute. reflexivity. Qed.

(** ** The frame and the range of a function *)

Lemma instruction_step line f f' :
  instruction line f = Some f' ->
  ownStack f' = (if growth line =? 0 then ownStack f else wrap32 (ownStack f + growth line)) /\
  end_ f' = Z.max (end_ f) (addressOf line) /\ start f' = start f /\ name f' = name f.
Proof.
  unfold instruction, growth. fold (addressOf line).
  set (g := if _ >? end_ f then _ else f).
  assert (Hg : ownStack g = ownStack f /\ end_ g = Z.max (end_ f) (addressOf line) /\
               start g = start f /\ name g = name f).
  { subst g. destruct (_ >? _) eqn:E; cbn [set_end ownStack end_ start name];
      repeat split; lia. }
  clearbody g. destruct Hg as (Ho & He & Hs & Hn). intros H.
  destruct (strstr line stackPointerString) as [position|].
  - cbv zeta in *. generalize dependent (strtol10 (advance (String.length stackPointerString) position)).
    intros m H. injection H as <-. destruct (m <? 0) eqn:E.
    + destruct (Z.eqb_spec (- m) 0) as [E0|_]; [lia|].
      cbn [set_ownStack ownStack end_ start name]. rewrite Ho.
      split; [f_equal; lia|auto].
    + cbn [Z.eqb]. auto.
  - cbn [Z.eqb]. destruct (_ || _); [|injection H as <-; auto].
    destruct (found line returnString); [injection H as <-; auto|].
    destruct (found line indirectCallString); [injection H as <-; auto|].
    destruct (found line indirectJumpString); [injection H as <-; auto|].
    destruct (match strrchr line "," with Some p => Some p | None => strrchr line tab end);
      cbn [mbind option_bind] in H; [|discriminate].
    destruct (_ <? JUMPS_CAPACITY); [injection H as <-; auto|discriminate].
Qed.

Lemma growth_nonneg line : 0 <= growth line.
Proof.
  unfold growth. destruct (strstr line stackPointerString); [|lia].
  cbv zeta. destruct (_ <? 0) eqn:E; lia.
Qed.

(** X23. The frame of a function is the sum of all the reservations in its body:
    over lines that open neither a section nor a function, [ownStack] grows
    by the amounts of the negative adjustments of the stack pointer, modulo
    [2^32]; no line lowers it (a positive adjustment is ignored), and it is
    exactly the sum while that is below [2^32]. [end] becomes the largest
    address at the head of a line, when that is above the [end] before;
    [start] and the name stay. *)
Theorem frame_is_sum_of_reservations lines : forall f f',
  instructions lines f = Some f' -> uint32 (ownStack f) ->
  ownStack f' = wrap32 (ownStack f + sumOf (map growth lines)) /\
  (ownStack f + sumOf (map growth lines) < 2 ^ 32 ->
   ownStack f' = ownStack f + sumOf (map growth lines) /\ ownStack f <= ownStack f') /\
  end_ f' = foldl Z.max (end_ f) (map addressOf lines) /\
  start f' = start f /\ name f' = name f.
Proof.
  assert (Hsum : forall l, 0 <= sumOf (map growth l)).
  { induction l as [|x l IH]; cbn [map sumOf foldr]; [lia|].
    pose proof (growth_nonneg x). unfold sumOf in IH. lia. }
  assert (Hmain : forall f f', instructions lines f = Some f' -> uint32 (ownStack f) ->
    ownStack f' = wrap32 (ownStack f + sumOf (map growth lines)) /\
    end_ f' = foldl Z.max (end_ f) (map addressOf lines) /\
    start f' = start f /\ name f' = name f).
  { induction lines as [|line lines IH]; intros f f' H Hu; cbn [instructions] in H.
    - injection H as <-. cbn [map sumOf foldr foldl]. rewrite Z.add_0_r.
      unfold wrap32. rewrite Z.mod_small by exact Hu. auto.
    - destruct (instruction line f) as [f1|] eqn:E; cbn [mbind option_bind] in H; [|discriminate].
      destruct (instruction_step _ _ _ E) as (Ho & He & Hs & Hn).
      assert (Hu1 : uint32 (ownStack f1)).
      { rewrite Ho. destruct (growth line =? 0); [exact Hu|apply wrap32_uint32]. }
      destruct (IH _ _ H Hu1) as (Ho' & He' & Hs' & Hn').
      cbn [map sumOf foldr foldl]. fold (sumOf (map growth lines)).
      rewrite Ho', He', Hs', Hn', He, Hs, Hn. split; [|auto].
      rewrite Ho. destruct (Z.eqb_spec (growth line) 0) as [->|_].
      + f_equal.
      + unfold wrap32. rewrite Zplus_mod_idemp_l. f_equal. lia. }
  intros f f' H Hu. destruct (Hmain f f' H Hu) as (Ho & He & Hs & Hn).
  repeat split; try assumption.
  - rewrite Ho. unfold wrap32. apply Z.mod_small. specialize (Hsum lines).
    unfold uint32 in Hu. lia.
  - rewrite Ho. unfold wrap32. rewrite Z.mod_small; specialize (Hsum lines);
      unfold uint32 in Hu; lia.
Qed.

Lemma frame_is_sum_of_reservations_witness :
  let f := mkFunctionInfo "main" 2634022912 2634022912 0 0 [] false false in
  let f' := mkFunctionInfo "main" 2634022912 2634022932 40 0 [2634022976] false false in
  ownStack f' = wrap32 (ownStack f + sumOf (map growth sampleBody)) /\
  (ownStack f + sumOf (map growth sampleBody) < 2 ^ 32 ->
   ownStack f' = ownStack f + sumOf (map growth sampleBody) /\ ownStack f <= ownStack f') /\
  end_ f' = foldl Z.max (end_ f) (map addressOf sampleBody) /\
  start f' = start f /\ name f' = name f.
Proof.
  apply (frame_is_sum_of_reservations sampleBody
           (mkFunctionInfo "main" 2634022912 2634022912 0 0 [] false false)
           (mkFunctionInfo "main" 2634022912 2634022932 40 0 [2634022976] false false)).
  - vm_compute. reflexivity.
  - unfold uint32. cbn. lia.
Defined.

(** ** The end of the input *)

Open Scope string_scope.

(** X24. The loop of [main] tests the end-of-file indicator before it reads, so
    when the input ends with the newline of its last line the loop runs once
    more: [fgets] fails and leaves the buffer as it was (the buffer keeps
    its content from one iteration to the next), and the last line is
    processed a second time. The listing [endsWithReservation] ends with
    the reservation of 24 bytes of its only function, whose frame is found
    to be 48 bytes. *)
Theorem last_line_is_processed_twice fuel b f line f1 f2 :
  feof (stream b) = false -> currentFunctionInfo b = Some f ->
  shortLine line ->
  found (line ++ String newline "") sectionString = false ->
  found (line ++ String newline "") labelEndString = false ->
  instruction (line ++ String newline "") f = Some f1 ->
  instruction (line ++ String newline "") f1 = Some f2 ->
  (content (stream b) = line ++ String newline "" ->
   buildLoop (3 + fuel) b =
   Some (Finished (mkBuilder (mkFILE "" true) (line ++ String newline "") (closed b) (Some f2)
                     (console b)))) /\
  analyze "d" 10 "" endsWithReservation =
  Some (Returned 0
          [ mkFunctionInfo "main" 2634022912 2634022912 48 48 [] false true ]
          [ TableHeader; TableRule; TableRow "main" 48 48 false; Done ]).
Proof.
  intros Heof Hcur Hshort Hsec Hlab Hf1 Hf2. split; [|vm_compute; reflexivity].
  intros Hcontent.
  change (3 + fuel)%nat with (S (S (S fuel))).
  rewrite buildLoop_S, Heof, Hcur.
  destruct (stream b) as [c e] eqn:Hs. cbn [content feof] in *. subst c e.
  rewrite fgets_line by assumption. cbn [filled]. cbv zeta. rewrite Hsec, Hlab, Hf1.
  rewrite buildLoop_S. cbn [stream feof currentFunctionInfo inputBuffer closed console].
  change (fgets 500 (mkFILE "" false)) with (@None string, mkFILE "" true).
  cbn [filled]. cbv zeta. rewrite Hsec, Hlab, Hf2.
  rewrite buildLoop_S. reflexivity.
Qed.

Lemma last_line_is_processed_twice_witness :
  buildLoop (3 + 0)
    (mkBuilder (mkFILE (withTabs "9d000000:|27bdffe8 |addiu|sp,sp,-24" ++ String newline "") false)
       "" [] (Some (mkFunctionInfo "main" 2634022912 2634022912 0 0 [] false false)) []) =
  Some (Finished
          (mkBuilder (mkFILE "" true)
             (withTabs "9d000000:|27bdffe8 |addiu|sp,sp,-24" ++ String newline "") []
             (Some (mkFunctionInfo "main" 2634022912 2634022912 48 0 [] false false)) [])).
Proof.
  apply (last_line_is_processed_twice 0
           (mkBuilder (mkFILE (withTabs "9d000000:|27bdffe8 |addiu|sp,sp,-24" ++ String newline "") false)
              "" [] (Some (mkFunctionInfo "main" 2634022912 2634022912 0 0 [] false false)) [])
           (mkFunctionInfo "main" 2634022912 2634022912 0 0 [] false false)
           (withTabs "9d000000:|27bdffe8 |addiu|sp,sp,-24")
           (mkFunctionInfo "main" 2634022912 2634022912 24 0 [] false false)
           (mkFunctionInfo "main" 2634022912 2634022912 48 0 [] false false));
    try reflexivity.
  split; [reflexivity|cbn; lia].
Defined.

Close Scope string_scope.

(** ** Reading a function *)

Open Scope string_scope.

Lemma buildLoop_plain fuel b f f' line stream1 :
  feof (stream b) = false -> currentFunctionInfo b = Some f ->
  fgets 500 (stream b) = (Some line, stream1) ->
  plainLine line -> instruction line f = Some f' ->
  buildLoop (S fuel) b = buildLoop fuel (mkBuilder stream1 line (closed b) (Some f') (console b)).
Proof.
  intros Heof Hcur Hread (Hsec & Hlab) Hf. rewrite buildLoop_S, Heof, Hcur, Hread.
  cbn [filled]. cbv zeta. rewrite Hsec, Hf.
  destruct Hlab as [->|(position & -> & ->)]; [|rewrite Tauto.if_same]; reflexivity.
Qed.

Lemma buildLoop_body rest : forall body fuel b f f',
  stream b = mkFILE (unlines body ++ rest) false -> currentFunctionInfo b = Some f ->
  Forall shortLine body -> Forall (fun l => plainLine (withNewline l)) body ->
  instructions (map withNewline body) f = Some f' ->
  buildLoop (length body + fuel) b =
  buildLoop fuel
    (mkBuilder (mkFILE rest false) (lastRead (inputBuffer b) body) (closed b) (Some f')
       (console b)).
Proof.
  induction body as [|l body IH]; intros fuel b f f' Hstream Hcur Hshort Hplain Hrun.
  - cbn [instructions map] in Hrun. injection Hrun as <-. cbn [length plus unlines foldr append] in *.
    unfold lastRead. cbn [last from_option]. destruct b as [st buf cl cur co].
    cbn [stream currentFunctionInfo inputBuffer closed console] in *. subst. reflexivity.
  - inversion Hshort as [|? ? Hl Hshort']; subst. inversion Hplain as [|? ? Hp Hplain']; subst.
    cbn [instructions map] in Hrun.
    destruct (instruction (withNewline l) f) as [f1|] eqn:Hf1; cbn [mbind option_bind] in Hrun;
      [|discriminate].
    cbn [length plus].
    erewrite (buildLoop_plain _ b f f1 (withNewline l) (mkFILE (unlines body ++ rest) false));
      try eassumption.
    + rewrite (IH fuel _ f1 f'); try assumption; try reflexivity.
      cbn [closed console inputBuffer]. f_equal. f_equal. unfold lastRead.
      destruct body as [|l2 body]; [reflexivity|]. cbn [last].
      destruct (last (l2 :: body)) eqn:E; [reflexivity|].
      apply last_None in E. discriminate.
    + rewrite Hstream. reflexivity.
    + rewrite Hstream. cbn [unlines foldr]. rewrite append_assoc. cbn [append].
      apply fgets_line. exact Hl.
Qed.

(** X25. The loop of [main] over the lines of a function. Over a body of lines
    that open neither a section nor a function (each fitting the buffer),
    the loop does to the record what [instruction] does line by line, reads
    exactly these lines and leaves the other records alone. A label line
    after them closes the record with [cleanupFunctionInfo], appends it to
    the list and opens the record that [createNewFunctionInfo] makes of the
    label. *)
Theorem loop_reads_a_function_body_then_its_successor
    body label rest fuel b f f' closed_ new :
  stream b = mkFILE (unlines (body ++ [label]) ++ rest) false ->
  currentFunctionInfo b = Some f ->
  Forall shortLine body -> Forall (fun l => plainLine (withNewline l)) body ->
  instructions (map withNewline body) f = Some f' ->
  shortLine label -> labelLine (withNewline label) ->
  cleanupFunctionInfo f' = Some closed_ ->
  createNewFunctionInfo (withNewline label) = Record_ new ->
  buildLoop (length body + S fuel) b =
  buildLoop fuel
    (mkBuilder (mkFILE rest false) (withNewline label) (closed b ++ [closed_]) (Some new)
       (console b)).
Proof.
  intros Hstream Hcur Hshort Hplain Hrun Hl (Hsec & Hlab & position & Hpos & Hdot) Hclean Hnew.
  rewrite unlines_app in Hstream.
  rewrite (buildLoop_body _ body (S fuel) b f f' Hstream Hcur Hshort Hplain Hrun).
  rewrite buildLoop_S. cbn [stream feof currentFunctionInfo inputBuffer closed console].
  cbn [unlines foldr]. rewrite append_assoc. cbn [append].
  rewrite fgets_line by exact Hl. cbn [filled]. cbv zeta.
  fold (withNewline label). rewrite Hsec, Hlab, Hpos, Hdot.
  unfold openNext. rewrite Hclean. cbn [mbind option_bind]. rewrite Hnew.
  cbn [closed console]. reflexivity.
Qed.

Lemma loop_reads_a_function_body_then_its_successor_witness :
  buildLoop (length sampleBody + 1)
    (mkBuilder (mkFILE (unlines (sampleBody ++ ["9d000040 <helper>:"]) ++ "") false) "" []
       (Some (mkFunctionInfo "main" 2634022912 2634022912 0 0 [] false false)) []) =
  buildLoop 0
    (mkBuilder (mkFILE "" false) (withNewline "9d000040 <helper>:")
       ([] ++ [mkFunctionInfo "main" 2634022912 2634022932 40 0 [2634022976] false false])
       (Some (mkFunctionInfo "helper" 2634022976 2634022976 0 0 [] false false)) []).
Proof.
  apply (loop_reads_a_function_body_then_its_successor sampleBody "9d000040 <helper>:" "" 0
           (mkBuilder (mkFILE (unlines (sampleBody ++ ["9d000040 <helper>:"]) ++ "") false) "" []
              (Some (mkFunctionInfo "main" 2634022912 2634022912 0 0 [] false false)) [])
           (mkFunctionInfo "main" 2634022912 2634022912 0 0 [] false false)
           (mkFunctionInfo "main" 2634022912 2634022932 40 0 [2634022976] false false)
           (mkFunctionInfo "main" 2634022912 2634022932 40 0 [2634022976] false false)
           (mkFunctionInfo "helper" 2634022976 2634022976 0 0 [] false false));
    try reflexivity.
  - repeat constructor; cbn; lia.
  - repeat (constructor; [split; [reflexivity|left; reflexivity]|]). constructor.
  - split; [reflexivity|cbn; lia].
  - split; [reflexivity|]. split; [reflexivity|]. eexists. split; reflexivity.
Defined.

Close Scope string_scope.

(** ** Section headers inside the loop *)

Open Scope string_scope.

(** X26. A text section that the loop of [main] reaches. After the header of a
    text section the loop reads the label of the next function from the
    very next line: unlike [findNextTextSection] it skips no line. When
    that line is a label the loop closes the record and opens the next;
    when it is not (the disassembler writes an empty line after every
    header) no record is opened and the run ends with ["something went
    wrong..."], as on the listing [twoTextSections]. *)
Theorem text_section_in_loop_reads_label_from_next_line
    fuel b f closed_ header label rest :
  stream b = mkFILE (unlines [header; label] ++ rest) false ->
  currentFunctionInfo b = Some f ->
  shortLine header -> shortLine label ->
  found (withNewline header) sectionString = true ->
  found (withNewline header) textSectionString = true ->
  cleanupFunctionInfo f = Some closed_ ->
  (forall new, createNewFunctionInfo (withNewline label) = Record_ new ->
     buildLoop (S fuel) b =
     buildLoop fuel
       (mkBuilder (mkFILE rest false) (withNewline label) (closed b ++ [closed_]) (Some new)
          (console b))) /\
  (createNewFunctionInfo (withNewline label) = Null ->
   buildLoop (S (S fuel)) b = Some (Aborted (console b ++ [SomethingWentWrong]))) /\
  analyze "d" 10 "" twoTextSections = Some (Returned (-1) [] [SomethingWentWrong]).
Proof.
  intros Hstream Hcur Hh Hl Hsec Htext Hclean.
  assert (Hstep : buildLoop (S fuel) b =
            match openNext (withNewline label) f b (mkFILE rest false) with
            | Some b' => buildLoop fuel b'
            | None => Some UndefinedBehaviour
            end).
  { rewrite buildLoop_S, Hstream, Hcur. cbn [feof unlines foldr].
    rewrite !append_assoc. cbn [append]. rewrite !append_assoc. cbn [append].
    rewrite fgets_line by exact Hh. cbn [filled]. cbv zeta.
    fold (withNewline header). rewrite Hsec, Htext.
    rewrite fgets_line by exact Hl. cbn [filled]. reflexivity. }
  split; [|split; [|vm_compute; reflexivity]].
  - intros new Hnew. rewrite Hstep. unfold openNext. rewrite Hclean.
    cbn [mbind option_bind]. rewrite Hnew. reflexivity.
  - intros Hnull. rewrite buildLoop_S, Hstream, Hcur. cbn [feof unlines foldr].
    rewrite !append_assoc. cbn [append]. rewrite !append_assoc. cbn [append].
    rewrite fgets_line by exact Hh. cbn [filled]. cbv zeta.
    fold (withNewline header). rewrite Hsec, Htext.
    rewrite fgets_line by exact Hl. cbn [filled].
    unfold openNext. rewrite Hclean. cbn [mbind option_bind].
    fold (withNewline label). rewrite Hnull.
    rewrite buildLoop_S. reflexivity.
Qed.

Lemma text_section_in_loop_reads_label_from_next_line_witness :
  buildLoop 2
    (mkBuilder (mkFILE (unlines ["Disassembly of section .text.startup:"; ""]
                        ++ "9d001000 <foo>:") false)
       "" [] (Some sampleMain) []) =
  Some (Aborted ([] ++ [SomethingWentWrong])).
Proof.
  apply (text_section_in_loop_reads_label_from_next_line 0
           (mkBuilder (mkFILE (unlines ["Disassembly of section .text.startup:"; ""]
                               ++ "9d001000 <foo>:") false)
              "" [] (Some sampleMain) [])
           sampleMain sampleMain "Disassembly of section .text.startup:" "" "9d001000 <foo>:");
    try reflexivity.
  - split; [reflexivity|cbn; lia].
  - split; [reflexivity|cbn; lia].
Defined.

(** X27. A section that is not a text section, reached by the loop of [main].
    The loop closes the record, skips the lines up to the header of the
    next text section, that header and the line after it, and reads the
    label of the next function from the line that follows; the listing
    [dataBetweenTextSections] is read to its end. *)
Theorem other_section_in_loop_is_skipped
    fuel b f closed_ new header skipped textHeader blank label rest :
  stream b =
    mkFILE (unlines (header :: skipped ++ [textHeader; blank; label]) ++ rest) false ->
  currentFunctionInfo b = Some f ->
  shortLine header ->
  found (withNewline header) sectionString = true ->
  found (withNewline header) textSectionString = false ->
  Forall shortLine skipped ->
  Forall (fun l => String.prefix expectedString l = false) skipped ->
  shortLine textHeader -> String.prefix expectedString textHeader = true ->
  shortLine blank -> shortLine label ->
  cleanupFunctionInfo f = Some closed_ ->
  createNewFunctionInfo (withNewline label) = Record_ new ->
  buildLoop (S fuel) b =
    buildLoop fuel
      (mkBuilder (mkFILE rest false) (withNewline label) (closed b ++ [closed_]) (Some new)
         (console b)) /\
  analyze "d" 10 "" dataBetweenTextSections =
  Some (Returned 0
          [ mkFunctionInfo "main" 2634022912 2634022912 24 24 [] false true;
            mkFunctionInfo "foo" 2634027008 2634027008 0 0 [] false true ]
          [ TableHeader; TableRule;
            TableRow "main" 24 24 false; TableRow "foo" 0 0 false; Done ]).
Proof.
  intros Hstream Hcur Hh Hsec Htext Hshort Hno Hth Hthp Hb Hl Hclean Hnew.
  split; [|vm_compute; reflexivity].
  rewrite buildLoop_S, Hstream, Hcur. cbn [feof unlines foldr].
  rewrite append_assoc. cbn [append].
  rewrite fgets_line by exact Hh. cbn [filled]. cbv zeta.
  fold (withNewline header). rewrite Hsec, Htext.
  change (foldr (fun l acc => l ++ String newline acc) ""
            (skipped ++ [textHeader; blank; label]))
    with (unlines (skipped ++ [textHeader; blank; label])).
  replace (skipped ++ [textHeader; blank; label])%list
    with ((skipped ++ [textHeader; blank]) ++ [label])%list
    by (rewrite <- app_assoc; reflexivity).
  rewrite unlines_app.
  rewrite findNextTextSection_header by assumption.
  cbn [unlines foldr]. rewrite append_assoc. cbn [append].
  rewrite fgets_line by exact Hl. cbn [filled].
  unfold openNext. rewrite Hclean. cbn [mbind option_bind].
  fold (withNewline label). rewrite Hnew. reflexivity.
Qed.

Lemma other_section_in_loop_is_skipped_witness :
  buildLoop 1
    (mkBuilder
       (mkFILE (unlines ("Disassembly of section .rodata:"
                         :: [""; "9d000800 <tab>:"]
                         ++ ["Disassembly of section .text.startup:"; ""; "9d001000 <foo>:"])
                ++ "") false)
       "" [] (Some sampleMain) []) =
  buildLoop 0
    (mkBuilder (mkFILE "" false) (withNewline "9d001000 <foo>:") ([] ++ [sampleMain])
       (Some (mkFunctionInfo "foo" 2634027008 2634027008 0 0 [] false false)) []).
Proof.
  apply (other_section_in_loop_is_skipped 0
           (mkBuilder
              (mkFILE (unlines ("Disassembly of section .rodata:"
                                :: [""; "9d000800 <tab>:"]
                                ++ ["Disassembly of section .text.startup:"; ""; "9d001000 <foo>:"])
                       ++ "") false)
              "" [] (Some sampleMain) [])
           sampleMain sampleMain (mkFunctionInfo "foo" 2634027008 2634027008 0 0 [] false false)
           "Disassembly of section .rodata:" [""; "9d000800 <tab>:"]
           "Disassembly of section .text.startup:" "" "9d001000 <foo>:" "");
    try reflexivity.
  - split; [reflexivity|cbn; lia].
  - repeat constructor; cbn; lia.
  - repeat constructor.
  - split; [reflexivity|cbn; lia].
  - split; [reflexivity|cbn; lia].
  - split; [reflexivity|cbn; lia].
Defined.

Close Scope string_scope.

(** ** The marker of indirect calls *)

Section Marker.
Variable marker : bool.
Local Abbreviation M := (withMarker marker).

Lemma find_marker s a : findFunctionByAddress (M s) a = findFunctionByAddress s a.
Proof.
  unfold findFunctionByAddress. cbn [withMarker functions]. symmetry.
  apply findFrom_same_ranges. induction (functions s); constructor; auto.
Qed.

Lemma lookup_marker s t :
  functions (M s) !! t = set_usesFunctionPointers marker <$> functions s !! t.
Proof. cbn [withMarker functions]. apply list_lookup_fmap. Qed.

Lemma update_marker g t s :
  (forall f, set_usesFunctionPointers marker (g f) = g (set_usesFunctionPointers marker f)) ->
  update t g (M s) = M (update t g s).
Proof.
  intros Hg. unfold update, withMarker. cbn [functions stdout]. f_equal.
  symmetry. apply (list_fmap_alter (set_usesFunctionPointers marker) g g).
  apply Forall_true. exact Hg.
Qed.

Variables rec rec' : nat -> state -> option (Z * state).
Hypothesis rec_marker : forall j s, rec' j (M s) = (fun r => (r.1, M r.2)) <$> rec j s.

Lemma forEachJump_marker t jumps : forall s,
  forEachJump rec' t jumps (M s) = M <$> forEachJump rec t jumps s.
Proof.
  induction jumps as [|a rest IH]; intros s; [reflexivity|].
  cbn [forEachJump]. rewrite find_marker.
  destruct (findFunctionByAddress s a) as [j|].
  - rewrite rec_marker. destruct (rec j s) as [[v s']|]; [|reflexivity].
    cbn [fmap option_fmap option_map mbind option_bind fst snd].
    rewrite lookup_marker. destruct (functions s' !! t) as [f'|]; [|reflexivity].
    cbn [fmap option_fmap option_map mbind option_bind].
    change (deepest (set_usesFunctionPointers marker f')) with (deepest f').
    destruct (v >? deepest f'); [|apply IH].
    rewrite update_marker by reflexivity. apply IH.
  - rewrite lookup_marker. destruct (functions s !! t) as [f|]; [|reflexivity].
    cbn [fmap option_fmap option_map mbind option_bind].
    change (printf (JumpTargetNotFound (name (set_usesFunctionPointers marker f)) a) (M s))
      with (M (printf (JumpTargetNotFound (name f) a) s)).
    apply IH.
Qed.
End Marker.

Lemma getDeepestStackUsage_marker marker fuel : forall t s,
  getDeepestStackUsage fuel t (withMarker marker s) =
  (fun r => (r.1, withMarker marker r.2)) <$> getDeepestStackUsage fuel t s.
Proof.
  induction fuel as [|fuel IH]; intros t s; [reflexivity|].
  rewrite !getDeepestStackUsage_S, lookup_marker.
  destruct (functions s !! t) as [f|] eqn:Hf; [|reflexivity].
  cbn [fmap option_fmap option_map mbind option_bind].
  change (isProcessed (set_usesFunctionPointers marker f)) with (isProcessed f).
  destruct (isProcessed f) eqn:Hp; [reflexivity|].
  change (jumpsTo (set_usesFunctionPointers marker f)) with (jumpsTo f).
  rewrite update_marker by reflexivity.
  rewrite (forEachJump_marker marker _ _ IH).
  destruct (forEachJump _ t (jumpsTo f) _) as [s2|]; [|reflexivity].
  cbn [fmap option_fmap option_map mbind option_bind].
  rewrite update_marker by reflexivity. rewrite lookup_marker.
  destruct (functions (update t _ s2) !! t) as [t3|]; reflexivity.
Qed.

Lemma unprocessed_marker marker l :
  unprocessed (map (set_usesFunctionPointers marker) l) = unprocessed l.
Proof. induction l as [|f l IH]; cbn [map unprocessed]; [reflexivity|]. rewrite IH. reflexivity. Qed.

Lemma resolveFrom_marker marker todo : forall current s,
  resolveFrom todo current (withMarker marker s) = withMarker marker <$> resolveFrom todo current s.
Proof.
  induction todo as [|todo IH]; intros current s; [reflexivity|].
  rewrite !resolveFrom_S. cbn [withMarker functions]. rewrite unprocessed_marker.
  change (mkState (map (set_usesFunctionPointers marker) (functions s)) (stdout s))
    with (withMarker marker s).
  rewrite getDeepestStackUsage_marker.
  destruct (getDeepestStackUsage _ current s) as [[v s1]|]; [|reflexivity].
  cbn [fmap option_fmap option_map mbind option_bind snd]. apply IH.
Qed.

(** X28. The resolver never reads the marker of indirect calls: with the marker
    of every record set or cleared, a call and the whole pass return the same
    values, leave the same [deepest] in every record and print the same
    diagnostics. A function that calls through a pointer gets no allowance
    for what it calls that way; the marker only goes into the table. *)
Theorem deepest_ignores_indirect_calls marker :
  (forall fuel t s,
     getDeepestStackUsage fuel t (withMarker marker s) =
     (fun r => (r.1, withMarker marker r.2)) <$> getDeepestStackUsage fuel t s) /\
  (forall s, resolveAll (withMarker marker s) = withMarker marker <$> resolveAll s) /\
  (forall s, exists s1 s2,
     resolveAll s = Some s1 /\ resolveAll (withMarker marker s) = Some s2 /\
     map deepest (functions s2) = map deepest (functions s1) /\ stdout s2 = stdout s1).
Proof.
  split; [intros; apply getDeepestStackUsage_marker|].
  assert (Hall : forall s, resolveAll (withMarker marker s) = withMarker marker <$> resolveAll s).
  { intros s. unfold resolveAll. cbn [withMarker functions]. rewrite length_map.
    apply resolveFrom_marker. }
  split; [exact Hall|]. intros s. destruct (resolveAll_total s) as (s1 & Hres & _).
  exists s1, (withMarker marker s1). rewrite Hall, Hres. repeat split.
  cbn [withMarker functions]. rewrite map_map. reflexivity.
Qed.

(** ** Buffers that were never written *)

Lemma sameRecords_refl r : sameRecords r r.
Proof. destruct r as [[b| |]|]; cbn; auto. Qed.

Lemma buildLoop_buffer fuel b buffer' :
  feof (stream b) = true \/ content (stream b) <> EmptyString ->
  sameRecords (buildLoop fuel b)
    (buildLoop fuel (mkBuilder (stream b) buffer' (closed b) (currentFunctionInfo b) (console b))).
Proof.
  intros Hfilled. destruct fuel as [|fuel]; [exact I|].
  rewrite !buildLoop_S. cbn [stream inputBuffer closed currentFunctionInfo console].
  destruct (feof (stream b)) eqn:Heof; [cbn; auto|].
  destruct (currentFunctionInfo b) as [f|]; [|reflexivity].
  destruct Hfilled as [?|Hne]; [discriminate|].
  unfold fgets at 1 3. destruct (content (stream b)) as [|c rest] eqn:Hc; [congruence|].
  destruct (readLine (500 - 1) (String c rest)) as [[line remaining] hit].
  cbn [filled]. unfold openNext. cbn [closed console]. apply sameRecords_refl.
Qed.

(** X29. What the line buffers of [main] hold before the first [fgets] into them
    has no influence on the run, provided the listing has a line after the
    one that follows the header of its first text section (the label of the
    first function), and either ends within that line or has a further
    line: the label and the first line of the loop are then read from the
    input. *)
Theorem initial_buffers_are_not_read
    sorting printcount uninitialised uninitialised' disassembly label stream1 :
  fgets 500 (findNextTextSection (mkFILE disassembly false)) = (Some label, stream1) ->
  feof stream1 = true \/ content stream1 <> EmptyString ->
  analyze sorting printcount uninitialised disassembly =
  analyze sorting printcount uninitialised' disassembly.
Proof.
  intros Hlabel Hnext. unfold analyze. rewrite Hlabel. cbn [filled].
  destruct (createNewFunctionInfo label) as [f| |]; [| |reflexivity].
  - pose proof (buildLoop_buffer (2 + String.length (content stream1))
                  (mkBuilder stream1 uninitialised [] (Some f) []) uninitialised' Hnext) as H.
    cbn [stream closed currentFunctionInfo console] in H.
    destruct (buildLoop _ (mkBuilder stream1 uninitialised [] (Some f) [])) as [[b| |]|],
             (buildLoop _ (mkBuilder stream1 uninitialised' [] (Some f) [])) as [[b'| |]|];
      cbn in H; try contradiction; try reflexivity; cbn [mbind option_bind].
    + destruct H as (-> & -> & ->). reflexivity.
    + subst. reflexivity.
  - pose proof (buildLoop_buffer (2 + String.length (content stream1))
                  (mkBuilder stream1 uninitialised [] None []) uninitialised' Hnext) as H.
    cbn [stream closed currentFunctionInfo console] in H.
    destruct (buildLoop _ (mkBuilder stream1 uninitialised [] None [])) as [[b| |]|],
             (buildLoop _ (mkBuilder stream1 uninitialised' [] None [])) as [[b'| |]|];
      cbn in H; try contradiction; try reflexivity; cbn [mbind option_bind].
    + destruct H as (-> & -> & ->). reflexivity.
    + subst. reflexivity.
Qed.

Lemma initial_buffers_are_not_read_witness :
  analyze "d" 10 "" sampleDisassembly = analyze "d" 10 "<x>:" sampleDisassembly.
Proof.
  apply (initial_buffers_are_not_read "d" 10 ""%string "<x>:"%string sampleDisassembly
           (withNewline "9d000000 <main>:")
           (fgets 500 (findNextTextSection (mkFILE sampleDisassembly false))).2).
  - vm_compute. reflexivity.
  - right. vm_compute. discriminate.
Defined.

(** ** The heaviest call chain *)

Lemma maximum_ge l x : In x l -> x <= maximum l.
Proof.
  induction l as [|y l IH]; [intros []|]. cbn [maximum foldr]. fold (maximum l).
  intros [->|H]; [lia|]. specialize (IH H). lia.
Qed.

Lemma maximum_attained l : maximum l = 0 \/ In (maximum l) l.
Proof.
  induction l as [|y l IH]; [left; reflexivity|]. cbn [maximum foldr]. fold (maximum l).
  destruct (Z.max_spec y (maximum l)) as [(_ & ->)|(_ & ->)].
  - destruct IH as [->|H]; [left; reflexivity|right; right; exact H].
  - right. left. reflexivity.
Qed.

(** The records after the pass over fresh records of an acyclic graph whose
    frames add up to less than [2^32]: no addition has wrapped. *)
Lemma resolveAll_exact s :
  Forall unresolved (functions s) -> Forall (fun f => 0 <= ownStack f) (functions s) ->
  totalStack (functions s) < 2 ^ 32 -> acyclic (functions s) ->
  exists s', resolveAll s = Some s' /\ evolves (functions s) (functions s') /\
    forall i f, functions s' !! i = Some f ->
      0 <= ownStack f /\
      deepest f = ownStack f + maximum (map (deepestOfTarget (functions s')) (jumpsTo f)).
Proof.
  intros Hfresh Hown Htotal Hacyclic.
  destruct (resolveAll_total s) as (s' & Hres & Hall & Hev & _).
  exists s'. split; [exact Hres|]. split; [exact Hev|].
  destruct (resolveFrom_acyclic (calleeOf (functions s)) _ Hacyclic _ _ _ Hres) as (_ & Hset);
    [auto|..].
  { split.
    - intros k g Hg _. exact (proj2 (Forall_lookup_1 _ _ _ _ Hfresh Hg)).
    - intros k g Hg Hp. pose proof (Forall_lookup_1 _ _ _ _ Hfresh Hg) as (E & _). congruence. }
  destruct (resolveFrom_bound _ _ _ _ 0 Hres) as (Hb & _ & Hfin).
  { apply bounded_unresolved; assumption. }
  { rewrite pendingStack_unresolved by assumption. lia. }
  pose proof (pendingStack_nonneg _ _ Hb) as Hnn.
  rewrite pendingStack_unresolved in Hb by assumption.
  assert (Hle : forall j g, functions s' !! j = Some g ->
            0 <= ownStack g /\ 0 <= deepest g <= totalStack (functions s)).
  { intros j g Hg. destruct (bounded_lookup _ _ _ _ Hb Hg) as (? & ? & ?). lia. }
  intros i f Hf. destruct (Hle i f Hf) as (Hof & Hdf).
  split; [exact Hof|].
  pose proof (Forall_lookup_1 _ _ _ _ Hall Hf) as Hp. cbn beta in Hp.
  destruct (Hset i f Hf Hp) as (Heq & _); [tauto|].
  set (m := maximum (map (deepestOfTarget (functions s')) (jumpsTo f))) in *.
  assert (Hm : 0 <= m <= totalStack (functions s)).
  { split; [apply maximum_nonneg|]. destruct (maximum_attained (map (deepestOfTarget (functions s')) (jumpsTo f)))
      as [E|Hin]; fold m in E || fold m in Hin; [lia|].
    apply in_map_iff in Hin as (a & Ha & _). rewrite <- Ha. unfold deepestOfTarget.
    destruct (findFrom (functions s') 0 a) as [j|]; [|lia].
    destruct (functions s' !! j) as [g|] eqn:Hg; cbn [from_option]; [|lia].
    apply (Hle j g Hg). }
  destruct (Forall2_lookup_r _ _ _ _ _ Hev Hf) as (f0 & Hf0 & _).
  pose proof (Forall_lookup_1 _ _ _ _ Hfresh Hf0) as (Hp0 & _).
  pose proof (Hfin i f0 f Hf0 Hp0 Hf Hp) as Hge.
  rewrite Heq in Hge |- *. unfold wrap32 in *.
  assert (Hcases : (m + ownStack f) mod 2 ^ 32 = m + ownStack f \/
                   (m + ownStack f) mod 2 ^ 32 = m + ownStack f - 2 ^ 32).
  { destruct (Z_lt_ge_dec (m + ownStack f) (2 ^ 32)) as [Hlt|Hge2].
    - left. apply Z.mod_small. lia.
    - right. rewrite <- (Z_mod_plus_full (m + ownStack f) (-1) (2 ^ 32)).
      apply Z.mod_small. lia. }
  destruct Hcases as [E|E]; rewrite E in *; lia.
Qed.

(** X30. The meaning of [deepest] on a call graph without cycles. For fresh
    records whose frames add up to less than [2^32] and whose edges all go to
    records of lower rank, the pass leaves in every record the size of the
    heaviest chain of calls that starts at it: some chain of resolved calls
    uses exactly [deepest] bytes, and no chain uses more. *)
Theorem deepest_is_heaviest_call_chain s rank :
  Forall unresolved (functions s) -> Forall (fun f => 0 <= ownStack f) (functions s) ->
  totalStack (functions s) < 2 ^ 32 -> ranked rank (functions s) ->
  exists s', resolveAll s = Some s' /\
    forall i f, functions s' !! i = Some f ->
      callChain (functions s') i (deepest f) /\
      forall w, callChain (functions s') i w -> w <= deepest f.
Proof.
  intros Hfresh Hown Htotal Hrank.
  destruct (resolveAll_exact s Hfresh Hown Htotal (ranked_acyclic _ _ Hrank))
    as (s' & Hres & Hev & Hexact).
  exists s'. split; [exact Hres|].
  assert (Hupper : forall i w, callChain (functions s') i w ->
            forall f, functions s' !! i = Some f -> w <= deepest f).
  { induction 1 as [i f0 Hf0|i j f0 w Hf0 (f1 & a & Hf1 & Ha & Hfind) _ IH]; intros f Hf.
    - assert (f0 = f) by congruence. subst f0. destruct (Hexact i f Hf) as (_ & ->).
      pose proof (maximum_nonneg (map (deepestOfTarget (functions s')) (jumpsTo f))). lia.
    - assert (f0 = f) by congruence. assert (f1 = f) by congruence. subst f0 f1.
      destruct (Hexact i f Hf) as (_ & ->).
      destruct (lookup_lt_is_Some_2 (functions s') j) as [g Hg].
      { apply findFrom_lt in Hfind. lia. }
      specialize (IH g Hg).
      assert (deepest g <= maximum (map (deepestOfTarget (functions s')) (jumpsTo f))).
      { apply maximum_ge. apply in_map_iff. exists a. split.
        - unfold deepestOfTarget. rewrite Hfind, Hg. reflexivity.
        - apply list_elem_of_In. exact Ha. }
      lia. }
  assert (Hattained : forall n i f, (rank i < n)%nat -> functions s' !! i = Some f ->
            callChain (functions s') i (deepest f)).
  { induction n as [|n IH]; intros i f Hn Hf; [lia|].
    destruct (Hexact i f Hf) as (_ & Heq).
    destruct (maximum_attained (map (deepestOfTarget (functions s')) (jumpsTo f))) as [E|Hin].
    - rewrite Heq, E, Z.add_0_r. constructor. exact Hf.
    - set (m := maximum (map (deepestOfTarget (functions s')) (jumpsTo f))) in *.
      apply in_map_iff in Hin as (a & Ha & Hin). unfold deepestOfTarget in Ha.
      destruct (findFrom (functions s') 0 a) as [j|] eqn:Hfind.
      + destruct (lookup_lt_is_Some_2 (functions s') j) as [g Hg].
        { apply findFrom_lt in Hfind. lia. }
        rewrite Hg in Ha. cbn [from_option] in Ha.
        assert (Hcall : calleeOf (functions s') i j).
        { exists f, a. split; [exact Hf|]. split; [apply list_elem_of_In; exact Hin|exact Hfind]. }
        pose proof (Hrank i j (calleeOf_evolves _ _ _ _ Hev Hcall)) as Hlt.
        rewrite Heq, <- Ha. eapply callChain_call; [exact Hf|exact Hcall|].
        apply (IH j g); [lia|exact Hg].
      + rewrite Heq, <- Ha, Z.add_0_r. constructor. exact Hf. }
  intros i f Hf. split; [apply (Hattained (S (rank i))); [lia|exact Hf]|].
  intros w Hw. exact (Hupper i w Hw f Hf).
Qed.

Lemma deepest_is_heaviest_call_chain_witness :
  exists s', resolveAll chainAB = Some s' /\
    forall i f, functions s' !! i = Some f ->
      callChain (functions s') i (deepest f) /\
      forall w, callChain (functions s') i w -> w <= deepest f.
Proof.
  apply (deepest_is_heaviest_call_chain chainAB (fun i => (2 - i)%nat)).
  - repeat constructor.
  - repeat constructor; cbn; lia.
  - vm_compute. reflexivity.
  - apply chain_ranked; reflexivity.
Defined.
